(** * fature-mlm-service-v2: the distribution engine

    A shallow embedding of the engine's core: the service
    (src/services/mlmService.js, class [MLMService]), the persistence
    model it calls (class [MLMModel], models/mlmModel) and the
    configuration client (class [ConfigClient], utils/configClient), with
    the properties the specification states about them.

    Conventions of the embedding.
    - JavaScript numbers are rationals ([Q]) where they are amounts or
      thresholds and integers ([Z]) where they are identifiers, levels and
      counts.  The columns of mlm_statistics are kept as the store keeps
      them: an amount is rounded to two decimals, half away from zero, and
      a value that does not fit its DECIMAL or INTEGER column is refused.
      In the other tables an amount is stored as written, and the
      identifiers, texts and JSON values written are taken to be ones
      their columns accept.
    - A call that can throw returns a [Result]; [async] functions are
      modelled by their settled value.
    - The relational store is a record of tables.  A table with a UNIQUE
      key is a finite map on that key; append-only tables are lists.  The
      constraints the migration script declares on the columns written here
      (the level CHECK of mlm_hierarchy, NOT NULL of cpa_distributions.user_id,
      the ranges of the columns of mlm_statistics) are enforced on write.
    - Logging through [logger] has no effect on any value and is left out,
      except where building the log message can itself throw. *)

From Stdlib Require Import ZArith QArith Lia.
From stdpp Require Import base option list gmap strings pretty sorting.

Local Open Scope Z_scope.

(* ================================================================== *)
(** * Results of calls that may throw *)

Inductive JsError : Type :=
| TypeError (message : string)
| Error (message : string)
| DatabaseError (constraint : string).

Inductive Result (A : Type) : Type :=
| Ok (a : A)
| Throw (e : JsError).
Arguments Ok {A} a.
Arguments Throw {A} e.

Definition rbind {A B} (r : Result A) (k : A -> Result B) : Result B :=
  match r with
  | Ok a => k a
  | Throw e => Throw e
  end.

Global Instance result_ret : MRet Result := fun A a => Ok a.
Global Instance result_bind : MBind Result := fun A B k r => rbind r k.

(** [for (const x of xs) out.push(await f(x))], stopping at the first throw. *)
Fixpoint rmapM {A B} (f : A -> Result B) (xs : list A) : Result (list B) :=
  match xs with
  | [] => Ok []
  | x :: xs' =>
      y ← f x; ys ← rmapM f xs'; Ok (y :: ys)
  end.

(* ================================================================== *)
(** * Loosely typed payloads

    The validation rule set arrives as parsed JSON and is read with
    property accesses, truthiness tests, strict equalities and [for...of];
    [JUndef] is what reading an absent property yields. *)

#[warnings="-register-all"]
Inductive JVal : Type :=
| JUndef
| JNull
| JBool (b : bool)
| JNum (q : Q)
| JStr (s : string)
| JArr (items : list JVal)
| JObj (fields : list (string * JVal)).

(** Truthiness ([!v] is its negation). *)
Definition js_truthy (v : JVal) : bool :=
  match v with
  | JUndef | JNull => false
  | JBool b => b
  | JNum q => negb (Qeq_bool q 0)
  | JStr s => negb (String.eqb s "")
  | JArr _ | JObj _ => true
  end.

(** Own property of a parsed object; the first binding of a key is the one
    the object holds. *)
Fixpoint own_property (fields : list (string * JVal)) (k : string) : JVal :=
  match fields with
  | [] => JUndef
  | (k', v) :: rest => if String.eqb k' k then v else own_property rest k
  end.

Definition has_own_property (fields : list (string * JVal)) (k : string) : bool :=
  existsb (fun kv => String.eqb (fst kv) k) fields.

(** [v.k] for the property names the engine reads ([groups], [length],
    [criteria], [enabled], [type], [value], [operator], [group_operator]):
    reading from [null] or [undefined] throws, arrays and strings have a
    [length], and a name that is not there reads as [undefined]. *)
Definition js_get (v : JVal) (k : string) : Result JVal :=
  match v with
  | JUndef =>
      Throw (TypeError ("Cannot read properties of undefined (reading '" +:+ k +:+ "')"))
  | JNull =>
      Throw (TypeError ("Cannot read properties of null (reading '" +:+ k +:+ "')"))
  | JObj fields => Ok (own_property fields k)
  | JArr items =>
      Ok (if String.eqb k "length" then JNum (inject_Z (Z.of_nat (length items))) else JUndef)
  | JStr s =>
      Ok (if String.eqb k "length" then JNum (inject_Z (Z.of_nat (String.length s))) else JUndef)
  | JBool _ | JNum _ => Ok JUndef
  end.

Fixpoint string_chars (s : string) : list JVal :=
  match s with
  | EmptyString => []
  | String c rest => JStr (String c EmptyString) :: string_chars rest
  end.

(** The values [for (const x of v)] binds: the elements of an array, the
    characters of a string (one per byte here, one per code point in the
    engine; the loops only ever skip them); anything else is not
    iterable. *)
Definition js_iter (v : JVal) : Result (list JVal) :=
  match v with
  | JArr items => Ok items
  | JStr s => Ok (string_chars s)
  | _ => Throw (TypeError "value is not iterable")
  end.

(** [v === s] for a string literal [s], and [v === n] for a number. *)
Definition js_is_string (v : JVal) (s : string) : bool :=
  match v with
  | JStr t => String.eqb t s
  | _ => false
  end.

Definition js_is_number (v : JVal) (n : Q) : bool :=
  match v with
  | JNum q => Qeq_bool q n
  | _ => false
  end.

(** Converting a parsed value to a primitive (for a template literal or a
    relational comparison) throws exactly when it reaches an object whose
    own [toString] shadows the inherited method: no parsed value is
    callable.  Arrays convert by joining their elements, skipping [null]. *)
Fixpoint to_primitive_throws (v : JVal) : bool :=
  match v with
  | JObj fields => has_own_property fields "toString"
  | JArr items => existsb to_primitive_throws items
  | _ => false
  end.

Section Coercion.

(** [x >= v] for a number [x] and a string or an array [v] that converts
    without throwing: the comparison parses the text [v] converts to.  How
    it parses is left open; no property below depends on it. *)
Variable coerced_ge : Q -> JVal -> bool.

(** [a >= v], where [a] is a measured attribute (a number, or
    [undefined] when the event does not carry it) and [v] a threshold. *)
Definition js_ge (a : option Q) (v : JVal) : Result bool :=
  if to_primitive_throws v
  then Throw (TypeError "Cannot convert object to primitive value")
  else Ok match a with
          | None => false
          | Some x =>
              match v with
              | JUndef => false
              | JNull => Qle_bool 0 x
              | JBool b => Qle_bool (if b then 1 else 0) x
              | JNum q => Qle_bool q x
              | JStr _ | JArr _ => coerced_ge x v
              | JObj _ => false (* "[object Object]" is not a number *)
              end
          end.

End Coercion.

(* ================================================================== *)
(** * Data model *)

(** The measured attributes of a commission event ([cpaData]).  Only
    [amount] is required by the request schema. *)
Record CpaData : Type := {
  amount : Q;
  depositAmount : option Q;
  betsCount : option Q;
  totalBetAmount : option Q;
  daysActive : option Q;
  ruleId : option string;
  criteria : option JVal
}.

(** [mlm_settings]; a property the configured object lacks reads as
    [undefined]. *)
Record MlmSettings : Type := {
  max_hierarchy_levels : option Z;
  minimum_amount : option Q;
  currency : option string
}.

(** A row of the upline query: participant and distance from the
    originator (the originator itself is at distance 1). *)
Record UplineRow : Type := {
  upline_affiliate_id : Z;
  upline_level : Z
}.

(** A row of the downline query: the columns of the stored row and the
    distance from the participant asked for, which is at depth 1. *)
Record TreeRow : Type := {
  tree_affiliate_id : Z;
  tree_parent_id : option Z;
  tree_level : Z;
  tree_path : list Z;
  depth : Z
}.

(** A pending distribution, as [calculateDistributions] builds it. *)
Record Distribution : Type := {
  affiliate_id : Z;
  affiliate_level : Z;
  dist_amount : Q;
  dist_currency : string
}.

(* ================================================================== *)
(** * Eligibility validator: [MLMService.validateCpa] *)

Module Validator.
Section WithCoercion.

Variable coerced_ge : Q -> JVal -> bool.

(** [cpaData.<attribute>]: throws when [cpaData] is [null]. *)
Definition attribute (cpaData : option CpaData) (name : string)
    (field : CpaData -> option Q) : Result (option Q) :=
  match cpaData with
  | None =>
      Throw (TypeError ("Cannot read properties of null (reading '" +:+ name +:+ "')"))
  | Some d => Ok (field d)
  end.

Definition compare (cpaData : option CpaData) (name : string)
    (field : CpaData -> option Q) (criterion : JVal) : Result bool :=
  a ← attribute cpaData name field;
  v ← js_get criterion "value";
  js_ge coerced_ge a v.

(** One iteration of the inner loop: [None] is [continue] (a criterion
    that is not enabled), [Some r] is the result pushed. *)
Definition evalCriterion (cpaData : option CpaData) (criterion : JVal)
    : Result (option bool) :=
  enabled ← js_get criterion "enabled";
  if negb (js_truthy enabled) then Ok None
  else
    type ← js_get criterion "type";
    result ←
      (if js_is_string type "deposit" then
         compare cpaData "depositAmount" depositAmount criterion
       else if js_is_string type "bets" then
         compare cpaData "betsCount" betsCount criterion
       else if js_is_string type "bet_amount" then
         compare cpaData "totalBetAmount" totalBetAmount criterion
       else if js_is_string type "days_active" then
         compare cpaData "daysActive" daysActive criterion
       else if to_primitive_throws type then
         (* the warning's message interpolates [criteria.type] *)
         Throw (TypeError "Cannot convert object to primitive value")
       else Ok false);
    Ok (Some result).

Fixpoint evalCriteria (cpaData : option CpaData) (items : list JVal)
    : Result (list bool) :=
  match items with
  | [] => Ok []
  | c :: rest =>
      r ← evalCriterion cpaData c;
      rs ← evalCriteria cpaData rest;
      Ok (match r with Some b => b :: rs | None => rs end)
  end.

(** [results.every(r => r)] and [results.some(r => r)]. *)
Definition every (results : list bool) : bool := forallb (fun r => r) results.
Definition some (results : list bool) : bool := existsb (fun r => r) results.

(** One iteration of the outer loop: the result pushed for a group. *)
Definition evalGroup (cpaData : option CpaData) (group : JVal) : Result bool :=
  crit ← js_get group "criteria";
  items ← js_iter crit;
  criteriaResults ← evalCriteria cpaData items;
  operator ← js_get group "operator";
  Ok (if js_is_string operator "AND" then every criteriaResults
      else some criteriaResults).

(** The body of the [try] block. *)
Definition validateCpa_try (userId : Z) (cpaData : option CpaData)
    (validationRules : JVal) : Result bool :=
  if negb (js_truthy validationRules) then Ok true
  else
    groups ← js_get validationRules "groups";
    if negb (js_truthy groups) then Ok true
    else
      len ← js_get groups "length";
      if js_is_number len 0 then Ok true
      else
        gs ← js_iter groups;
        groupResults ← rmapM (evalGroup cpaData) gs;
        group_operator ← js_get validationRules "group_operator";
        Ok (if js_is_string group_operator "AND" then every groupResults
            else some groupResults).

(** [validateCpa]: the [catch] block turns every throw into [false]. *)
Definition validateCpa (userId : Z) (cpaData : option CpaData)
    (validationRules : JVal) : Result bool :=
  match validateCpa_try userId cpaData validationRules with
  | Ok finalResult => Ok finalResult
  | Throw _ => Ok false
  end.

End WithCoercion.
End Validator.

(* ================================================================== *)
(** * Distribution calculator: [MLMService.calculateDistributions] *)

Module Calculator.

(** [`level_${n}`]. *)
Definition levelKey (n : Z) : string := "level_" +:+ pretty n.

(** [mlmSettings.currency || 'BRL']. *)
Definition currency_or_default (s : MlmSettings) : string :=
  match currency s with
  | Some c => if String.eqb c "" then "BRL" else c
  | None => "BRL"
  end.

(** [upline_level <= mlmSettings.max_hierarchy_levels]; a comparison
    with [undefined] is false. *)
Definition within_max (mlmSettings : MlmSettings) (upline_level : Z) : bool :=
  match max_hierarchy_levels mlmSettings with
  | Some m => upline_level <=? m
  | None => false
  end.

(** The test [amount && amount > 0 && upline_level <= max_hierarchy_levels]
    on the table entry of a level; an absent entry is [undefined]. *)
Definition pays (cpaAmounts : gmap string Q) (mlmSettings : MlmSettings)
    (affiliate : UplineRow) : option Q :=
  match cpaAmounts !! levelKey (upline_level affiliate) with
  | Some a =>
      if negb (Qeq_bool a 0) && negb (Qle_bool a 0)
         && within_max mlmSettings (upline_level affiliate)
      then Some a else None
  | None => None
  end.

Fixpoint calculateDistributions (upline : list UplineRow)
    (cpaAmounts : gmap string Q) (mlmSettings : MlmSettings) : list Distribution :=
  match upline with
  | [] => []
  | affiliate :: rest =>
      match pays cpaAmounts mlmSettings affiliate with
      | Some a =>
          {| affiliate_id := upline_affiliate_id affiliate;
             affiliate_level := upline_level affiliate;
             dist_amount := a;
             dist_currency := currency_or_default mlmSettings |}
          :: calculateDistributions rest cpaAmounts mlmSettings
      | None => calculateDistributions rest cpaAmounts mlmSettings
      end
  end.

End Calculator.

(* ================================================================== *)
(** * Persistence: [MLMModel] *)

(** A row of [mlm_hierarchy], keyed by its [affiliate_id] (UNIQUE). *)
Record HierarchyRow : Type := {
  parent_id : option Z;
  level : Z;
  path : list Z;
  active : bool
}.

(** A calendar date as (year, month, day); a period is a pair of them. *)
Abbreviation Date := (Z * Z * Z)%type.

(** A pair of columns [level_k_cpas], [level_k_amount] of [mlm_statistics],
    and likewise [total_cpas], [total_amount]. *)
Record Tally : Type := {
  cpas : Z;
  amount_sum : Q
}.

(** The statistics of one participant in one period. *)
Record Statistics : Type := {
  total : Tally;
  level_1 : Tally;
  level_2 : Tally;
  level_3 : Tally;
  level_4 : Tally;
  level_5 : Tally
}.

Definition total_cpas (s : Statistics) : Z := cpas (total s).
Definition total_amount (s : Statistics) : Q := amount_sum (total s).

(** A row of [cpa_validados]. *)
Record CpaValidado : Type := {
  cv_id : Z;
  cv_user_id : Z;
  cv_affiliate_id : Z;
  cv_affiliate_level : Z;
  cpa_amount : Q;
  validation_rule_id : string;
  validation_criteria : JVal
}.

(** The argument of [saveCpaDistribution]; [transaction_id] is the triple
    that [`CPA_${cpaValidadoId}_${affiliate_id}_${Date.now()}`] formats. *)
Record DistributionData : Type := {
  cpa_validado_id : Z;
  user_id : option Z;
  dd_affiliate_id : Z;
  dd_affiliate_level : Z;
  original_amount : Q;
  distributed_amount : Q;
  transaction_id : Z * Z * Z
}.

(** A row of [mlm_operation_logs]; the JSON columns that echo the request
    and the result, and the execution time, are left out. *)
Record OperationLog : Type := {
  operation_type : string;
  entity_type : string;
  entity_id : string;
  status : string;
  error_message : option string
}.

Record Database : Type := {
  mlm_hierarchy : gmap Z HierarchyRow;
  cpa_validados : list CpaValidado;
  cpa_distributions : list DistributionData;
  mlm_statistics : gmap (Z * Date * Date) Statistics;
  mlm_operation_logs : list OperationLog
}.

Module MLMModel.

(** ** Column types *)

(** [INTEGER]: the values the column holds; any other is refused. *)
Definition int4 (z : Z) : bool := (-2147483648 <=? z) && (z <=? 2147483647).

(** The number of cents [DECIMAL(p, 2)] keeps of a value: the value
    rounded to two decimals, half away from zero. *)
Definition cents (q : Q) : Z :=
  let n := Qnum q * 100 in
  let d := Zpos (Qden q) in
  Z.sgn n * ((2 * Z.abs n + d) / (2 * d)).

(** [DECIMAL(p, 2)]: the rounded value, refused unless it is below
    [10^(p-2)] in absolute value. *)
Definition decimal (p : Z) (q : Q) : option Q :=
  let c := cents q in
  if Z.abs c <? 10 ^ p then Some (Qred (c # 100)) else None.

(** ** Upline *)

(** [SELECT ... FROM mlm_hierarchy WHERE affiliate_id = $1 AND active = true]. *)
Definition active_row (h : gmap Z HierarchyRow) (affiliateId : Z)
    : option HierarchyRow :=
  match h !! affiliateId with
  | Some r => if active r then Some r else None
  | None => None
  end.

(** The recursive term of [upline_tree]: from a row of the working table
    with parent [parent] at distance [upline_level], join the active row
    whose [affiliate_id] is that parent, while [upline_level < $2].  Each
    step adds at most one row, since [affiliate_id] is unique. *)
Fixpoint upline_tree (h : gmap Z HierarchyRow) (fuel : nat)
    (parent : option Z) (upline_level maxLevels : Z) : list UplineRow :=
  match fuel with
  | O => []
  | S fuel' =>
      if upline_level <? maxLevels then
        match parent with
        | Some p =>
            match active_row h p with
            | Some r =>
                {| upline_affiliate_id := p; upline_level := upline_level + 1 |}
                :: upline_tree h fuel' (parent_id r) (upline_level + 1) maxLevels
            | None => []
            end
        | None => []
        end
      else []
  end.

(** [getAffiliateUpline]: the rows of [upline_tree] at distance above 1,
    by distance.  The recursion adds a row only while the distance is
    below [maxLevels], so [maxLevels] steps exhaust it. *)
Definition getAffiliateUpline (h : gmap Z HierarchyRow)
    (affiliateId maxLevels : Z) : list UplineRow :=
  match active_row h affiliateId with
  | Some r => upline_tree h (Z.to_nat maxLevels) (parent_id r) 1 maxLevels
  | None => []
  end.

(** ** Downline *)

Definition tree_row (kr : Z * HierarchyRow) (depth : Z) : TreeRow :=
  {| tree_affiliate_id := kr.1;
     tree_parent_id := parent_id kr.2;
     tree_level := level kr.2;
     tree_path := path kr.2;
     depth := depth |}.

(** The recursive term of [affiliate_tree] for one row [at] of the working
    table: the active rows whose [parent_id] is [at.affiliate_id], while
    [at.depth < $2]. *)
Definition children (h : gmap Z HierarchyRow) (maxLevels : Z) (at_ : TreeRow)
    : list TreeRow :=
  if depth at_ <? maxLevels then
    (fun kr => tree_row kr (depth at_ + 1))
      <$> filter (fun kr => parent_id kr.2 = Some (tree_affiliate_id at_)
                            /\ active kr.2 = true)
                 (map_to_list h)
  else [].

(** [UNION ALL] of the working tables: each is the join of the one
    before with the table, until one is empty. *)
Fixpoint affiliate_tree (h : gmap Z HierarchyRow) (fuel : nat)
    (working : list TreeRow) (maxLevels : Z) : list TreeRow :=
  match working with
  | [] => []
  | _ =>
      working ++
      match fuel with
      | O => []
      | S fuel' => affiliate_tree h fuel' (working ≫= children h maxLevels) maxLevels
      end
  end.

(** [ORDER BY depth, level, affiliate_id]. *)
Definition tree_order (x y : TreeRow) : Prop :=
  depth x < depth y
  \/ (depth x = depth y
      /\ (tree_level x < tree_level y
          \/ (tree_level x = tree_level y
              /\ tree_affiliate_id x <= tree_affiliate_id y))).

Global Instance tree_order_dec x y : Decision (tree_order x y).
Proof. unfold tree_order. apply _. Defined.

(** [getAffiliateHierarchy]: the rows of [affiliate_tree] in that order.
    A working table holds rows of one depth, one more than the table
    before, and is empty past [maxLevels], so [maxLevels] joins exhaust
    the recursion. *)
Definition getAffiliateHierarchy (h : gmap Z HierarchyRow)
    (affiliateId maxLevels : Z) : list TreeRow :=
  merge_sort tree_order
    (affiliate_tree h (Z.to_nat maxLevels)
       (match active_row h affiliateId with
        | Some r => [tree_row (affiliateId, r) 1]
        | None => []
        end)
       maxLevels).

(** ** Upsert *)

(** [CONSTRAINT valid_level CHECK (level >= 1 AND level <= 10)]. *)
Definition valid_level (l : Z) : bool := (1 <=? l) && (l <=? 10).

(** Storing a row of [mlm_hierarchy]: the store refuses a level that
    breaks the CHECK. *)
Definition write_row (h : gmap Z HierarchyRow) (affiliateId : Z)
    (r : HierarchyRow) : Result (gmap Z HierarchyRow) :=
  if valid_level (level r) then Ok (<[affiliateId := r]> h)
  else Throw (DatabaseError "valid_level").

(** [UPDATE mlm_hierarchy SET ... WHERE affiliate_id = $k]: the row of
    [k], if there is one, becomes [set] of itself. *)
Definition update_row (h : gmap Z HierarchyRow) (affiliateId : Z)
    (set : HierarchyRow -> HierarchyRow) : Result (gmap Z HierarchyRow) :=
  match h !! affiliateId with
  | Some current => write_row h affiliateId (set current)
  | None => Ok h
  end.

(** "Calcular nivel e path": level 1 and path [[affiliateId]], unless
    [parentId] is truthy and names an active row. *)
Definition placement (h : gmap Z HierarchyRow) (affiliateId : Z)
    (parentId : option Z) : Z * list Z :=
  match parentId with
  | Some p =>
      if p =? 0 then (1, [affiliateId])
      else
        match active_row h p with
        | Some parent => (level parent + 1, path parent ++ [affiliateId])
        | None => (1, [affiliateId])
        end
  | None => (1, [affiliateId])
  end.

(** The rows [updateDescendants] selects:
    [WHERE $1 = ANY(path) AND affiliate_id != $1 AND active = true
     ORDER BY array_length(path, 1)]. *)
Definition is_descendant (affiliateId : Z) (kr : Z * HierarchyRow) : bool :=
  bool_decide (affiliateId ∈ path kr.2)
  && negb (kr.1 =? affiliateId) && active kr.2.

Definition shorter_path (x y : Z * HierarchyRow) : Prop :=
  (length (path x.2) <= length (path y.2))%nat.

Global Instance shorter_path_dec x y : Decision (shorter_path x y).
Proof. unfold shorter_path. apply _. Defined.

Definition select_descendants (h : gmap Z HierarchyRow) (affiliateId : Z)
    : list (Z * HierarchyRow) :=
  merge_sort shorter_path (filter (fun kr => is_descendant affiliateId kr = true)
                                  (map_to_list h)).

(** One iteration of the loop of [updateDescendants]; [descendant] is a
    row of the query's result. *)
Definition updateDescendant (h : gmap Z HierarchyRow)
    (descendant : Z * HierarchyRow) : Result (gmap Z HierarchyRow) :=
  match parent_id descendant.2 ≫= active_row h with
  | Some parent =>
      update_row h descendant.1 (fun current =>
        {| parent_id := parent_id current;
           level := level parent + 1;
           path := path parent ++ [descendant.1];
           active := active current |})
  | None => Ok h
  end.

Fixpoint updateDescendants_loop (h : gmap Z HierarchyRow)
    (rows : list (Z * HierarchyRow)) : Result (gmap Z HierarchyRow) :=
  match rows with
  | [] => Ok h
  | descendant :: rest =>
      h' ← updateDescendant h descendant;
      updateDescendants_loop h' rest
  end.

Definition updateDescendants (h : gmap Z HierarchyRow) (affiliateId : Z)
    : Result (gmap Z HierarchyRow) :=
  updateDescendants_loop h (select_descendants h affiliateId).

Definition updateAffiliateParent (h : gmap Z HierarchyRow)
    (affiliateId : Z) (newParentId : option Z) : Result (gmap Z HierarchyRow) :=
  let '(newLevel, newPath) := placement h affiliateId newParentId in
  h' ← update_row h affiliateId (fun current =>
         {| parent_id := newParentId; level := newLevel; path := newPath;
            active := active current |});
  updateDescendants h' affiliateId.

(** [upsertAffiliate] runs in one transaction: it either commits, giving
    the row it returns and the table after it, or throws after ROLLBACK,
    leaving the table as it was. *)
Definition upsertAffiliate (h : gmap Z HierarchyRow) (affiliateId : Z)
    (parentId : option Z) : Result (HierarchyRow * gmap Z HierarchyRow) :=
  match h !! affiliateId with
  | Some existing =>
      if bool_decide (parent_id existing = parentId) then Ok (existing, h)
      else
        h' ← updateAffiliateParent h affiliateId parentId;
        Ok (existing, h')
  | None =>
      let '(level, path) := placement h affiliateId parentId in
      let row := {| parent_id := parentId; level := level; path := path;
                    active := true |} in
      h' ← write_row h affiliateId row;
      Ok (row, h')
  end.

(** The table after a call, committed or rolled back. *)
Definition table_after (h : gmap Z HierarchyRow) (affiliateId : Z)
    (parentId : option Z) : gmap Z HierarchyRow :=
  match upsertAffiliate h affiliateId parentId with
  | Ok (_, h') => h'
  | Throw _ => h
  end.

(** The tables a sequence of upserts can produce, starting empty. *)
Inductive reachable : gmap Z HierarchyRow -> Prop :=
| reachable_empty : reachable ∅
| reachable_upsert h affiliateId parentId :
    reachable h -> reachable (table_after h affiliateId parentId).

(** ** Events, distributions, statistics and the audit log *)

(** [saveCpaValidado]: the row inserted is returned with the identifier
    the store generates for it. *)
Definition saveCpaValidado (db : Database) (user_id affiliate_id affiliate_level : Z)
    (cpa_amount : Q) (validation_rule_id : string) (validation_criteria : JVal)
    : CpaValidado * Database :=
  let row := {| cv_id := Z.of_nat (length (cpa_validados db));
                cv_user_id := user_id;
                cv_affiliate_id := affiliate_id;
                cv_affiliate_level := affiliate_level;
                cpa_amount := cpa_amount;
                validation_rule_id := validation_rule_id;
                validation_criteria := validation_criteria |} in
  (row, {| mlm_hierarchy := mlm_hierarchy db;
           cpa_validados := cpa_validados db ++ [row];
           cpa_distributions := cpa_distributions db;
           mlm_statistics := mlm_statistics db;
           mlm_operation_logs := mlm_operation_logs db |}).

(** [saveCpaDistribution]; [cpa_distributions.user_id] is declared
    [INTEGER NOT NULL]. *)
Definition saveCpaDistribution (db : Database) (distributionData : DistributionData)
    : Result (DistributionData * Database) :=
  match user_id distributionData with
  | None => Throw (DatabaseError "cpa_distributions.user_id not null")
  | Some _ =>
      Ok (distributionData,
          {| mlm_hierarchy := mlm_hierarchy db;
             cpa_validados := cpa_validados db;
             cpa_distributions := cpa_distributions db ++ [distributionData];
             mlm_statistics := mlm_statistics db;
             mlm_operation_logs := mlm_operation_logs db |})
  end.

(** A pair of columns [..._cpas INTEGER], [..._amount DECIMAL(p, 2)] as
    the store keeps it, if it accepts it. *)
Definition stored_tally (p : Z) (t : Tally) : option Tally :=
  if int4 (cpas t)
  then amount ← decimal p (amount_sum t);
       Some {| cpas := cpas t; amount_sum := amount |}
  else None.

(** The row the store keeps of the statistics it is sent:
    [total_amount] is [DECIMAL(12, 2)], the amounts per level
    [DECIMAL(10, 2)]. *)
Definition columns (stats : Statistics) : option Statistics :=
  total ← stored_tally 12 (total stats);
  level_1 ← stored_tally 10 (level_1 stats);
  level_2 ← stored_tally 10 (level_2 stats);
  level_3 ← stored_tally 10 (level_3 stats);
  level_4 ← stored_tally 10 (level_4 stats);
  level_5 ← stored_tally 10 (level_5 stats);
  Some {| total := total; level_1 := level_1; level_2 := level_2;
          level_3 := level_3; level_4 := level_4; level_5 := level_5 |}.

(** [updateAffiliateStatistics]:
    [INSERT ... ON CONFLICT (affiliate_id, period_start, period_end)
     DO UPDATE SET total_cpas = EXCLUDED.total_cpas, ...]: inserted or in
    conflict, the row ends holding the values sent, as the columns keep
    them; a value that a column refuses makes the statement fail. *)
Definition updateAffiliateStatistics (db : Database) (affiliateId : Z)
    (periodStart periodEnd : Date) (stats : Statistics) : Result Database :=
  match (if int4 affiliateId then columns stats else None) with
  | Some row =>
      Ok {| mlm_hierarchy := mlm_hierarchy db;
            cpa_validados := cpa_validados db;
            cpa_distributions := cpa_distributions db;
            mlm_statistics :=
              <[(affiliateId, periodStart, periodEnd) := row]> (mlm_statistics db);
            mlm_operation_logs := mlm_operation_logs db |}
  | None => Throw (DatabaseError "numeric_value_out_of_range")
  end.

(** [getAffiliateStatistics]. *)
Definition getAffiliateStatistics (db : Database) (affiliateId : Z)
    (periodStart periodEnd : Date) : option Statistics :=
  mlm_statistics db !! (affiliateId, periodStart, periodEnd).

(** [logOperation] never throws. *)
Definition logOperation (db : Database) (entry : OperationLog) : Database :=
  {| mlm_hierarchy := mlm_hierarchy db;
     cpa_validados := cpa_validados db;
     cpa_distributions := cpa_distributions db;
     mlm_statistics := mlm_statistics db;
     mlm_operation_logs := mlm_operation_logs db ++ [entry] |}.

End MLMModel.

(* ================================================================== *)
(** * Configuration: [ConfigClient] *)

(** A configuration value, by the key it is served under; [CNull] is
    [null].  Read under another key's name, a value has none of the
    properties that key's readers look for. *)
Inductive ConfigValue : Type :=
| CNull
| CLevelAmounts (table : gmap string Q)
| CMlmSettings (settings : MlmSettings)
| CRules (rules : JVal).

(** The outcome of a GET on the provider: the request rejects (no answer,
    a timeout, or an error status), or answers with a body
    [{success, data}]. *)
Inductive HttpResponse : Type :=
| HttpFailure (status : option Z)
| HttpOk (success : bool) (data : ConfigValue).

(** What an operation reads from outside the process. *)
Record Environment : Type := {
  http_get : string -> HttpResponse;
  now : Z;
  today : Date;
  defaultCacheTTL : Z
}.

Module ConfigClient.

Record State : Type := {
  cache : gmap string ConfigValue;
  cacheTTL : gmap string Z
}.

Definition is_null (v : ConfigValue) : bool :=
  match v with
  | CNull | CRules JNull => true
  | _ => false
  end.

Definition getFromCache (env : Environment) (st : State) (key : string)
    : ConfigValue * State :=
  match cache st !! key with
  | Some v =>
      match cacheTTL st !! key with
      | Some ttl =>
          if negb (ttl =? 0) && (now env <? ttl) then (v, st)
          else (CNull, {| cache := delete key (cache st);
                          cacheTTL := delete key (cacheTTL st) |})
      | None => (CNull, {| cache := delete key (cache st);
                           cacheTTL := delete key (cacheTTL st) |})
      end
  | None => (CNull, st)
  end.

Definition addToCache (env : Environment) (st : State) (key : string)
    (value : ConfigValue) : State :=
  {| cache := <[key := value]> (cache st);
     cacheTTL := <[key := now env + defaultCacheTTL env]> (cacheTTL st) |}.

Definition default_level_amounts : gmap string Q :=
  <["level_1" := 50 # 1]> (<["level_2" := 20 # 1]> (<["level_3" := 5 # 1]>
    (<["level_4" := 5 # 1]> (<["level_5" := 5 # 1]> ∅)))).

Definition default_validation_rules : JVal :=
  JObj [("groups", JArr []); ("group_operator", JStr "OR")].

Definition getCpaLevelAmounts (env : Environment) : ConfigValue :=
  match http_get env "/cpa/level-amounts" with
  | HttpOk true data => data
  | _ => CLevelAmounts default_level_amounts
  end.

Definition getCpaValidationRules (env : Environment) : ConfigValue :=
  match http_get env "/cpa/validation-rules" with
  | HttpOk true data => data
  | _ => CRules default_validation_rules
  end.

(** The defaults [getMlmSettings] passes to [getConfig]. *)
Definition default_mlm_settings : MlmSettings :=
  {| max_hierarchy_levels := Some 5;
     minimum_amount := Some (1 # 100);
     currency := Some "BRL" |}.

Definition getConfig (env : Environment) (st : State) (key : string)
    (defaultValue : ConfigValue) : ConfigValue * State :=
  let '(cached, st) := getFromCache env st key in
  if negb (is_null cached) then (cached, st)
  else if String.eqb key "cpa_level_amounts" then (getCpaLevelAmounts env, st)
  else if String.eqb key "cpa_validation_rules" then (getCpaValidationRules env, st)
  else
    match http_get env ("/config/" +:+ key +:+ "/value") with
    | HttpOk true value => (value, addToCache env st key value)
    | HttpOk false _ => (defaultValue, st)
    | HttpFailure _ => (defaultValue, st)
    end.

Definition getMlmSettings (env : Environment) (st : State) : ConfigValue * State :=
  getConfig env st "mlm_settings" (CMlmSettings default_mlm_settings).

(** [clearCache(key = null)]: a falsy key clears everything. *)
Definition clearCache (st : State) (key : option string) : State :=
  match key with
  | Some k =>
      if String.eqb k "" then {| cache := ∅; cacheTTL := ∅ |}
      else {| cache := delete k (cache st); cacheTTL := delete k (cacheTTL st) |}
  | None => {| cache := ∅; cacheTTL := ∅ |}
  end.

(** ** Reconnection of the notification socket *)

(** [scheduleReconnect]: whether a reconnection is scheduled, and
    [wsReconnectAttempts] after the call. *)
Definition scheduleReconnect (wsMaxReconnectAttempts wsReconnectAttempts : Z)
    : bool * Z :=
  if wsReconnectAttempts <? wsMaxReconnectAttempts
  then (true, wsReconnectAttempts + 1)
  else (false, wsReconnectAttempts).

(** What the socket reports: it opened, or it closed (also when the
    connection could not be made). *)
Inductive SocketEvent : Type :=
| SocketOpen
| SocketClose.

(** The handlers of [open] and [close] on [wsReconnectAttempts]. *)
Definition on_socket_event (wsMaxReconnectAttempts wsReconnectAttempts : Z)
    (event : SocketEvent) : bool * Z :=
  match event with
  | SocketOpen => (false, 0)
  | SocketClose => scheduleReconnect wsMaxReconnectAttempts wsReconnectAttempts
  end.

(** The reconnections scheduled over a sequence of events, and the
    counter after it. *)
Fixpoint reconnections (wsMaxReconnectAttempts wsReconnectAttempts : Z)
    (events : list SocketEvent) : nat * Z :=
  match events with
  | [] => (O, wsReconnectAttempts)
  | event :: rest =>
      let '(scheduled, attempts) :=
        on_socket_event wsMaxReconnectAttempts wsReconnectAttempts event in
      let '(n, final) := reconnections wsMaxReconnectAttempts attempts rest in
      ((if scheduled then S n else n), final)
  end.

End ConfigClient.

(* ================================================================== *)
(** * Orchestrator: [MLMService] *)

(** The state an operation of the service reads and writes. *)
Record World : Type := {
  configCache : gmap string ConfigValue;
  configClient : ConfigClient.State;
  database : Database
}.

(** A computation of the service: it may change the world and may throw;
    what it wrote before throwing stays written. *)
Definition Service (A : Type) : Type := World -> Result A * World.

Global Instance service_ret : MRet Service := fun A a w => (Ok a, w).
Global Instance service_bind : MBind Service := fun A B k m w =>
  match m w with
  | (Ok a, w') => k a w'
  | (Throw e, w') => (Throw e, w')
  end.

Definition throw {A} (e : JsError) : Service A := fun w => (Throw e, w).

Definition lift {A} (r : Result A) : Service A := fun w => (r, w).

(** [try { body } catch (error) { handler(error) }]. *)
Definition try_catch {A} (body : Service A) (handler : JsError -> Service A)
    : Service A :=
  fun w =>
    match body w with
    | (Ok a, w') => (Ok a, w')
    | (Throw e, w') => handler e w'
    end.

(** A statement on the store alone. *)
Definition on_database {A} (f : Database -> A * Database) : Service A :=
  fun w =>
    let '(a, db) := f (database w) in
    (Ok a, {| configCache := configCache w;
              configClient := configClient w;
              database := db |}).

Fixpoint mapM {A B} (f : A -> Service B) (xs : list A) : Service (list B) :=
  match xs with
  | [] => mret []
  | x :: xs' => y ← f x; ys ← mapM f xs'; mret (y :: ys)
  end.

(** What [processCpaForDistribution] returns. *)
Record Outcome : Type := {
  cpaValidado : CpaValidado;
  distributions : list (option DistributionData);
  totalDistributed : Q
}.

Module MLMService.
Section WithCoercion.

Variable coerced_ge : Q -> JVal -> bool.
Variable env : Environment.

(** ** Configuration cache *)

(** [getConfig(key, defaultValue = null)]. *)
Definition getConfig (key : string) : Service ConfigValue :=
  fun w =>
    match configCache w !! key with
    | Some value => (Ok value, w)
    | None =>
        let '(value, client) :=
          ConfigClient.getConfig env (configClient w) key CNull in
        (Ok value, {| configCache := <[key := value]> (configCache w);
                      configClient := client;
                      database := database w |})
    end.

(** The handlers [setupConfigSubscriptions] registers: a pushed value
    replaces the cached one. *)
Definition onConfigChanged (key : string) (newValue : ConfigValue) (w : World)
    : World :=
  {| configCache := <[key := newValue]> (configCache w);
     configClient := ConfigClient.addToCache env (configClient w) key newValue;
     database := database w |}.

(** Reading a property of the value held under [mlm_settings]. *)
Definition settings_property {A} (name : string) (field : MlmSettings -> option A)
    (mlmSettings : ConfigValue) : Result (option A) :=
  match mlmSettings with
  | CNull | CRules JNull =>
      Throw (TypeError ("Cannot read properties of null (reading '" +:+ name +:+ "')"))
  | CRules JUndef =>
      Throw (TypeError ("Cannot read properties of undefined (reading '" +:+ name +:+ "')"))
  | CMlmSettings s => Ok (field s)
  | CLevelAmounts _ | CRules _ => Ok None
  end.

Definition settings_view (mlmSettings : ConfigValue) : MlmSettings :=
  match mlmSettings with
  | CMlmSettings s => s
  | _ => {| max_hierarchy_levels := None; minimum_amount := None; currency := None |}
  end.

(** The value held under [cpa_validation_rules], as [validateCpa] reads it. *)
Definition rules_view (validationRules : ConfigValue) : JVal :=
  match validationRules with
  | CNull => JNull
  | CRules r => r
  | CLevelAmounts _ | CMlmSettings _ => JObj []
  end.

(** Whether the table holds a strictly positive amount for the level of
    an entry of the upline: the test [amount && amount > 0]. *)
Definition positive_amount (table : gmap string Q) (affiliate : UplineRow) : bool :=
  match table !! Calculator.levelKey (upline_level affiliate) with
  | Some a => negb (Qeq_bool a 0) && negb (Qle_bool a 0)
  | None => false
  end.

(** [calculateDistributions] on a table and the value held under
    [mlm_settings]: the settings are read for the first entry whose
    amount is positive, which throws when they are [null]. *)
Definition calculate_on (upline : list UplineRow) (table : gmap string Q)
    (mlmSettings : ConfigValue) : Result (list Distribution) :=
  match mlmSettings with
  | CNull | CRules JNull =>
      if existsb (positive_amount table) upline
      then Throw (TypeError
             "Cannot read properties of null (reading 'max_hierarchy_levels')")
      else Ok []
  | CRules JUndef =>
      if existsb (positive_amount table) upline
      then Throw (TypeError
             "Cannot read properties of undefined (reading 'max_hierarchy_levels')")
      else Ok []
  | _ => Ok (Calculator.calculateDistributions upline table (settings_view mlmSettings))
  end.

(** [calculateDistributions] on the values held in the cache: the first
    table lookup throws on [null]. *)
Definition calculate (upline : list UplineRow) (cpaAmounts mlmSettings : ConfigValue)
    : Result (list Distribution) :=
  match upline with
  | [] => Ok []
  | affiliate :: _ =>
      match cpaAmounts with
      | CNull | CRules JNull =>
          Throw (TypeError ("Cannot read properties of null (reading '"
                            +:+ Calculator.levelKey (upline_level affiliate) +:+ "')"))
      | CRules JUndef =>
          Throw (TypeError ("Cannot read properties of undefined (reading '"
                            +:+ Calculator.levelKey (upline_level affiliate) +:+ "')"))
      | CLevelAmounts table => calculate_on upline table mlmSettings
      | CMlmSettings _ | CRules _ => calculate_on upline ∅ mlmSettings
      end
  end.

(** ** Persisting one distribution: [executeCpaDistribution] *)

(** [distribution.amount < mlmSettings.minimum_amount]. *)
Definition below_minimum (a : Q) (minimum : option Q) : bool :=
  match minimum with
  | Some m => negb (Qle_bool m a)
  | None => false
  end.

Definition executeCpaDistribution (cpaValidadoId : Z) (distribution : Distribution)
    : Service (option DistributionData) :=
  mlmSettings ← getConfig "mlm_settings";
  minimum ← lift (settings_property "minimum_amount" minimum_amount mlmSettings);
  if below_minimum (dist_amount distribution) minimum then mret None
  else
    let transactionId := (cpaValidadoId, affiliate_id distribution, now env) in
    fun w =>
      match MLMModel.saveCpaDistribution (database w)
              {| cpa_validado_id := cpaValidadoId;
                 user_id := None;
                 dd_affiliate_id := affiliate_id distribution;
                 dd_affiliate_level := affiliate_level distribution;
                 original_amount := dist_amount distribution;
                 distributed_amount := dist_amount distribution;
                 transaction_id := transactionId |} with
      | Ok (distributionRecord, db) =>
          (Ok (Some distributionRecord),
           {| configCache := configCache w;
              configClient := configClient w;
              database := db |})
      | Throw e => (Throw e, w)
      end.

(** ** Statistics aggregator: [updateStatistics] *)

Definition no_tally : Tally := {| cpas := 0; amount_sum := 0 |}.

(** The object a participant's entry of [affiliateStats] starts from. *)
Definition no_statistics : Statistics :=
  {| total := no_tally; level_1 := no_tally; level_2 := no_tally;
     level_3 := no_tally; level_4 := no_tally; level_5 := no_tally |}.

Definition count (a : Q) (t : Tally) : Tally :=
  {| cpas := cpas t + 1; amount_sum := amount_sum t + a |}.

(** [stats[`level_${l}_cpas`] += 1; stats[`level_${l}_amount`] += a].
    For a level outside 1..5 the two properties written are not among
    those the store receives. *)
Definition count_level (l : Z) (a : Q) (s : Statistics) : Statistics :=
  match l with
  | 1 => {| total := total s; level_1 := count a (level_1 s); level_2 := level_2 s;
            level_3 := level_3 s; level_4 := level_4 s; level_5 := level_5 s |}
  | 2 => {| total := total s; level_1 := level_1 s; level_2 := count a (level_2 s);
            level_3 := level_3 s; level_4 := level_4 s; level_5 := level_5 s |}
  | 3 => {| total := total s; level_1 := level_1 s; level_2 := level_2 s;
            level_3 := count a (level_3 s); level_4 := level_4 s; level_5 := level_5 s |}
  | 4 => {| total := total s; level_1 := level_1 s; level_2 := level_2 s;
            level_3 := level_3 s; level_4 := count a (level_4 s); level_5 := level_5 s |}
  | 5 => {| total := total s; level_1 := level_1 s; level_2 := level_2 s;
            level_3 := level_3 s; level_4 := level_4 s; level_5 := count a (level_5 s) |}
  | _ => s
  end.

Definition count_total (a : Q) (s : Statistics) : Statistics :=
  {| total := count a (total s); level_1 := level_1 s; level_2 := level_2 s;
     level_3 := level_3 s; level_4 := level_4 s; level_5 := level_5 s |}.

(** The body of the grouping loop, on one entry. *)
Definition count_distribution (distribution : Distribution) (stats : Statistics)
    : Statistics :=
  count_level (affiliate_level distribution) (dist_amount distribution)
    (count_total (dist_amount distribution) stats).

(** [affiliateStats] is a [Map]: entries in insertion order, one per key. *)
Fixpoint map_has (m : list (Z * Statistics)) (k : Z) : bool :=
  match m with
  | [] => false
  | (k', _) :: rest => (k' =? k) || map_has rest k
  end.

(** Updating in place the object [affiliateStats.get(k)] returns. *)
Fixpoint map_update (m : list (Z * Statistics)) (k : Z)
    (f : Statistics -> Statistics) : list (Z * Statistics) :=
  match m with
  | [] => []
  | (k', s) :: rest =>
      if k' =? k then (k', f s) :: rest else (k', s) :: map_update rest k f
  end.

Definition group_distribution (affiliateStats : list (Z * Statistics))
    (distribution : Distribution) : list (Z * Statistics) :=
  let affiliateId := affiliate_id distribution in
  let affiliateStats :=
    if map_has affiliateStats affiliateId then affiliateStats
    else affiliateStats ++ [(affiliateId, no_statistics)] in
  map_update affiliateStats affiliateId (count_distribution distribution).

Definition group_by_affiliate (distributions : list Distribution)
    : list (Z * Statistics) :=
  foldl group_distribution [] distributions.

Definition leap_year (y : Z) : bool :=
  ((y mod 4 =? 0) && negb (y mod 100 =? 0)) || (y mod 400 =? 0).

(** The days of month [m] (0 for January) of year [y]. *)
Definition days_in_month (y m : Z) : Z :=
  match m with
  | 1 => if leap_year y then 29 else 28
  | 3 | 5 | 8 | 10 => 30
  | _ => 31
  end.

(** [new Date(y, m, 1)] and [new Date(y, m + 1, 0)], as calendar dates:
    the first and the last day of the month.  The constructor reads a
    year from 0 to 99 as 1900 to 1999 and carries months beyond December
    into the year. *)
Definition period_of (today : Date) : Date * Date :=
  let '(y, m, _) := today in
  let year := (if (0 <=? y) && (y <=? 99) then 1900 + y else y) + m / 12 in
  let month := m mod 12 in
  ((year, month, 1), (year, month, days_in_month year month)).

(** The loop over [affiliateStats]: the first write that fails ends it,
    the rows written before it staying written. *)
Fixpoint write_each (periodStart periodEnd : Date) (db : Database)
    (affiliateStats : list (Z * Statistics)) : Database :=
  match affiliateStats with
  | [] => db
  | (affiliateId, stats) :: rest =>
      match MLMModel.updateAffiliateStatistics db affiliateId periodStart periodEnd
              stats with
      | Ok db' => write_each periodStart periodEnd db' rest
      | Throw _ => db
      end
  end.

(** [updateStatistics] catches what a write throws and returns. *)
Definition updateStatistics (distributions : list Distribution) : Service unit :=
  let '(periodStart, periodEnd) := period_of (today env) in
  let affiliateStats := group_by_affiliate distributions in
  on_database (fun db =>
    (tt, write_each periodStart periodEnd db affiliateStats)).

(** ** [processCpaForDistribution] *)

(** [distributionResults.reduce((sum, d) => sum + d.distributed_amount, 0)]. *)
Fixpoint reduce_total (sum : Q) (distributionResults : list (option DistributionData))
    : Result Q :=
  match distributionResults with
  | [] => Ok sum
  | Some d :: rest => reduce_total (sum + distributed_amount d) rest
  | None :: _ =>
      Throw (TypeError "Cannot read properties of null (reading 'distributed_amount')")
  end.

Definition error_message_of (e : JsError) : string :=
  match e with
  | TypeError m | Error m | DatabaseError m => m
  end.

Definition log (entity_id status : string) (error_message : option string)
    : Service unit :=
  on_database (fun db =>
    (tt, MLMModel.logOperation db
           {| operation_type := "CPA_DISTRIBUTION";
              entity_type := "CPA";
              entity_id := entity_id;
              status := status;
              error_message := error_message |})).

Definition processCpaForDistribution (userId affiliateId : Z) (cpaData : CpaData)
    : Service Outcome :=
  try_catch
    (cpaAmounts ← getConfig "cpa_level_amounts";
     mlmSettings ← getConfig "mlm_settings";
     validationRules ← getConfig "cpa_validation_rules";
     isValid ← lift (Validator.validateCpa coerced_ge userId (Some cpaData)
                       (rules_view validationRules));
     if negb isValid
     then throw (Error "CPA não atende aos critérios de validação")
     else
       maxLevels ← lift (settings_property "max_hierarchy_levels"
                           max_hierarchy_levels mlmSettings);
       upline ← (fun w =>
                   (Ok (MLMModel.getAffiliateUpline (mlm_hierarchy (database w))
                          affiliateId (default 5 maxLevels)), w));
       distributions ← lift (calculate upline cpaAmounts mlmSettings);
       cpaValidado ← on_database (fun db =>
         MLMModel.saveCpaValidado db userId affiliateId 1 (amount cpaData)
           (match ruleId cpaData with
            | Some r => if String.eqb r "" then "default" else r
            | None => "default"
            end)
           (match criteria cpaData with
            | Some c => if js_truthy c then c else JObj []
            | None => JObj []
            end));
       distributionResults ← mapM (executeCpaDistribution (cv_id cpaValidado))
                               distributions;
       _ ← updateStatistics distributions;
       _ ← log (pretty (cv_id cpaValidado)) "SUCCESS" None;
       total ← lift (reduce_total 0 distributionResults);
       mret {| cpaValidado := cpaValidado;
               distributions := distributionResults;
               totalDistributed := total |})
    (fun error =>
       _ ← log (pretty userId +:+ "_" +:+ pretty affiliateId) "ERROR"
             (Some (error_message_of error));
       throw error).

(** ** Reading the hierarchy and the statistics *)

(** [maxLevels || mlmSettings.max_hierarchy_levels]: the settings are
    read only when [maxLevels] is falsy (absent, or 0); [None] is the
    [undefined] of settings that lack the property. *)
Definition levels (maxLevels : option Z) (mlmSettings : ConfigValue)
    : Result (option Z) :=
  match maxLevels with
  | Some m =>
      if m =? 0
      then settings_property "max_hierarchy_levels" max_hierarchy_levels mlmSettings
      else Ok (Some m)
  | None => settings_property "max_hierarchy_levels" max_hierarchy_levels mlmSettings
  end.

(** [getAffiliateUpline(affiliateId, maxLevels = null)]; the query's own
    default of 5 stands in for [undefined]. *)
Definition getAffiliateUpline (affiliateId : Z) (maxLevels : option Z)
    : Service (list UplineRow) :=
  mlmSettings ← getConfig "mlm_settings";
  configured ← lift (levels maxLevels mlmSettings);
  ((fun w =>
      (Ok (MLMModel.getAffiliateUpline (mlm_hierarchy (database w)) affiliateId
             (default 5 configured)), w)) : Service (list UplineRow)).

(** [getAffiliateHierarchy(affiliateId, maxLevels = null)]. *)
Definition getAffiliateHierarchy (affiliateId : Z) (maxLevels : option Z)
    : Service (list TreeRow) :=
  mlmSettings ← getConfig "mlm_settings";
  configured ← lift (levels maxLevels mlmSettings);
  ((fun w =>
      (Ok (MLMModel.getAffiliateHierarchy (mlm_hierarchy (database w)) affiliateId
             (default 5 configured)), w)) : Service (list TreeRow)).

(** [getAffiliateStatistics(affiliateId, periodStart = null, periodEnd = null)]:
    unless both ends are given, the period is the current month. *)
Definition getAffiliateStatistics (affiliateId : Z) (periodStart periodEnd : option Date)
    : Service (option Statistics) :=
  let '(periodStart, periodEnd) :=
    match periodStart, periodEnd with
    | Some periodStart, Some periodEnd => (periodStart, periodEnd)
    | _, _ => period_of (today env)
    end in
  fun w =>
    (Ok (MLMModel.getAffiliateStatistics (database w) affiliateId periodStart periodEnd),
     w).

End WithCoercion.
End MLMService.

(* ================================================================== *)
(** * Scheduled processing: [CpaProcessingJob] *)

(** A row of the operation's [users] table, as [processSingleCpa] reads
    it. *)
Record PendingCpa : Type := {
  pc_user_id : Z;
  pc_affiliate_id : Z;
  deposit_amount : option Q;
  bets_count : option Q;
  total_bet_amount : option Q;
  days_active : option Q
}.

Module CpaProcessingJob.
Section WithCoercion.

Variable coerced_ge : Q -> JVal -> bool.
Variable env : Environment.

(** [new Date().toISOString()] at the time of the run. *)
Variable processed_at : string.

(** [systemSettings.batch_size || 100]: the read throws on [null]; the
    number itself goes to a query that is not written yet and is not
    kept. *)
Definition batch_size (systemSettings : ConfigValue) : Result unit :=
  match systemSettings with
  | CNull | CRules JNull =>
      Throw (TypeError "Cannot read properties of null (reading 'batch_size')")
  | CRules JUndef =>
      Throw (TypeError "Cannot read properties of undefined (reading 'batch_size')")
  | _ => Ok tt
  end.

(** [fetchPendingCpasFromOperationDB]: the query on the operation's
    database is left as a comment; the method returns no row. *)
Definition fetchPendingCpasFromOperationDB : list PendingCpa := [].

(** [processSingleCpa]; [markCpaAsProcessed] only logs. *)
Definition processSingleCpa (cpa : PendingCpa) : Service Outcome :=
  MLMService.processCpaForDistribution coerced_ge env
    (pc_user_id cpa) (pc_affiliate_id cpa)
    {| amount := 50 # 1;
       depositAmount := deposit_amount cpa;
       betsCount := bets_count cpa;
       totalBetAmount := total_bet_amount cpa;
       daysActive := days_active cpa;
       ruleId := Some "auto_processing";
       criteria := Some (JObj [("source", JStr "automatic_job");
                               ("processed_at", JStr processed_at)]) |}.

(** The loop of [processPendingCpas] over the rows fetched, counting in
    [processed] the rows whose processing returned and in [errors] those
    whose processing threw. *)
Fixpoint process_each (pendingCpas : list PendingCpa) (processed errors : Z)
    (w : World) : (Z * Z) * World :=
  match pendingCpas with
  | [] => ((processed, errors), w)
  | cpa :: rest =>
      match processSingleCpa cpa w with
      | (Ok _, w') => process_each rest (processed + 1) errors w'
      | (Throw _, w') => process_each rest processed (errors + 1) w'
      end
  end.

(** [processPendingCpas]: [isRunning] after the run, the tallies of the
    loop if the run reaches it, and the world after the run.  The method
    catches whatever is thrown. *)
Definition processPendingCpas (isRunning : bool) (w : World)
    : bool * option (Z * Z) * World :=
  match (systemSettings ← MLMService.getConfig env "system_settings";
         lift (batch_size systemSettings)) w with
  | (Ok _, w') =>
      let pendingCpas := fetchPendingCpasFromOperationDB in
      if (length pendingCpas =? 0)%nat then (false, None, w')
      else
        let '(tallies, w'') := process_each pendingCpas 0 0 w' in
        (false, Some tallies, w'')
  | (Throw _, w') => (false, None, w')
  end.

(** [runManual]. *)
Definition runManual (isRunning : bool) (w : World) : Result unit * bool * World :=
  if isRunning then (Throw (Error "Job já está executando"), isRunning, w)
  else
    let '(isRunning, _, w') := processPendingCpas isRunning w in
    (Ok tt, isRunning, w').

End WithCoercion.
End CpaProcessingJob.

(* ================================================================== *)
(** * Authentication middleware *)

Module Auth.

(** The two headers the middleware reads; [None] is a header that is not
    sent. *)
Record Request : Type := {
  x_api_key : option string;
  authorization : option string
}.

Record User : Type := {
  username : string;
  role : string
}.

Definition api_user : User := {| username := "api_user"; role := "admin" |}.

(** [req.headers['x-api-key'] || req.headers['authorization']]. *)
Definition apiKey (req : Request) : option string :=
  match x_api_key req with
  | Some k => if String.eqb k "" then authorization req else Some k
  | None => authorization req
  end.

(** [`Bearer ${validApiKey}`]; [validApiKey] is [process.env.MLM_API_KEY],
    [undefined] when the variable is not set. *)
Definition bearer (validApiKey : option string) : string :=
  "Bearer " +:+ default "undefined" validApiKey.

(** [apiKey === validApiKey || apiKey === `Bearer ${validApiKey}`]. *)
Definition matches (validApiKey : option string) (apiKey : string) : bool :=
  bool_decide (Some apiKey = validApiKey) || String.eqb apiKey (bearer validApiKey).

(** What a middleware does with a request: it answers 401 with a message,
    or calls [next] having set [req.authenticated] (if it sets it) and
    [req.user] (if it sets it). *)
Inductive Passage : Type :=
| Unauthorized (message : string)
| Next (authenticated : option bool) (user : option User).

Definition optionalAuth (validApiKey : option string) (req : Request) : Passage :=
  match apiKey req with
  | None => Next (Some false) None
  | Some k =>
      if String.eqb k "" then Next (Some false) None
      else if matches validApiKey k then Next (Some true) (Some api_user)
      else Next (Some false) None
  end.

Definition requireAuth (validApiKey : option string) (req : Request) : Passage :=
  match apiKey req with
  | None => Unauthorized "API Key obrigatória"
  | Some k =>
      if String.eqb k "" then Unauthorized "API Key obrigatória"
      else if matches validApiKey k then Next None (Some api_user)
      else Unauthorized "API Key inválida"
  end.

End Auth.

(* ================================================================== *)
(** * Notions the specification uses *)

(** An empty or absent rule set: [null] or [undefined], an object without
    a [groups] field, or one whose [groups] holds no group. *)
Inductive empty_rule_set : JVal -> Prop :=
| rule_set_null : empty_rule_set JNull
| rule_set_undefined : empty_rule_set JUndef
| rule_set_without_groups fields :
    own_property fields "groups" = JUndef -> empty_rule_set (JObj fields)
| rule_set_null_groups fields :
    own_property fields "groups" = JNull -> empty_rule_set (JObj fields)
| rule_set_zero_groups fields :
    own_property fields "groups" = JArr [] -> empty_rule_set (JObj fields).

(** A criterion that is not enabled: its [enabled] flag reads falsy. *)
Definition disabled (criterion : JVal) : bool :=
  match js_get criterion "enabled" with
  | Ok enabled => negb (js_truthy enabled)
  | Throw _ => false
  end.

(** A group with the given operator and list of criteria. *)
Definition is_group (operator : string) (criteria : list JVal) (group : JVal) : Prop :=
  js_get group "operator" = Ok (JStr operator)
  /\ js_get group "criteria" = Ok (JArr criteria).

(** A group whose [criteria] cannot be iterated: the field is missing, or
    holds something that is neither an array nor a string. *)
Definition criteria_not_iterable (group : JVal) : Prop :=
  forall items, js_get group "criteria" ≫= js_iter <> Ok items.

(** An upline entry earns [a]: the payout table holds the strictly
    positive amount [a] for the entry's level, and that level is at most
    the configured maximum. *)
Definition earns (cpaAmounts : gmap string Q) (mlmSettings : MlmSettings)
    (affiliate : UplineRow) (a : Q) : Prop :=
  cpaAmounts !! Calculator.levelKey (upline_level affiliate) = Some a
  /\ (0 < a)%Q
  /\ exists m, max_hierarchy_levels mlmSettings = Some m /\ upline_level affiliate <= m.

(** The distributions an upline gives rise to: one per entry that earns,
    for the amount it earns, and none for the other entries. *)
Inductive distributes (cpaAmounts : gmap string Q) (mlmSettings : MlmSettings)
    : list UplineRow -> list Distribution -> Prop :=
| distributes_nil : distributes cpaAmounts mlmSettings [] []
| distributes_pay affiliate a rest ds :
    earns cpaAmounts mlmSettings affiliate a ->
    distributes cpaAmounts mlmSettings rest ds ->
    distributes cpaAmounts mlmSettings (affiliate :: rest)
      ({| affiliate_id := upline_affiliate_id affiliate;
          affiliate_level := upline_level affiliate;
          dist_amount := a;
          dist_currency := Calculator.currency_or_default mlmSettings |} :: ds)
| distributes_skip affiliate rest ds :
    (forall a, ~ earns cpaAmounts mlmSettings affiliate a) ->
    distributes cpaAmounts mlmSettings rest ds ->
    distributes cpaAmounts mlmSettings (affiliate :: rest) ds.

(** [distributions.reduce((sum, d) => sum + d.amount, 0)], the total the
    simulation endpoint reports. *)
Definition totalDistribution (ds : list Distribution) : Q :=
  foldl (fun sum d => (sum + dist_amount d)%Q) 0%Q ds.

(** The participant [k] parent links above [a]. *)
Definition parent_of (h : gmap Z HierarchyRow) (a : Z) : option Z :=
  h !! a ≫= parent_id.

Fixpoint ancestor (h : gmap Z HierarchyRow) (k : nat) (a : Z) : option Z :=
  match k with
  | O => Some a
  | S k' => parent_of h a ≫= ancestor h k'
  end.

Definition is_active (h : gmap Z HierarchyRow) (a : Z) : bool :=
  bool_decide (is_Some (MLMModel.active_row h a)).

(** "Resolution continues through an inactive node": an active ancestor
    within reach that lies above an inactive one is part of the upline. *)
Definition continues_through_inactive (h : gmap Z HierarchyRow)
    (a maxLevels : Z) : Prop :=
  forall (i j : nat) (q r : Z),
    (0 < i < j)%nat -> Z.of_nat j < maxLevels ->
    ancestor h i a = Some q -> is_active h q = false ->
    ancestor h j a = Some r -> is_active h r = true ->
    r ∈ upline_affiliate_id <$> MLMModel.getAffiliateUpline h a maxLevels.

(** The part of a batch that goes to participant [a], and the part of a
    list at level [l]. *)
Definition batch_of (a : Z) (ds : list Distribution) : list Distribution :=
  filter (fun d => affiliate_id d = a) ds.

Definition at_level (l : Z) (ds : list Distribution) : list Distribution :=
  filter (fun d => affiliate_level d = l) ds.

(** What a list of distributions counts for: how many, and their sum. *)
Definition tally_of (ds : list Distribution) : Tally :=
  {| cpas := Z.of_nat (length ds); amount_sum := totalDistribution ds |}.

(** The values of a batch for one participant: its total and its break-out
    by level 1..5. *)
Definition statistics_of (ds : list Distribution) : Statistics :=
  {| total := tally_of ds;
     level_1 := tally_of (at_level 1 ds);
     level_2 := tally_of (at_level 2 ds);
     level_3 := tally_of (at_level 3 ds);
     level_4 := tally_of (at_level 4 ds);
     level_5 := tally_of (at_level 5 ds) |}.

(** [merged] is [stored] plus [delta]. *)
Definition tally_sum (stored delta merged : Tally) : Prop :=
  cpas merged = cpas stored + cpas delta
  /\ (amount_sum merged == amount_sum stored + amount_sum delta)%Q.

Definition statistics_sum (stored delta merged : Statistics) : Prop :=
  tally_sum (total stored) (total delta) (total merged)
  /\ tally_sum (level_1 stored) (level_1 delta) (level_1 merged)
  /\ tally_sum (level_2 stored) (level_2 delta) (level_2 merged)
  /\ tally_sum (level_3 stored) (level_3 delta) (level_3 merged)
  /\ tally_sum (level_4 stored) (level_4 delta) (level_4 merged)
  /\ tally_sum (level_5 stored) (level_5 delta) (level_5 merged).

(** The row of a participant for the period of [env]'s clock. *)
Definition stored_statistics (env : Environment) (w : World) (a : Z)
    : option Statistics :=
  let '(periodStart, periodEnd) := MLMService.period_of (today env) in
  mlm_statistics (database w) !! (a, periodStart, periodEnd).

(** "The aggregator merges by increment": every row the batch affects
    ends as what was stored plus the batch's delta. *)
Definition merges_by_increment (env : Environment)
    (distributions : list Distribution) (w : World) : Prop :=
  forall a stored,
    batch_of a distributions <> [] ->
    stored_statistics env w a = Some stored ->
    exists merged,
      stored_statistics env (MLMService.updateStatistics env distributions w).2 a
        = Some merged
      /\ statistics_sum stored (statistics_of (batch_of a distributions)) merged.



(** [affiliateStats.get(k)]. *)
Fixpoint map_get (m : list (Z * Statistics)) (k : Z) : option Statistics :=
  match m with
  | [] => None
  | (k', s) :: rest => if k' =? k then Some s else map_get rest k
  end.

(** A configuration key that is in neither cache and whose fetch from the
    provider does not succeed. *)
Definition unavailable (env : Environment) (key : string) (w : World) : Prop :=
  configCache w !! key = None
  /\ ConfigClient.cache (configClient w) !! key = None
  /\ forall value, http_get env ("/config/" +:+ key +:+ "/value") <> HttpOk true value.

(** The shape of a row: its path is as long as its level and ends in the
    participant itself. *)
Definition row_shape (a : Z) (r : HierarchyRow) : Prop :=
  Z.of_nat (length (path r)) = level r /\ last (path r) = Some a.

(** "path[0] is a root": the participant the path starts from has no
    parent. *)
Definition rooted (h : gmap Z HierarchyRow) (r : HierarchyRow) : Prop :=
  exists root row, head (path r) = Some root /\ h !! root = Some row
                   /\ parent_id row = None.

(** A re-parenting that is rejected: the call throws and the table is as
    before. *)
Definition rejected (h : gmap Z HierarchyRow) (a : Z) (parentId : option Z) : Prop :=
  (exists e, MLMModel.upsertAffiliate h a parentId = Throw e)
  /\ MLMModel.table_after h a parentId = h.

(** Every row has the shape of its key and is active. *)
Definition well_shaped (h : gmap Z HierarchyRow) : Prop :=
  forall a r, h !! a = Some r -> row_shape a r /\ active r = true.

(** The path of a row extends the path of its parent; a row without a
    parent has the path of a root. *)
Definition linked (h : gmap Z HierarchyRow) (a : Z) (r : HierarchyRow) : Prop :=
  match parent_id r with
  | None => path r = [a]
  | Some p => exists parent, h !! p = Some parent /\ path r = path parent ++ [a]
  end.

(** A table in which the parent links and the paths agree. *)
Definition forest (h : gmap Z HierarchyRow) : Prop :=
  well_shaped h /\ forall a r, h !! a = Some r -> linked h a r.

(** A parent that keeps the hierarchy a forest: none, or an existing
    participant (not 0, which reads as no parent) that is neither the
    participant moved nor below it. *)
Definition forest_parent (h : gmap Z HierarchyRow) (a : Z) (parentId : option Z)
    : Prop :=
  match parentId with
  | None => True
  | Some p => p <> 0 /\ exists parent, h !! p = Some parent /\ a ∉ path parent
  end.

(** The tables a sequence of such upserts can produce, starting empty. *)
Inductive reachable_as_forest : gmap Z HierarchyRow -> Prop :=
| forest_empty : reachable_as_forest ∅
| forest_upsert h a parentId :
    reachable_as_forest h -> forest_parent h a parentId ->
    reachable_as_forest (MLMModel.table_after h a parentId).

(** The state of the cascade of [updateDescendants]: [g] is the table so
    far and [todo] the rows of the query still to be rewritten.  Rows
    outside [todo] already agree with their parents, which are outside
    [todo] too; a row of [todo] is as the query read it, and its parent,
    if still in [todo], has a shorter path. *)
Record cascade (g : gmap Z HierarchyRow) (todo : list (Z * HierarchyRow)) : Prop := {
  cascade_shape : well_shaped g;
  cascade_snapshot : forall k r, (k, r) ∈ todo -> g !! k = Some r;
  cascade_NoDup : NoDup todo.*1;
  cascade_sorted : StronglySorted MLMModel.shorter_path todo;
  cascade_done : forall k r, g !! k = Some r -> k ∉ todo.*1 ->
    linked g k r /\ forall p, parent_id r = Some p -> p ∉ todo.*1;
  cascade_todo : forall k r, (k, r) ∈ todo ->
    exists p parent, parent_id r = Some p /\ g !! p = Some parent
      /\ forall r', (p, r') ∈ todo -> (length (path r') < length (path r))%nat
}.

(** The state of the cascade after [a] was put under one of its
    descendants in the table [h], going [shift] levels down: a row of
    [todo] is at or below [a] and as [h] had it; every other row at or
    below [a] is [shift] levels further down than [h] had it. *)
Record moved_down (h : gmap Z HierarchyRow) (a shift : Z)
    (g : gmap Z HierarchyRow) (todo : list (Z * HierarchyRow)) : Prop := {
  moved_todo : forall k r, (k, r) ∈ todo ->
    h !! k = Some r /\ g !! k = Some r /\ a ∈ path r /\ k <> a;
  moved_NoDup : NoDup todo.*1;
  moved_sorted : StronglySorted MLMModel.shorter_path todo;
  moved_done : forall k r, h !! k = Some r -> a ∈ path r -> k ∉ todo.*1 ->
    exists r', g !! k = Some r' /\ level r' = level r + shift /\ active r' = true
}.

(** The levels a re-parenting of [a] that takes it [shift] levels down
    writes, in a table whose paths follow the parent links, are all
    within the range the store accepts. *)
Definition levels_in_range (h : gmap Z HierarchyRow) (a shift : Z) : Prop :=
  forall k r, h !! k = Some r -> a ∈ path r -> 1 <= level r + shift <= 10.

(** "Every reachable row has a path as long as its level, ending in the
    participant and starting from a root." *)
Definition paths_start_at_roots : Prop :=
  forall h, MLMModel.reachable h ->
  forall a r, h !! a = Some r -> row_shape a r /\ rooted h r.

(** What a write of the cascade may change of a table: the level and the
    path of rows that exist. *)
Definition same_links (h h' : gmap Z HierarchyRow) : Prop :=
  forall k,
    match h !! k, h' !! k with
    | Some r, Some r' => parent_id r' = parent_id r /\ active r' = active r
    | None, None => True
    | _, _ => False
    end.

(** Every stored level satisfies the CHECK of the table. *)
Definition checked (h : gmap Z HierarchyRow) : Prop :=
  forall a r, h !! a = Some r -> MLMModel.valid_level (level r) = true.


(** The participant [n] parent links above [k], provided [k], that
    participant and all between them are active. *)
Fixpoint climb (h : gmap Z HierarchyRow) (n : nat) (k : Z) : option Z :=
  match n with
  | O => if is_active h k then Some k else None
  | S n' => r ← MLMModel.active_row h k; p ← parent_id r; climb h n' p
  end.

(** [row] is [n] joins below the row [start] of the downline query. *)
Fixpoint joined (h : gmap Z HierarchyRow) (maxLevels : Z) (n : nat)
    (start row : TreeRow) : Prop :=
  match n with
  | O => row = start
  | S n' => exists mid, joined h maxLevels n' start mid
                        /\ row ∈ MLMModel.children h maxLevels mid
  end.

(** What an operation of the service may do to the store: the hierarchy
    and the distributions stay as they are, the events and the audit log
    only grow. *)
Definition grows (w w' : World) : Prop :=
  mlm_hierarchy (database w') = mlm_hierarchy (database w)
  /\ cpa_distributions (database w') = cpa_distributions (database w)
  /\ cpa_validados (database w) `prefix_of` cpa_validados (database w')
  /\ mlm_operation_logs (database w) `prefix_of` mlm_operation_logs (database w').

(** A computation that relates every world to the one it leaves. *)
Definition keeps (R : relation World) {A} (m : Service A) : Prop :=
  forall w, R w (m w).2.

(** The entry [processCpaForDistribution] logs for an event it stored. *)
Definition success_entry (event : CpaValidado) : OperationLog :=
  {| operation_type := "CPA_DISTRIBUTION";
     entity_type := "CPA";
     entity_id := pretty (cv_id event);
     status := "SUCCESS";
     error_message := None |}.

(** The keys [setupConfigSubscriptions] registers a handler for. *)
Definition subscribed (key : string) : Prop :=
  key = "cpa_level_amounts" \/ key = "mlm_settings" \/ key = "cpa_validation_rules".

(** A key served by the generic endpoint of the provider. *)
Definition generic (key : string) : Prop :=
  key <> "cpa_level_amounts" /\ key <> "cpa_validation_rules".

(** The instant an entry cached under the clock of [env] expires. *)
Definition expiry (env : Environment) : Z := now env + defaultCacheTTL env.

(** ** Rule sets in the documented format *)

Inductive CriterionType : Type :=
| Deposit
| Bets
| BetAmount
| DaysActive.

Record Criterion : Type := {
  criterion_type : CriterionType;
  criterion_value : Q;
  criterion_enabled : bool
}.

Record Group : Type := {
  group_and : bool;
  group_criteria : list Criterion
}.

Record RuleSet : Type := {
  rules_and : bool;
  rules_groups : list Group
}.

Definition type_name (t : CriterionType) : string :=
  match t with
  | Deposit => "deposit"
  | Bets => "bets"
  | BetAmount => "bet_amount"
  | DaysActive => "days_active"
  end.

Definition operator_name (and : bool) : string := if and then "AND" else "OR".

(** The JSON the provider serves for such a rule set. *)
Definition criterion_json (c : Criterion) : JVal :=
  JObj [("type", JStr (type_name (criterion_type c)));
        ("value", JNum (criterion_value c));
        ("enabled", JBool (criterion_enabled c))].

Definition group_json (g : Group) : JVal :=
  JObj [("operator", JStr (operator_name (group_and g)));
        ("criteria", JArr (criterion_json <$> group_criteria g))].

Definition rules_json (r : RuleSet) : JVal :=
  JObj [("groups", JArr (group_json <$> rules_groups r));
        ("group_operator", JStr (operator_name (rules_and r)))].

(** The attribute of the event a criterion looks at. *)
Definition measured (t : CriterionType) (d : CpaData) : option Q :=
  match t with
  | Deposit => depositAmount d
  | Bets => betsCount d
  | BetAmount => totalBetAmount d
  | DaysActive => daysActive d
  end.

(** The event carries the attribute and it reaches the threshold. *)
Definition meets (d : CpaData) (c : Criterion) : bool :=
  match measured (criterion_type c) d with
  | Some x => Qle_bool (criterion_value c) x
  | None => false
  end.

Definition combine (and : bool) (results : list bool) : bool :=
  if and then forallb (fun r => r) results else existsb (fun r => r) results.

Definition group_passes (d : CpaData) (g : Group) : bool :=
  combine (group_and g)
    (meets d <$> filter (fun c => criterion_enabled c = true) (group_criteria g)).

Definition approves (d : CpaData) (r : RuleSet) : bool :=
  match rules_groups r with
  | [] => true
  | groups => combine (rules_and r) (group_passes d <$> groups)
  end.

(** Every attribute [d] carries, [d'] carries with a value at least as
    high. *)
Definition at_least (d d' : CpaData) : Prop :=
  forall t x, measured t d = Some x ->
              exists x', measured t d' = Some x' /\ (x <= x')%Q.

(** The distributions at a level that has no column of its own in
    [mlm_statistics]. *)
Definition beyond_columns (ds : list Distribution) : list Distribution :=
  filter (fun d => ~ 1 <= affiliate_level d <= 5) ds.

(* ================================================================== *)
(** * Sample data *)

(** A provider that cannot be reached, on 15 January 2025. *)
Definition provider_down : Environment :=
  {| http_get := fun _ => HttpFailure None;
     now := 1736900000000;
     today := (2025, 0, 15);
     defaultCacheTTL := 300000 |}.

Definition empty_database : Database :=
  {| mlm_hierarchy := ∅;
     cpa_validados := [];
     cpa_distributions := [];
     mlm_statistics := ∅;
     mlm_operation_logs := [] |}.

(** A process that has fetched no configuration yet. *)
Definition cold_start (db : Database) : World :=
  {| configCache := ∅;
     configClient := {| ConfigClient.cache := ∅; ConfigClient.cacheTTL := ∅ |};
     database := db |}.

(** The distributions of an event that pays participant 456 the level-2
    amount of 20. *)
Definition one_more_payout : list Distribution :=
  [ {| affiliate_id := 456; affiliate_level := 2;
       dist_amount := 20 # 1; dist_currency := "BRL" |} ].

(** The row such an event leaves for participant 456. *)
Definition one_payout : Statistics :=
  {| total := {| cpas := 1; amount_sum := 20 # 1 |};
     level_1 := MLMService.no_tally;
     level_2 := {| cpas := 1; amount_sum := 20 # 1 |};
     level_3 := MLMService.no_tally;
     level_4 := MLMService.no_tally;
     level_5 := MLMService.no_tally |}.

(** The store after one such event in January 2025. *)
Definition january_statistics : Database :=
  {| mlm_hierarchy := ∅;
     cpa_validados := [];
     cpa_distributions := [];
     mlm_statistics := {[ (456, (2025, 0, 1), (2025, 0, 31)) := one_payout ]};
     mlm_operation_logs := [] |}.

(** The rule set the README gives: a deposit of at least 30 and at least
    10 bets. *)
Definition readme_rules : JVal :=
  JObj [("groups",
         JArr [JObj [("operator", JStr "AND");
                     ("criteria",
                      JArr [JObj [("type", JStr "deposit"); ("value", JNum (30 # 1));
                                  ("enabled", JBool true)];
                            JObj [("type", JStr "bets"); ("value", JNum (10 # 1));
                                  ("enabled", JBool true)]])]]);
        ("group_operator", JStr "OR")].

(** The hierarchy the migration script seeds. *)
Definition seeded_hierarchy : gmap Z HierarchyRow :=
  list_to_map
    [(1, {| parent_id := None; level := 1; path := [1]; active := true |});
     (2, {| parent_id := Some 1; level := 2; path := [1; 2]; active := true |});
     (3, {| parent_id := Some 1; level := 2; path := [1; 3]; active := true |});
     (4, {| parent_id := Some 2; level := 3; path := [1; 2; 4]; active := true |});
     (5, {| parent_id := Some 2; level := 3; path := [1; 2; 5]; active := true |});
     (6, {| parent_id := Some 3; level := 3; path := [1; 3; 6]; active := true |});
     (7, {| parent_id := Some 4; level := 4; path := [1; 2; 4; 7]; active := true |});
     (8, {| parent_id := Some 4; level := 4; path := [1; 2; 4; 8]; active := true |});
     (9, {| parent_id := Some 5; level := 4; path := [1; 2; 5; 9]; active := true |});
     (10, {| parent_id := Some 7; level := 5; path := [1; 2; 4; 7; 10];
             active := true |})].

(** Three participants referred one by the other, as three upserts leave
    them. *)
Definition three_levels : gmap Z HierarchyRow :=
  MLMModel.table_after
    (MLMModel.table_after (MLMModel.table_after ∅ 1 None) 2 (Some 1)) 3 (Some 2).

(** Ten participants referred one by the other: the deepest chain the
    table admits. *)
Definition ten_levels : gmap Z HierarchyRow :=
  foldl (fun h k => MLMModel.table_after h k (Some (k - 1)))
        (MLMModel.table_after ∅ 1 None) [2; 3; 4; 5; 6; 7; 8; 9; 10].

(** A provider that serves the settings and nothing else. *)
Definition settings_served : Environment :=
  {| http_get := fun path =>
       if String.eqb path "/config/mlm_settings/value"
       then HttpOk true (CMlmSettings ConfigClient.default_mlm_settings)
       else HttpFailure (Some 404);
     now := 1736900000000;
     today := (2025, 0, 15);
     defaultCacheTTL := 300000 |}.

(** The hierarchy 1 <- 2 <- 3 in which 2 has been deactivated. *)
Definition deactivated_parent : gmap Z HierarchyRow :=
  <[1 := {| parent_id := None; level := 1; path := [1]; active := true |}]>
  (<[2 := {| parent_id := Some 1; level := 2; path := [1; 2]; active := false |}]>
  (<[3 := {| parent_id := Some 2; level := 3; path := [1; 2; 3]; active := true |}]> ∅)).

(** Participant 1000 was referred by participant 456. *)
Definition referral : gmap Z HierarchyRow :=
  <[456 := {| parent_id := None; level := 1; path := [456]; active := true |}]>
  (<[1000 := {| parent_id := Some 456; level := 2; path := [456; 1000];
                active := true |}]> ∅).

(** A process whose cache holds a level-2 payout of 5, a minimum payout of
    10 and no validation rule. *)
Definition minimum_of_ten : MlmSettings :=
  {| max_hierarchy_levels := Some 5;
     minimum_amount := Some (10 # 1);
     currency := Some "BRL" |}.

Definition payout_below_minimum : World :=
  {| configCache :=
       <["cpa_level_amounts" := CLevelAmounts (<["level_2" := 5 # 1]> ∅)]>
       (<["mlm_settings" := CMlmSettings minimum_of_ten]>
       (<["cpa_validation_rules" := CRules ConfigClient.default_validation_rules]> ∅));
     configClient := {| ConfigClient.cache := ∅; ConfigClient.cacheTTL := ∅ |};
     database :=
       {| mlm_hierarchy := referral;
          cpa_validados := [];
          cpa_distributions := [];
          mlm_statistics := ∅;
          mlm_operation_logs := [] |} |}.

Definition first_deposit : CpaData :=
  {| amount := 50 # 1;
     depositAmount := Some (100 # 1);
     betsCount := Some (15 # 1);
     totalBetAmount := Some (500 # 1);
     daysActive := Some (7 # 1);
     ruleId := None;
     criteria := None |}.

(* ================================================================== *)
(** * Properties of the eligibility validator *)

Lemma rbind_ok {A B} (r : Result A) (k : A -> Result B) a :
  r = Ok a -> r ≫= k = k a.
Proof. intros ->. reflexivity. Qed.

Lemma rbind_throw {A B} (r : Result A) (k : A -> Result B) e :
  r = Throw e -> r ≫= k = Throw e.
Proof. intros ->. reflexivity. Qed.

Lemma rmapM_throw {A B} (f : A -> Result B) (xs : list A) x :
  x ∈ xs -> (exists e, f x = Throw e) -> exists e, rmapM f xs = Throw e.
Proof.
  induction xs as [|y ys IH]; intros Hin [e He].
  - inversion Hin.
  - apply elem_of_cons in Hin as [<- | Hin]; simpl.
    + rewrite (rbind_throw _ _ e He). eauto.
    + destruct (f y) as [b|e']; [|simpl; eauto].
      destruct (IH Hin (ex_intro _ e He)) as [e'' ->]. simpl. eauto.
Qed.

Lemma array_length_nonzero (items : list JVal) :
  items <> [] ->
  js_is_number (JNum (inject_Z (Z.of_nat (length items)))) 0 = false.
Proof.
  intros Hne. destruct items as [|x xs]; [done|].
  unfold js_is_number, Qeq_bool, inject_Z. simpl Qnum. simpl Qden.
  apply Z.eqb_neq. lia.
Qed.

Section ValidatorFacts.

Variable coerced_ge : Q -> JVal -> bool.
Variable userId : Z.
Variable cpaData : option CpaData.

Local Abbreviation validateCpa := (Validator.validateCpa coerced_ge userId cpaData).
Local Abbreviation validateCpa_try := (Validator.validateCpa_try coerced_ge userId cpaData).
Local Abbreviation evalGroup := (Validator.evalGroup coerced_ge cpaData).
Local Abbreviation evalCriteria := (Validator.evalCriteria coerced_ge cpaData).
Local Abbreviation evalCriterion := (Validator.evalCriterion coerced_ge cpaData).

Lemma validateCpa_total rules : exists b, validateCpa rules = Ok b.
Proof.
  unfold Validator.validateCpa. destruct (validateCpa_try rules); eauto.
Qed.

Lemma validateCpa_caught rules e :
  validateCpa_try rules = Throw e -> validateCpa rules = Ok false.
Proof. unfold Validator.validateCpa. intros ->. reflexivity. Qed.

Lemma evalCriterion_disabled criterion :
  disabled criterion = true -> evalCriterion criterion = Ok None.
Proof.
  unfold disabled, Validator.evalCriterion.
  destruct (js_get criterion "enabled") as [enabled|]; [|done].
  simpl. intros ->. reflexivity.
Qed.

Lemma evalCriteria_disabled criteria :
  forallb disabled criteria = true -> evalCriteria criteria = Ok [].
Proof.
  induction criteria as [|c cs IH]; [reflexivity|].
  simpl. intros [Hc Hcs]%andb_prop.
  rewrite (evalCriterion_disabled _ Hc). simpl.
  rewrite (IH Hcs). reflexivity.
Qed.

Lemma evalGroup_disabled operator criteria group :
  is_group operator criteria group ->
  forallb disabled criteria = true ->
  evalGroup group = Ok (String.eqb operator "AND").
Proof.
  intros [Hop Hcrit] Hdis. unfold Validator.evalGroup.
  rewrite (rbind_ok _ _ _ Hcrit). simpl.
  rewrite (evalCriteria_disabled _ Hdis). simpl.
  rewrite (rbind_ok _ _ _ Hop). simpl.
  destruct (String.eqb operator "AND"); reflexivity.
Qed.

Lemma evalGroup_not_iterable group :
  criteria_not_iterable group -> exists e, evalGroup group = Throw e.
Proof.
  unfold criteria_not_iterable, Validator.evalGroup. intros Hno.
  destruct (js_get group "criteria") as [crit|e]; [|simpl; eauto].
  simpl in *. destruct (js_iter crit) as [items|e]; [|simpl; eauto].
  destruct (Hno items). reflexivity.
Qed.

(** The path into the loops: a rule set whose [groups] is a non-empty
    array. *)
Lemma validateCpa_try_groups rules groups :
  js_get rules "groups" = Ok (JArr groups) -> groups <> [] ->
  validateCpa_try rules =
    groupResults ← rmapM evalGroup groups;
    group_operator ← js_get rules "group_operator";
    Ok (if js_is_string group_operator "AND" then Validator.every groupResults
        else Validator.some groupResults).
Proof.
  intros Hg Hne. unfold Validator.validateCpa_try.
  assert (js_truthy rules = true) as ->
    by (destruct rules; simpl in Hg; try discriminate; reflexivity).
  simpl negb. cbv iota. rewrite (rbind_ok _ _ _ Hg). simpl js_truthy. simpl negb.
  cbv iota. simpl js_get. cbn [mbind result_bind rbind].
  rewrite (array_length_nonzero _ Hne). reflexivity.
Qed.

End ValidatorFacts.

(** The README's rules approve its sample event (deposit 100, 15 bets)
    and reject one with a deposit of 20 or without a bet count. *)
Example validateCpa_readme_rules (coerced_ge : Q -> JVal -> bool) :
  let event deposit bets :=
    Some {| amount := 50 # 1; depositAmount := deposit; betsCount := bets;
            totalBetAmount := Some (500 # 1); daysActive := Some (7 # 1);
            ruleId := None; criteria := None |} in
  Validator.validateCpa coerced_ge 123 (event (Some (100 # 1)) (Some (15 # 1)))
    readme_rules = Ok true
  /\ Validator.validateCpa coerced_ge 123 (event (Some (20 # 1)) (Some (15 # 1)))
       readme_rules = Ok false
  /\ Validator.validateCpa coerced_ge 123 (event (Some (100 # 1)) None)
       readme_rules = Ok false
  /\ Validator.validateCpa coerced_ge 123 None readme_rules = Ok false.
Proof. repeat split; reflexivity. Qed.

(** C8. With an empty or absent rule set ([null], no [groups] field, or
    zero groups), [validateCpa] approves the event whatever its measured
    attributes are. *)
Theorem validateCpa_empty_rule_set_allows
    (coerced_ge : Q -> JVal -> bool) (userId : Z) (cpaData : option CpaData)
    (validationRules : JVal) :
  empty_rule_set validationRules ->
  Validator.validateCpa coerced_ge userId cpaData validationRules = Ok true.
Proof.
  unfold Validator.validateCpa, Validator.validateCpa_try.
  destruct 1 as [ | | fields Hg | fields Hg | fields Hg ]; simpl;
    rewrite ?Hg; reflexivity.
Qed.

Lemma validateCpa_empty_rule_set_allows_witness :
  empty_rule_set (JObj [("groups", JArr []); ("group_operator", JStr "OR")])
  /\ Validator.validateCpa (fun _ _ => true) 123 None
       (JObj [("groups", JArr []); ("group_operator", JStr "OR")]) = Ok true.
Proof.
  split.
  - apply rule_set_zero_groups. reflexivity.
  - apply validateCpa_empty_rule_set_allows.
    apply rule_set_zero_groups. reflexivity.
Defined.

(** C9. A group none of whose criteria is enabled evaluates to true under
    AND and to false under OR; hence a rule set made of a single OR group
    whose criteria are all disabled rejects every event. *)
Theorem validateCpa_group_without_enabled_criteria
    (coerced_ge : Q -> JVal -> bool) (userId : Z) (cpaData : option CpaData)
    (criteria : list JVal) (group validationRules : JVal) :
  forallb disabled criteria = true ->
  (is_group "AND" criteria group ->
     Validator.evalGroup coerced_ge cpaData group = Ok true)
  /\ (is_group "OR" criteria group ->
        Validator.evalGroup coerced_ge cpaData group = Ok false)
  /\ (is_group "OR" criteria group ->
      js_get validationRules "groups" = Ok (JArr [group]) ->
        Validator.validateCpa coerced_ge userId cpaData validationRules = Ok false).
Proof.
  intros Hdis. split; [|split].
  - intros Hg. apply (evalGroup_disabled _ _ _ _ _ Hg Hdis).
  - intros Hg. apply (evalGroup_disabled _ _ _ _ _ Hg Hdis).
  - intros Hg Hrules. unfold Validator.validateCpa.
    rewrite (validateCpa_try_groups _ _ _ _ [group] Hrules) by done.
    simpl rmapM. rewrite (evalGroup_disabled _ _ _ _ _ Hg Hdis). simpl.
    assert (exists gop, js_get validationRules "group_operator" = Ok gop) as [gop ->]
      by (destruct validationRules; simpl in Hrules; try discriminate; simpl; eauto).
    simpl. destruct (js_is_string gop "AND"); reflexivity.
Qed.

Lemma validateCpa_group_without_enabled_criteria_witness :
  let criteria :=
    [JObj [("type", JStr "deposit"); ("value", JNum (30 # 1)); ("enabled", JBool false)]] in
  let all_of := JObj [("operator", JStr "AND"); ("criteria", JArr criteria)] in
  let any_of := JObj [("operator", JStr "OR"); ("criteria", JArr criteria)] in
  let rules := JObj [("groups", JArr [any_of]); ("group_operator", JStr "AND")] in
  Validator.evalGroup (fun _ _ => true) None all_of = Ok true
  /\ Validator.evalGroup (fun _ _ => true) None any_of = Ok false
  /\ Validator.validateCpa (fun _ _ => true) 123 None rules = Ok false.
Proof.
  intros criteria all_of any_of rules.
  assert (forallb disabled criteria = true) as Hdis by reflexivity.
  assert (is_group "AND" criteria all_of) as Hall by (split; reflexivity).
  assert (is_group "OR" criteria any_of) as Hany by (split; reflexivity).
  split; [|split].
  - exact (proj1 (validateCpa_group_without_enabled_criteria
                    (fun _ _ => true) 123 None criteria all_of rules Hdis) Hall).
  - exact (proj1 (proj2 (validateCpa_group_without_enabled_criteria
                           (fun _ _ => true) 123 None criteria any_of rules Hdis)) Hany).
  - exact (proj2 (proj2 (validateCpa_group_without_enabled_criteria
                           (fun _ _ => true) 123 None criteria any_of rules Hdis))
             Hany eq_refl).
Defined.

(** C10. [validateCpa] never throws.  Whatever is thrown while the rules
    are evaluated is caught and the event is rejected; in particular a
    non-empty rule set with a group whose criteria are missing or not
    iterable rejects, although an empty rule set approves. *)
Theorem validateCpa_never_throws
    (coerced_ge : Q -> JVal -> bool) (userId : Z) (cpaData : option CpaData)
    (validationRules : JVal) :
  (exists approved,
     Validator.validateCpa coerced_ge userId cpaData validationRules = Ok approved)
  /\ (forall e,
        Validator.validateCpa_try coerced_ge userId cpaData validationRules = Throw e ->
        Validator.validateCpa coerced_ge userId cpaData validationRules = Ok false)
  /\ (forall groups group,
        js_get validationRules "groups" = Ok (JArr groups) ->
        group ∈ groups ->
        criteria_not_iterable group ->
        Validator.validateCpa coerced_ge userId cpaData validationRules = Ok false).
Proof.
  split; [|split].
  - apply validateCpa_total.
  - apply validateCpa_caught.
  - intros groups group Hrules Hin Hbad.
    assert (groups <> []) as Hne by (intros ->; inversion Hin).
    destruct (rmapM_throw (Validator.evalGroup coerced_ge cpaData) groups group Hin
                (evalGroup_not_iterable _ _ _ Hbad)) as [e He].
    apply (validateCpa_caught _ _ _ _ e).
    rewrite (validateCpa_try_groups _ _ _ _ groups Hrules Hne).
    rewrite He. reflexivity.
Qed.

Lemma validateCpa_never_throws_witness :
  let group := JObj [("operator", JStr "AND")] in
  let rules := JObj [("groups", JArr [group]); ("group_operator", JStr "OR")] in
  criteria_not_iterable group
  /\ Validator.validateCpa (fun _ _ => true) 123 None rules = Ok false.
Proof.
  intros group rules.
  assert (criteria_not_iterable group) as Hbad by (intros items; discriminate).
  split; [exact Hbad|].
  apply (proj2 (proj2 (validateCpa_never_throws (fun _ _ => true) 123 None rules))
           [group] group).
  - reflexivity.
  - apply list_elem_of_here.
  - exact Hbad.
Defined.


(* ================================================================== *)
(** * Properties of the distribution calculator *)

Lemma positive_test (a : Q) :
  negb (Qeq_bool a 0) && negb (Qle_bool a 0) = true <-> (0 < a)%Q.
Proof.
  rewrite andb_true_iff, !negb_true_iff. split.
  - intros [_ Hle]. apply Qnot_le_lt. intros H%Qle_bool_iff. congruence.
  - intros Hlt. split.
    + apply not_true_is_false. intros H%Qeq_bool_iff.
      rewrite H in Hlt. exact (Qlt_irrefl _ Hlt).
    + apply not_true_is_false. intros H%Qle_bool_iff.
      exact (Qlt_not_le _ _ Hlt H).
Qed.

Lemma pays_earns cpaAmounts mlmSettings affiliate a :
  Calculator.pays cpaAmounts mlmSettings affiliate = Some a
  <-> earns cpaAmounts mlmSettings affiliate a.
Proof.
  unfold Calculator.pays, earns, Calculator.within_max.
  destruct (cpaAmounts !! _) as [b|] eqn:Hb; [|split; [done | intros [? _]; done]].
  destruct (negb (Qeq_bool b 0) && negb (Qle_bool b 0)) eqn:Hpos; simpl.
  - apply positive_test in Hpos.
    destruct (max_hierarchy_levels mlmSettings) as [m|].
    + destruct (Z.leb_spec (upline_level affiliate) m).
      * split; [intros [= <-]; eauto 6 | intros [[= ->] _]; done].
      * split; [done | intros (_ & _ & m' & [= <-] & ?); lia].
    + split; [done | intros (_ & _ & m' & ? & _); done].
  - split; [done|]. intros ([= <-] & Hlt & _).
    apply positive_test in Hlt. congruence.
Qed.

Lemma calculateDistributions_distributes upline cpaAmounts mlmSettings :
  distributes cpaAmounts mlmSettings upline
    (Calculator.calculateDistributions upline cpaAmounts mlmSettings).
Proof.
  induction upline as [|affiliate rest IH]; simpl.
  - constructor.
  - destruct (Calculator.pays cpaAmounts mlmSettings affiliate) as [a|] eqn:Hp.
    + apply distributes_pay; [by apply pays_earns | exact IH].
    + apply distributes_skip; [|exact IH].
      intros a Ha%pays_earns. congruence.
Qed.

(** C7. [calculateDistributions] returns, in upline order, exactly one
    distribution per upline entry whose level has a strictly positive
    payout-table amount and is within the configured maximum, for that
    flat amount, and nothing for any other entry.  For the upline
    [456 at level 2, 789 at level 3], the table [level_2: 20, level_3: 5]
    gives two distributions totalling 25 and the table
    [level_2: 0, level_3: 5] gives the level-3 distribution of 5 alone. *)
Theorem calculateDistributions_flat_per_level :
  (forall upline cpaAmounts mlmSettings,
     distributes cpaAmounts mlmSettings upline
       (Calculator.calculateDistributions upline cpaAmounts mlmSettings))
  /\ (let upline := [ {| upline_affiliate_id := 456; upline_level := 2 |};
                      {| upline_affiliate_id := 789; upline_level := 3 |} ] in
      let settings := ConfigClient.default_mlm_settings in
      let paid id l a := {| affiliate_id := id; affiliate_level := l;
                            dist_amount := a; dist_currency := "BRL" |} in
      (let ds := Calculator.calculateDistributions upline
                   (<["level_2" := 20 # 1]> (<["level_3" := 5 # 1]> ∅)) settings in
       ds = [paid 456 2 (20 # 1); paid 789 3 (5 # 1)]
       /\ (totalDistribution ds == 25 # 1)%Q)
      /\ Calculator.calculateDistributions upline
           (<["level_2" := 0 # 1]> (<["level_3" := 5 # 1]> ∅)) settings
         = [paid 789 3 (5 # 1)]).
Proof.
  split; [apply calculateDistributions_distributes|].
  vm_compute. repeat split; reflexivity.
Qed.


(* ================================================================== *)
(** * Properties of the hierarchy resolver *)

Section Upline.

Variable h : gmap Z HierarchyRow.
Variable maxLevels : Z.

Lemma active_row_Some a r :
  MLMModel.active_row h a = Some r <-> h !! a = Some r /\ active r = true.
Proof.
  unfold MLMModel.active_row. destruct (h !! a) as [r'|]; [|split; [done|intros [? _]; done]].
  destruct (active r') eqn:Hact.
  - split; [intros [= <-]; done | intros [[= <-] _]; done].
  - split; [done | intros [[= <-] ?]; congruence].
Qed.

Lemma is_active_true a :
  is_active h a = true <-> exists r, h !! a = Some r /\ active r = true.
Proof.
  unfold is_active. rewrite bool_decide_eq_true. split.
  - intros [r Hr]. exists r. by apply active_row_Some.
  - intros [r Hr]. exists r. by apply active_row_Some.
Qed.

(** The recursion never needs more steps than the distance left. *)
Lemma upline_tree_fuel fuel fuel' parent distance :
  (Z.to_nat (maxLevels - distance) <= fuel)%nat ->
  (Z.to_nat (maxLevels - distance) <= fuel')%nat ->
  MLMModel.upline_tree h fuel parent distance maxLevels
  = MLMModel.upline_tree h fuel' parent distance maxLevels.
Proof.
  revert fuel' parent distance.
  induction fuel as [|fuel IH]; intros fuel' parent l Hf Hf'.
  - destruct fuel' as [|fuel']; [reflexivity|]. simpl.
    destruct (Z.ltb_spec l maxLevels); [lia | reflexivity].
  - destruct fuel' as [|fuel'].
    + simpl. destruct (Z.ltb_spec l maxLevels); [lia | reflexivity].
    + simpl. destruct (Z.ltb_spec l maxLevels); [|reflexivity].
      destruct parent as [p|]; [|reflexivity].
      destruct (MLMModel.active_row h p); [|reflexivity].
      f_equal. apply IH; lia.
Qed.

(** Entry [i] of the recursion from [parent] is the participant [i] links
    above it, at distance [distance + 1 + i], and its row is active. *)
Lemma upline_tree_lookup fuel p distance i row :
  MLMModel.upline_tree h fuel (Some p) distance maxLevels !! i = Some row ->
  ancestor h i p = Some (upline_affiliate_id row)
  /\ upline_level row = distance + 1 + Z.of_nat i
  /\ is_active h (upline_affiliate_id row) = true
  /\ upline_level row <= maxLevels.
Proof.
  revert p distance i.
  induction fuel as [|fuel IH]; intros p l i; simpl; [done|].
  destruct (Z.ltb_spec l maxLevels) as [Hlt|]; [|done].
  destruct (MLMModel.active_row h p) as [r|] eqn:Hr; [|done].
  destruct i as [|i]; simpl.
  - intros [= <-]. simpl. repeat split; try lia.
    apply is_active_true. exists r. by apply active_row_Some.
  - apply active_row_Some in Hr as [Hr _].
    destruct (parent_id r) as [p'|] eqn:Hp'.
    + intros (Ha & Hl & Hact & Hmax)%IH. unfold parent_of. rewrite Hr. simpl.
      rewrite Hp'. simpl. repeat split; [done|lia|done|done].
    + destruct fuel; simpl; [done|].
      destruct (l + 1 <? maxLevels); done.
Qed.

Lemma upline_tree_None fuel distance :
  MLMModel.upline_tree h fuel None distance maxLevels = [].
Proof. destruct fuel; simpl; [done|]. destruct (distance <? maxLevels); done. Qed.

Lemma getAffiliateUpline_lookup a i row :
  MLMModel.getAffiliateUpline h a maxLevels !! i = Some row ->
  is_active h a = true
  /\ ancestor h (S i) a = Some (upline_affiliate_id row)
  /\ upline_level row = Z.of_nat i + 2
  /\ is_active h (upline_affiliate_id row) = true.
Proof.
  unfold MLMModel.getAffiliateUpline.
  destruct (MLMModel.active_row h a) as [r|] eqn:Hr; [|done].
  assert (is_active h a = true) as Ha
    by (apply is_active_true; exists r; by apply active_row_Some).
  apply active_row_Some in Hr as [Hr _].
  destruct (parent_id r) as [p|] eqn:Hp; [|by rewrite upline_tree_None].
  intros (Hanc & Hl & Hact & _)%upline_tree_lookup.
  simpl. unfold parent_of. rewrite Hr. simpl. rewrite Hp. simpl.
  repeat split; [done|done|lia|done].
Qed.

(** [getAffiliateUpline] runs the recursion to its end: more steps give
    the same rows. *)
Lemma getAffiliateUpline_exhausts a r fuel :
  MLMModel.active_row h a = Some r -> (Z.to_nat maxLevels <= fuel)%nat ->
  MLMModel.upline_tree h fuel (parent_id r) 1 maxLevels
  = MLMModel.getAffiliateUpline h a maxLevels.
Proof.
  intros Hr Hfuel. unfold MLMModel.getAffiliateUpline. rewrite Hr.
  apply upline_tree_fuel; lia.
Qed.

(** While the rows met are active and the distance allows, the recursion
    goes on. *)
Lemma upline_tree_length fuel p distance (k : nat) :
  (forall j, (j <= k)%nat -> exists q, ancestor h j p = Some q /\ is_active h q = true) ->
  distance + Z.of_nat k < maxLevels ->
  (k < fuel)%nat ->
  (k < length (MLMModel.upline_tree h fuel (Some p) distance maxLevels))%nat.
Proof.
  revert p distance k.
  induction fuel as [|fuel IH]; intros p d k Hact Hd Hfuel; [lia|].
  simpl. destruct (Z.ltb_spec d maxLevels); [|lia].
  destruct (Hact 0%nat ltac:(lia)) as (q & [= <-] & Hp).
  apply is_active_true in Hp as (r & Hr & Hra).
  assert (MLMModel.active_row h p = Some r) as -> by by apply active_row_Some.
  destruct k as [|k]; simpl; [lia|].
  destruct (Hact 1%nat ltac:(lia)) as (q & Hq & _).
  simpl in Hq. unfold parent_of in Hq. rewrite Hr in Hq. simpl in Hq.
  destruct (parent_id r) as [p'|] eqn:Hp'; [|done].
  apply -> Nat.succ_lt_mono. apply IH; [|lia|lia].
  intros j Hj. destruct (Hact (S j) ltac:(lia)) as (q' & Hq' & Hact').
  exists q'. split; [|done].
  simpl in Hq'. unfold parent_of in Hq'. rewrite Hr in Hq'. simpl in Hq'.
  by rewrite Hp' in Hq'.
Qed.

End Upline.

(** On the seeded hierarchy, the upline of 10 is its four ancestors, and
    three levels reach two of them. *)
Example getAffiliateUpline_seeded :
  MLMModel.getAffiliateUpline seeded_hierarchy 10 5
  = [ {| upline_affiliate_id := 7; upline_level := 2 |};
      {| upline_affiliate_id := 4; upline_level := 3 |};
      {| upline_affiliate_id := 2; upline_level := 4 |};
      {| upline_affiliate_id := 1; upline_level := 5 |} ]
  /\ MLMModel.getAffiliateUpline seeded_hierarchy 10 3
     = [ {| upline_affiliate_id := 7; upline_level := 2 |};
         {| upline_affiliate_id := 4; upline_level := 3 |} ].
Proof. split; reflexivity. Qed.

(** C5, as the code has it.  [getAffiliateUpline] follows the parent links
    one at a time and keeps a row only if it is active: entry [i] is the
    participant [i + 1] links above the originator, at distance [i + 2].
    A row that is not active ends the walk, so neither it nor any ancestor
    above it is returned; and while the rows met are active and the
    distance is below [maxLevels], the walk goes on. *)
Theorem getAffiliateUpline_stops_at_inactive
    (h : gmap Z HierarchyRow) (a maxLevels : Z) :
  let upline := MLMModel.getAffiliateUpline h a maxLevels in
  (forall (i : nat) row, upline !! i = Some row ->
     ancestor h (S i) a = Some (upline_affiliate_id row)
     /\ upline_level row = Z.of_nat i + 2
     /\ is_active h (upline_affiliate_id row) = true)
  /\ (forall (k : nat) q, ancestor h k a = Some q -> is_active h q = false ->
       forall (i : nat) row, upline !! i = Some row -> (S i < k)%nat)
  /\ (forall k : nat,
       (forall j, (j <= k)%nat ->
          exists q, ancestor h j a = Some q /\ is_active h q = true) ->
       Z.of_nat k < maxLevels -> (k <= length upline)%nat).
Proof.
  intros upline. split; [|split].
  - intros i row Hi.
    destruct (getAffiliateUpline_lookup _ _ _ _ _ Hi) as (_ & ? & ? & ?). done.
  - intros k q Hk Hq i row Hi.
    destruct (decide (S i < k)%nat) as [|Hge]; [done|exfalso].
    destruct k as [|k].
    + simpl in Hk. injection Hk as <-.
      destruct (getAffiliateUpline_lookup _ _ _ _ _ Hi) as (Ha & _). congruence.
    + assert (is_Some (upline !! k)) as [row' Hrow']
        by (apply lookup_lt_is_Some; apply lookup_lt_Some in Hi; lia).
      destruct (getAffiliateUpline_lookup _ _ _ _ _ Hrow') as (_ & Hanc & _ & Hact).
      rewrite Hk in Hanc. injection Hanc as ->. congruence.
  - intros k Hact Hk. subst upline. unfold MLMModel.getAffiliateUpline.
    destruct (Hact 0%nat ltac:(lia)) as (q & [= <-] & Ha).
    apply is_active_true in Ha as (r & Hr & Hra).
    assert (MLMModel.active_row h a = Some r) as -> by by apply active_row_Some.
    destruct k as [|k]; [lia|].
    destruct (Hact 1%nat ltac:(lia)) as (q & Hq & _).
    simpl in Hq. unfold parent_of in Hq. rewrite Hr in Hq. simpl in Hq.
    destruct (parent_id r) as [p|] eqn:Hp; [|done].
    apply Nat.lt_succ_r. apply -> Nat.succ_lt_mono.
    apply upline_tree_length; [|lia|lia].
    intros j Hj. destruct (Hact (S j) ltac:(lia)) as (q' & Hq' & Hact').
    exists q'. split; [|done].
    simpl in Hq'. unfold parent_of in Hq'. rewrite Hr in Hq'. simpl in Hq'.
    by rewrite Hp in Hq'.
Qed.

Lemma getAffiliateUpline_stops_at_inactive_witness :
  MLMModel.getAffiliateUpline deactivated_parent 3 5 = []
  /\ forall (i : nat) row,
       MLMModel.getAffiliateUpline deactivated_parent 3 5 !! i = Some row -> (S i < 1)%nat.
Proof.
  split; [reflexivity|].
  apply (proj1 (proj2 (getAffiliateUpline_stops_at_inactive deactivated_parent 3 5))
           1%nat 2); reflexivity.
Defined.

(** C5, as stated, fails: above the deactivated 2 sits the active 1, which
    the upline of 3 does not reach. *)
Lemma upline_does_not_continue_through_inactive :
  ~ continues_through_inactive deactivated_parent 3 5.
Proof.
  intros H.
  specialize (H 1%nat 2%nat 2 1 ltac:(lia) ltac:(lia)
                eq_refl eq_refl eq_refl eq_refl).
  vm_compute in H. inversion H.
Qed.


(* ================================================================== *)
(** * Properties of the statistics aggregator *)

Lemma statistics_eta (s : Statistics) :
  {| total := total s; level_1 := level_1 s; level_2 := level_2 s;
     level_3 := level_3 s; level_4 := level_4 s; level_5 := level_5 s |} = s.
Proof. destruct s; reflexivity. Qed.

Lemma map_has_get m k : MLMService.map_has m k = true <-> is_Some (map_get m k).
Proof.
  induction m as [|[k' s] m IH]; simpl.
  - split; [done | intros [? ?]; done].
  - destruct (k' =? k); simpl; [split; eauto | exact IH].
Qed.

Lemma map_get_app m1 m2 k :
  map_get (m1 ++ m2) k = match map_get m1 k with Some s => Some s | None => map_get m2 k end.
Proof.
  induction m1 as [|[k' s] m1 IH]; simpl; [reflexivity|].
  destruct (k' =? k); [reflexivity | exact IH].
Qed.

Lemma map_get_update m k f k' :
  map_get (MLMService.map_update m k f) k'
  = if k =? k' then f <$> map_get m k' else map_get m k'.
Proof.
  induction m as [|[k0 s] m IH]; simpl.
  - destruct (k =? k'); reflexivity.
  - destruct (Z.eqb_spec k0 k) as [->|Hne]; simpl.
    + destruct (Z.eqb_spec k k'); reflexivity.
    + destruct (Z.eqb_spec k0 k') as [->|]; [|exact IH].
      destruct (Z.eqb_spec k k'); [congruence | reflexivity].
Qed.

Lemma map_update_keys m k f : (MLMService.map_update m k f).*1 = m.*1.
Proof.
  induction m as [|[k0 s] m IH]; simpl; [reflexivity|].
  destruct (k0 =? k); simpl; [reflexivity | f_equal; exact IH].
Qed.

Lemma map_get_keys m k : is_Some (map_get m k) <-> k ∈ m.*1.
Proof.
  induction m as [|[k0 s] m IH]; simpl.
  - split; [intros [? ?]; done | intros H; inversion H].
  - rewrite elem_of_cons. destruct (Z.eqb_spec k0 k) as [->|Hne].
    + split; eauto.
    + rewrite IH. split; [eauto | intros [?|?]; [congruence | done]].
Qed.


(** The entry the grouping loop holds for a participant after one more
    distribution. *)
Lemma group_distribution_get m d k :
  map_get (MLMService.group_distribution m d) k
  = if affiliate_id d =? k
    then Some (MLMService.count_distribution d
                 (default MLMService.no_statistics (map_get m k)))
    else map_get m k.
Proof.
  unfold MLMService.group_distribution.
  destruct (MLMService.map_has m (affiliate_id d)) eqn:Hhas.
  - rewrite map_get_update. destruct (Z.eqb_spec (affiliate_id d) k) as [<-|]; [|done].
    apply map_has_get in Hhas as [s ->]. reflexivity.
  - rewrite map_get_update, map_get_app. simpl.
    destruct (Z.eqb_spec (affiliate_id d) k) as [<-|Hne].
    + assert (map_get m (affiliate_id d) = None) as ->.
      { apply eq_None_not_Some. intros H%map_has_get. congruence. }
      reflexivity.
    + destruct (map_get m k); reflexivity.
Qed.

Lemma group_distribution_NoDup m d :
  NoDup m.*1 -> NoDup (MLMService.group_distribution m d).*1.
Proof.
  intros Hnd. unfold MLMService.group_distribution. cbv zeta.
  rewrite map_update_keys.
  destruct (MLMService.map_has m (affiliate_id d)) eqn:Hhas; [done|].
  rewrite fmap_app. apply NoDup_app. split; [done|]. split.
  - intros k Hk [->|H]%elem_of_cons; [|inversion H].
    apply map_get_keys, map_has_get in Hk. simpl in Hk. congruence.
  - apply NoDup_singleton.
Qed.

Lemma tally_of_snoc ds d :
  tally_of (ds ++ [d]) = MLMService.count (dist_amount d) (tally_of ds).
Proof.
  unfold tally_of, MLMService.count, totalDistribution. simpl.
  rewrite foldl_snoc, length_app. simpl. f_equal. lia.
Qed.

Lemma at_level_snoc l ds d :
  at_level l (ds ++ [d])
  = at_level l ds ++ (if decide (affiliate_level d = l) then [d] else []).
Proof.
  unfold at_level. rewrite filter_app. reflexivity.
Qed.

Lemma tally_of_at_level_snoc l ds d :
  tally_of (at_level l (ds ++ [d]))
  = if decide (affiliate_level d = l)
    then MLMService.count (dist_amount d) (tally_of (at_level l ds))
    else tally_of (at_level l ds).
Proof.
  rewrite at_level_snoc. destruct (decide (affiliate_level d = l)).
  - apply tally_of_snoc.
  - by rewrite app_nil_r.
Qed.

Lemma statistics_of_snoc ds d :
  statistics_of (ds ++ [d]) = MLMService.count_distribution d (statistics_of ds).
Proof.
  unfold statistics_of at 1. rewrite tally_of_snoc, !tally_of_at_level_snoc.
  unfold MLMService.count_distribution, MLMService.count_total, MLMService.count_level.
  destruct (affiliate_level d) as [|[[[]|[]|]|[[]|[]|]|]|];
    repeat (case_decide; try lia); reflexivity.
Qed.

Lemma batch_of_snoc k ds d :
  batch_of k (ds ++ [d])
  = batch_of k ds ++ (if decide (affiliate_id d = k) then [d] else []).
Proof. unfold batch_of. rewrite filter_app. reflexivity. Qed.

Lemma group_by_affiliate_spec ds :
  NoDup (MLMService.group_by_affiliate ds).*1
  /\ forall k, map_get (MLMService.group_by_affiliate ds) k
              = if decide (batch_of k ds = []) then None
                else Some (statistics_of (batch_of k ds)).
Proof.
  unfold MLMService.group_by_affiliate.
  induction ds as [|d ds [IHnd IH]] using rev_ind.
  - split; [apply NoDup_nil_2 | done].
  - rewrite foldl_snoc. split; [by apply group_distribution_NoDup|].
    intros k. rewrite group_distribution_get, IH, batch_of_snoc.
    destruct (Z.eqb_spec (affiliate_id d) k) as [Hk|Hk].
    + rewrite (decide_True (P := affiliate_id d = k)) by done.
      rewrite (decide_False (P := batch_of k ds ++ [d] = []))
        by (by destruct (batch_of k ds)).
      rewrite statistics_of_snoc. f_equal. f_equal.
      destruct (decide (batch_of k ds = [])) as [->|]; reflexivity.
    + rewrite (decide_False (P := affiliate_id d = k)) by done.
      by rewrite app_nil_r.
Qed.

Lemma write_each_tables periodStart periodEnd db m :
  let db' := MLMService.write_each periodStart periodEnd db m in
  mlm_hierarchy db' = mlm_hierarchy db
  /\ cpa_validados db' = cpa_validados db
  /\ cpa_distributions db' = cpa_distributions db
  /\ mlm_operation_logs db' = mlm_operation_logs db.
Proof.
  revert db. induction m as [|[k s] m IH]; intros db; simpl; [done|].
  unfold MLMModel.updateAffiliateStatistics.
  destruct (if MLMModel.int4 k then MLMModel.columns s else None) as [row|]; [|done].
  match goal with |- context [MLMService.write_each _ _ ?db1 m] =>
    destruct (IH db1) as (-> & -> & -> & ->) end.
  done.
Qed.









(** The stored row of the example below is the one the program itself
    leaves after the first such event of the month. *)
Lemma january_statistics_written :
  database (MLMService.updateStatistics provider_down one_more_payout
              (cold_start empty_database)).2
  = january_statistics.
Proof. by vm_compute. Qed.

(** C3, as stated, fails: with one payout stored for participant 456, an
    event that pays it once more leaves a count of one, not two. *)
Lemma updateStatistics_does_not_increment :
  ~ merges_by_increment provider_down one_more_payout (cold_start january_statistics).
Proof.
  intros H.
  destruct (H 456 one_payout ltac:(discriminate) eq_refl)
    as (merged & Hmerged & [[Hcount _] _]).
  vm_compute in Hmerged. injection Hmerged as <-.
  vm_compute in Hcount. discriminate.
Qed.

(* ================================================================== *)
(** * Properties of the orchestrator *)

Lemma service_bind_eq {A B} (m : Service A) (k : A -> Service B) (w : World) :
  (m ≫= k) w
  = match m w with
    | (Ok a, w') => k a w'
    | (Throw e, w') => (Throw e, w')
    end.
Proof. reflexivity. Qed.

Section Orchestrator.

Variable coerced_ge : Q -> JVal -> bool.
Variable env : Environment.

Local Abbreviation unavailable := (unavailable env).

Lemma getFromCache_other st key key' :
  key <> key' ->
  ConfigClient.cache (ConfigClient.getFromCache env st key).2 !! key'
  = ConfigClient.cache st !! key'.
Proof.
  intros Hne. unfold ConfigClient.getFromCache.
  destruct (ConfigClient.cache st !! key); [|done].
  destruct (ConfigClient.cacheTTL st !! key) as [ttl|]; simpl.
  - destruct (negb (ttl =? 0) && (now env <? ttl)); simpl; [done|].
    by apply lookup_delete_ne.
  - by apply lookup_delete_ne.
Qed.

Lemma getConfig_other key key' w :
  key <> key' -> key = "cpa_level_amounts" \/ key = "cpa_validation_rules" ->
  unavailable key' w -> unavailable key' (MLMService.getConfig env key w).2.
Proof.
  intros Hne Hkey (Hc & Hcc & Hget). unfold MLMService.getConfig.
  destruct (configCache w !! key); [done|].
  destruct (ConfigClient.getConfig env (configClient w) key CNull) as [v st] eqn:Hv.
  simpl. split; [simpl; by rewrite lookup_insert_ne|]. split; [simpl|done].
  unfold ConfigClient.getConfig in Hv.
  pose proof (getFromCache_other (configClient w) key key' Hne) as Hst.
  destruct (ConfigClient.getFromCache env (configClient w) key) as [cached st'].
  simpl in Hst. rewrite <- Hcc, <- Hst.
  destruct (negb (ConfigClient.is_null cached)); [by injection Hv as _ <-|].
  destruct Hkey as [-> | ->]; simpl in Hv; by injection Hv as _ <-.
Qed.

Lemma getConfig_unavailable key w :
  key <> "cpa_level_amounts" -> key <> "cpa_validation_rules" ->
  unavailable key w ->
  exists w', MLMService.getConfig env key w = (Ok CNull, w')
             /\ database w' = database w.
Proof.
  intros Hk1 Hk2 (Hc & Hcc & Hget). unfold MLMService.getConfig. rewrite Hc.
  unfold ConfigClient.getConfig, ConfigClient.getFromCache. rewrite Hcc. simpl.
  apply String.eqb_neq in Hk1, Hk2. rewrite Hk1, Hk2.
  destruct (http_get env _) as [status|[] value] eqn:Hhttp; eauto.
  by destruct (Hget value).
Qed.

Lemma getConfig_database key w :
  database (MLMService.getConfig env key w).2 = database w.
Proof.
  unfold MLMService.getConfig. destruct (configCache w !! key); [done|].
  by destruct (ConfigClient.getConfig env (configClient w) key CNull).
Qed.

Lemma getConfig_ok key w :
  exists value, (MLMService.getConfig env key w).1 = Ok value.
Proof.
  unfold MLMService.getConfig. destruct (configCache w !! key); [eauto|].
  destruct (ConfigClient.getConfig env (configClient w) key CNull). eauto.
Qed.

(** C4 fails on the code.  When [mlm_settings] is in neither cache and the
    provider does not serve it, [getConfig] yields [null] and
    [processCpaForDistribution] throws to its caller, either because the
    rules reject the event or on reading [max_hierarchy_levels] of [null]:
    the event never completes on default settings. *)
Theorem processCpaForDistribution_throws_without_settings
    (userId affiliateId : Z) (cpaData : CpaData) (w : World) :
  unavailable "mlm_settings" w ->
  exists e,
    (MLMService.processCpaForDistribution coerced_ge env userId affiliateId cpaData w).1
    = Throw e
    /\ (e = TypeError "Cannot read properties of null (reading 'max_hierarchy_levels')"
        \/ e = Error "CPA não atende aos critérios de validação").
Proof.
  intros Hun. unfold MLMService.processCpaForDistribution, try_catch.
  match goal with
  | |- context [match ?body w with _ => _ end] =>
      assert (exists e w',
                body w = (Throw e, w')
                /\ (e = TypeError "Cannot read properties of null (reading 'max_hierarchy_levels')"
                    \/ e = Error "CPA não atende aos critérios de validação"))
        as (e & w' & -> & He)
  end; [|simpl; eauto].
  rewrite service_bind_eq.
  destruct (getConfig_ok "cpa_level_amounts" w) as [amounts Hamounts].
  pose proof (getConfig_other "cpa_level_amounts" "mlm_settings" w
                ltac:(done) ltac:(by left) Hun) as Hun1.
  destruct (MLMService.getConfig env "cpa_level_amounts" w) as [r1 w1].
  simpl in Hamounts, Hun1. subst r1.
  rewrite service_bind_eq.
  destruct (getConfig_unavailable "mlm_settings" w1 ltac:(done) ltac:(done) Hun1)
    as (w2 & -> & _).
  rewrite service_bind_eq.
  destruct (getConfig_ok "cpa_validation_rules" w2) as [rules Hrules].
  destruct (MLMService.getConfig env "cpa_validation_rules" w2) as [r3 w3].
  simpl in Hrules. subst r3.
  rewrite service_bind_eq. unfold lift at 1.
  destruct (validateCpa_total coerced_ge userId (Some cpaData)
              (MLMService.rules_view rules)) as [[] ->]; simpl; eauto.
Qed.

(** At or above the minimum, [executeCpaDistribution] reaches the insert,
    which the store refuses: the row it builds has no [user_id]. *)
Lemma executeCpaDistribution_refused cpaValidadoId distribution w settings :
  configCache w !! "mlm_settings" = Some (CMlmSettings settings) ->
  MLMService.below_minimum (dist_amount distribution) (minimum_amount settings) = false ->
  MLMService.executeCpaDistribution env cpaValidadoId distribution w
  = (Throw (DatabaseError "cpa_distributions.user_id not null"), w).
Proof.
  intros Hc Hmin. unfold MLMService.executeCpaDistribution.
  rewrite service_bind_eq. unfold MLMService.getConfig at 1. rewrite Hc.
  rewrite service_bind_eq. simpl. rewrite Hmin. reflexivity.
Qed.

(** The other two keys do degrade to their defaults. *)
Lemma getConfig_default_amounts w :
  configCache w !! "cpa_level_amounts" = None ->
  ConfigClient.cache (configClient w) !! "cpa_level_amounts" = None ->
  (forall value, http_get env "/cpa/level-amounts" <> HttpOk true value) ->
  (MLMService.getConfig env "cpa_level_amounts" w).1
  = Ok (CLevelAmounts ConfigClient.default_level_amounts).
Proof.
  intros Hc Hcc Hget. unfold MLMService.getConfig. rewrite Hc.
  unfold ConfigClient.getConfig, ConfigClient.getFromCache. rewrite Hcc. simpl.
  unfold ConfigClient.getCpaLevelAmounts.
  destruct (http_get env _) as [status|[] value] eqn:Hhttp; try done.
  by destruct (Hget value).
Qed.

Lemma getConfig_default_rules w :
  configCache w !! "cpa_validation_rules" = None ->
  ConfigClient.cache (configClient w) !! "cpa_validation_rules" = None ->
  (forall value, http_get env "/cpa/validation-rules" <> HttpOk true value) ->
  (MLMService.getConfig env "cpa_validation_rules" w).1
  = Ok (CRules ConfigClient.default_validation_rules).
Proof.
  intros Hc Hcc Hget. unfold MLMService.getConfig. rewrite Hc.
  unfold ConfigClient.getConfig, ConfigClient.getFromCache. rewrite Hcc. simpl.
  unfold ConfigClient.getCpaValidationRules.
  destruct (http_get env _) as [status|[] value] eqn:Hhttp; try done.
  by destruct (Hget value).
Qed.

(** What [executeCpaDistribution] does with an amount below a configured
    minimum: nothing is written, and [null] is returned. *)
Lemma executeCpaDistribution_below_minimum cpaValidadoId distribution w settings m :
  configCache w !! "mlm_settings" = Some (CMlmSettings settings) ->
  minimum_amount settings = Some m ->
  (dist_amount distribution < m)%Q ->
  MLMService.executeCpaDistribution env cpaValidadoId distribution w = (Ok None, w).
Proof.
  intros Hc Hm Hlt. unfold MLMService.executeCpaDistribution.
  rewrite service_bind_eq. unfold MLMService.getConfig at 1. rewrite Hc.
  rewrite service_bind_eq. simpl. rewrite Hm. simpl.
  assert (Qle_bool m (dist_amount distribution) = false) as ->; [|done].
  apply not_true_is_false. intros H%Qle_bool_iff. exact (Qlt_not_le _ _ Hlt H).
Qed.

End Orchestrator.

Lemma processCpaForDistribution_throws_without_settings_witness :
  unavailable provider_down "mlm_settings" (cold_start empty_database)
  /\ (MLMService.processCpaForDistribution (fun _ _ => true) provider_down 123 456
        first_deposit (cold_start empty_database)).1
     = Throw (TypeError "Cannot read properties of null (reading 'max_hierarchy_levels')").
Proof.
  assert (unavailable provider_down "mlm_settings" (cold_start empty_database)) as Hun
    by (repeat split; discriminate).
  split; [exact Hun|].
  destruct (processCpaForDistribution_throws_without_settings
              (fun _ _ => true) provider_down 123 456 first_deposit _ Hun)
    as (e & He & [-> | ->]); [exact He|].
  vm_compute in He. discriminate.
Defined.

(** C1 fails on the code.  With a level-2 payout of 5 under a minimum of
    10, the event of participant 1000 computes one distribution, for
    participant 456.  It is not persisted; yet [updateStatistics] receives
    the computed list and counts it, and summing the results then reads
    [distributed_amount] of the [null] that stands for it, so the operation
    throws instead of returning a total. *)
Theorem below_minimum_distribution_is_counted (coerced_ge : Q -> JVal -> bool) :
  let run := MLMService.processCpaForDistribution coerced_ge provider_down
               123 1000 first_deposit payout_below_minimum in
  let dropped := {| affiliate_id := 456; affiliate_level := 2;
                    dist_amount := 5 # 1; dist_currency := "BRL" |} in
  Calculator.calculateDistributions
    (MLMModel.getAffiliateUpline referral 1000 5)
    (<["level_2" := 5 # 1]> ∅) minimum_of_ten = [dropped]
  /\ run.1 = Throw (TypeError "Cannot read properties of null (reading 'distributed_amount')")
  /\ cpa_distributions (database run.2) = []
  /\ stored_statistics provider_down run.2 456 = Some (statistics_of [dropped])
  /\ total_cpas (statistics_of [dropped]) = 1
  /\ total_amount (statistics_of [dropped]) = 5 # 1
  /\ status <$> mlm_operation_logs (database run.2) = ["SUCCESS"; "ERROR"].
Proof.
  vm_compute. repeat split; reflexivity.
Qed.

(* ================================================================== *)
(** * Properties of the hierarchy writer *)

Section Writer.

Implicit Types (h : gmap Z HierarchyRow) (r : HierarchyRow) (a : Z).

Lemma select_descendants_elem_of h a kr :
  kr ∈ MLMModel.select_descendants h a <->
  h !! kr.1 = Some kr.2 /\ MLMModel.is_descendant a kr = true.
Proof.
  unfold MLMModel.select_descendants.
  rewrite merge_sort_Permutation, list_elem_of_filter.
  destruct kr as [k r]. rewrite elem_of_map_to_list. simpl. tauto.
Qed.

Lemma is_descendant_true a kr :
  MLMModel.is_descendant a kr = true <->
  a ∈ path kr.2 /\ kr.1 <> a /\ active kr.2 = true.
Proof.
  unfold MLMModel.is_descendant.
  rewrite !andb_true_iff, bool_decide_eq_true, negb_true_iff, Z.eqb_neq. tauto.
Qed.

Lemma write_row_Ok h a r h' :
  MLMModel.write_row h a r = Ok h' ->
  h' = <[a := r]> h /\ MLMModel.valid_level (level r) = true.
Proof.
  unfold MLMModel.write_row.
  destruct (MLMModel.valid_level (level r)); [|done]. by intros [= <-].
Qed.

Lemma write_row_Throw h a r e :
  MLMModel.write_row h a r = Throw e -> e = DatabaseError "valid_level".
Proof.
  unfold MLMModel.write_row.
  destruct (MLMModel.valid_level (level r)); [done|]. by intros [= <-].
Qed.

Lemma update_row_Some h a set current :
  h !! a = Some current ->
  MLMModel.update_row h a set = MLMModel.write_row h a (set current).
Proof. unfold MLMModel.update_row. by intros ->. Qed.

Lemma update_row_Throw h a set e :
  MLMModel.update_row h a set = Throw e -> e = DatabaseError "valid_level".
Proof.
  unfold MLMModel.update_row. destruct (h !! a); [apply write_row_Throw | done].
Qed.

Lemma update_row_other h a set h' k :
  MLMModel.update_row h a set = Ok h' -> a <> k -> h' !! k = h !! k.
Proof.
  unfold MLMModel.update_row. destruct (h !! a); [|by intros [= <-]].
  intros [-> _]%write_row_Ok Hne. by apply lookup_insert_ne.
Qed.

(** The cascade writes only the rows it selected, and throws only on the
    level CHECK. *)
Lemma updateDescendants_loop_other rows h h' a :
  MLMModel.updateDescendants_loop h rows = Ok h' ->
  (forall kr, kr ∈ rows -> kr.1 <> a) ->
  h' !! a = h !! a.
Proof.
  revert h. induction rows as [|kr rows IH]; intros h; simpl.
  - by intros [= <-].
  - intros Hloop Hrows.
    destruct (MLMModel.updateDescendant h kr) as [h1|] eqn:Hstep; [|done].
    simpl in Hloop. rewrite (IH h1 Hloop)
      by (intros kr' Hin; apply Hrows; by apply elem_of_cons; right).
    unfold MLMModel.updateDescendant in Hstep.
    destruct (parent_id kr.2 ≫= MLMModel.active_row h); [|by injection Hstep as <-].
    apply (update_row_other _ _ _ _ a) in Hstep; [done|].
    apply Hrows, list_elem_of_here.
Qed.

Lemma updateDescendants_loop_Throw rows h e :
  MLMModel.updateDescendants_loop h rows = Throw e -> e = DatabaseError "valid_level".
Proof.
  revert h. induction rows as [|kr rows IH]; intros h; simpl; [done|].
  destruct (MLMModel.updateDescendant h kr) as [h1|e'] eqn:Hstep; simpl.
  - apply IH.
  - intros [= <-]. unfold MLMModel.updateDescendant in Hstep.
    destruct (parent_id kr.2 ≫= MLMModel.active_row h); [|done].
    by apply update_row_Throw in Hstep.
Qed.

Lemma upsertAffiliate_Throw h a parentId e :
  MLMModel.upsertAffiliate h a parentId = Throw e -> e = DatabaseError "valid_level".
Proof.
  unfold MLMModel.upsertAffiliate, MLMModel.updateAffiliateParent,
    MLMModel.updateDescendants.
  destruct (h !! a) as [existing|].
  - case_bool_decide; [done|].
    destruct (MLMModel.placement h a parentId) as [l p].
    destruct (MLMModel.update_row h a _) as [h1|e'] eqn:Hw; simpl.
    + destruct (MLMModel.updateDescendants_loop h1 _) as [h2|e'] eqn:Hl; simpl; [done|].
      intros [= <-]. by apply updateDescendants_loop_Throw in Hl.
    + intros [= <-]. by apply update_row_Throw in Hw.
  - destruct (MLMModel.placement h a parentId) as [l p].
    destruct (MLMModel.write_row h a _) as [h1|e'] eqn:Hw; simpl; [done|].
    intros [= <-]. by apply write_row_Throw in Hw.
Qed.

(** C2, as stated, fails: participant 1000 descends from 456, and moving
    456 under 1000 is carried out. *)
Lemma descendant_as_parent_is_not_rejected :
  (exists r, referral !! 1000 = Some r /\ 456 ∈ path r)
  /\ ~ rejected referral 456 (Some 1000).
Proof.
  split.
  - eexists. split; [reflexivity|]. apply list_elem_of_here.
  - intros [[e He] _]. vm_compute in He. discriminate.
Qed.

(** The one thing that stops such a move is the depth: in a chain of ten,
    putting the first participant under the last would take it to level
    11, and the whole call is rolled back. *)
Lemma descendant_as_parent_beyond_depth :
  MLMModel.upsertAffiliate ten_levels 1 (Some 10) = Throw (DatabaseError "valid_level")
  /\ MLMModel.table_after ten_levels 1 (Some 10) = ten_levels.
Proof. split; by vm_compute. Qed.

Lemma placement_shape h a parentId :
  well_shaped h ->
  Z.of_nat (length (MLMModel.placement h a parentId).2) = (MLMModel.placement h a parentId).1
  /\ last (MLMModel.placement h a parentId).2 = Some a.
Proof.
  intros Hh. unfold MLMModel.placement.
  destruct parentId as [p|]; [|done].
  destruct (p =? 0); [done|].
  destruct (MLMModel.active_row h p) as [parent|] eqn:Hp; [|done].
  apply active_row_Some in Hp as [Hp _].
  destruct (Hh p parent Hp) as [[Hlen _] _]. simpl.
  rewrite length_app, last_snoc. simpl. split; [lia|done].
Qed.

Lemma well_shaped_insert h a r :
  well_shaped h -> row_shape a r -> active r = true -> well_shaped (<[a := r]> h).
Proof.
  intros Hh Hr Hact a' r'. rewrite lookup_insert.
  case_decide as Ha; [intros [= <-]; by subst a' | apply Hh].
Qed.

Lemma updateDescendants_loop_shape rows h h' :
  well_shaped h ->
  MLMModel.updateDescendants_loop h rows = Ok h' ->
  well_shaped h'.
Proof.
  revert h. induction rows as [|kr rows IH]; intros h Hh; simpl.
  - by intros [= <-].
  - destruct (MLMModel.updateDescendant h kr) as [h1|] eqn:Hstep; [|done].
    simpl. apply IH.
    unfold MLMModel.updateDescendant in Hstep.
    destruct (parent_id kr.2 ≫= MLMModel.active_row h) as [parent|] eqn:Hp;
      [|by injection Hstep as <-].
    unfold MLMModel.update_row in Hstep.
    destruct (h !! kr.1) as [current|] eqn:Hcur; [|by injection Hstep as <-].
    apply write_row_Ok in Hstep as [-> _].
    destruct (parent_id kr.2) as [p|]; [|done]. simpl in Hp.
    apply active_row_Some in Hp as [Hp _].
    destruct (Hh p parent Hp) as [[Hlen _] _].
    apply well_shaped_insert; [done| |by destruct (Hh _ _ Hcur)].
    split; simpl; [rewrite length_app; simpl; lia | apply last_snoc].
Qed.

Lemma table_after_shape h a parentId :
  well_shaped h -> well_shaped (MLMModel.table_after h a parentId).
Proof.
  intros Hh. unfold MLMModel.table_after.
  destruct (MLMModel.upsertAffiliate h a parentId) as [[returned h']|] eqn:Hup; [|done].
  unfold MLMModel.upsertAffiliate in Hup.
  pose proof (placement_shape h a parentId Hh) as [Hlen Hlast].
  destruct (MLMModel.placement h a parentId) as [l p] eqn:Hpl. simpl in Hlen, Hlast.
  destruct (h !! a) as [existing|] eqn:Ha.
  - case_bool_decide; [by injection Hup as _ <-|].
    unfold MLMModel.updateAffiliateParent in Hup. rewrite Hpl in Hup.
    rewrite (update_row_Some _ _ _ _ Ha) in Hup.
    destruct (MLMModel.write_row h a _) as [h1|] eqn:Hw; [|done].
    simpl in Hup. unfold MLMModel.updateDescendants in Hup.
    destruct (MLMModel.updateDescendants_loop h1 _) as [h2|] eqn:Hl; [|done].
    injection Hup as _ <-.
    apply (updateDescendants_loop_shape (MLMModel.select_descendants h1 a) h1 h2);
      [|done].
    apply write_row_Ok in Hw as [-> _].
    apply well_shaped_insert; [done | by split | by destruct (Hh a existing Ha)].
  - destruct (MLMModel.write_row h a _) as [h1|] eqn:Hw; [|done].
    injection Hup as _ <-. apply write_row_Ok in Hw as [-> _].
    apply well_shaped_insert; [done | by split | done].
Qed.

Lemma reachable_well_shaped h : MLMModel.reachable h -> well_shaped h.
Proof.
  induction 1 as [|h a parentId _ IH]; [intros a r; by rewrite lookup_empty|].
  by apply table_after_shape.
Qed.

(** ** The cascade keeps paths and parent links in agreement *)

Global Instance shorter_path_transitive : Transitive MLMModel.shorter_path.
Proof. intros x y z. unfold MLMModel.shorter_path. lia. Qed.

Global Instance shorter_path_total : Total MLMModel.shorter_path.
Proof. intros x y. unfold MLMModel.shorter_path. lia. Qed.

Lemma forest_rooted h a r : forest h -> h !! a = Some r -> rooted h r.
Proof.
  intros [Hshape Hlinked].
  remember (length (path r)) as n eqn:Hn. revert a r Hn.
  induction n as [n IH] using lt_wf_ind. intros a r -> Ha.
  pose proof (Hlinked a r Ha) as Hl. unfold linked in Hl.
  destruct (parent_id r) as [p|] eqn:Hp.
  - destruct Hl as (parent & Hparent & Hpath).
    destruct (IH (length (path parent))) with (a := p) (r := parent)
      as (root & row & Hhead & Hroot & Hnone); [|done|done|].
    { rewrite Hpath, length_app. simpl. lia. }
    exists root, row. rewrite Hpath, head_app, Hhead. done.
  - exists a, r. by rewrite Hl.
Qed.

Lemma select_descendants_NoDup h a : NoDup (MLMModel.select_descendants h a).*1.
Proof.
  unfold MLMModel.select_descendants. rewrite merge_sort_Permutation.
  apply (sublist_NoDup _ (map_to_list h).*1); [apply NoDup_fst_map_to_list|].
  apply fmap_sublist, sublist_filter.
Qed.

Lemma todo_key_elem_of (todo : list (Z * HierarchyRow)) k :
  k ∈ todo.*1 <-> exists r, (k, r) ∈ todo.
Proof.
  rewrite list_elem_of_fmap. split.
  - intros [[k' r] [-> Hin]]. by exists r.
  - intros [r Hin]. by exists (k, r).
Qed.

Lemma cascade_step g k r todo :
  cascade g ((k, r) :: todo) ->
  match MLMModel.updateDescendant g (k, r) with
  | Ok g' => cascade g' todo
  | Throw _ => True
  end.
Proof.
  intros [Hshape Hsnap Hnd Hsorted Hdone Htodo].
  destruct (Htodo k r) as (p & parent & Hp & Hparent & Hshort);
    [apply list_elem_of_here|].
  apply StronglySorted_inv in Hsorted as [Hsorted Hfirst].
  rewrite fmap_cons in Hnd. apply NoDup_cons in Hnd as [Hk Hnd]. simpl in Hk.
  assert (p ∉ ((k, r) :: todo).*1) as Hp_done.
  { intros [r' Hin]%todo_key_elem_of. pose proof (Hshort r' Hin) as Hlt.
    apply elem_of_cons in Hin as [[= -> ->]|Hin]; [lia|].
    rewrite Forall_forall in Hfirst. apply Hfirst in Hin.
    unfold MLMModel.shorter_path in Hin. simpl in Hin. lia. }
  assert (p <> k) as Hpk by (intros ->; apply Hp_done, list_elem_of_here).
  destruct (Hshape p parent Hparent) as [[Hlen Hlast] Hact].
  pose proof (Hsnap k r ltac:(apply list_elem_of_here)) as Hcur.
  unfold MLMModel.updateDescendant. simpl. rewrite Hp. simpl.
  assert (MLMModel.active_row g p = Some parent) as -> by by apply active_row_Some.
  rewrite (update_row_Some _ _ _ _ Hcur), Hp.
  destruct (MLMModel.write_row g k _) as [g'|] eqn:Hw; [|done].
  apply write_row_Ok in Hw as [-> _].
  destruct (Hshape k r Hcur) as [_ Hactive].
  split.
  - apply well_shaped_insert; [done| |done].
    split; simpl; [rewrite length_app; simpl; lia | apply last_snoc].
  - intros k' r' Hin. rewrite lookup_insert_ne.
    + apply Hsnap. by apply elem_of_cons; right.
    + intros <-. apply Hk. apply todo_key_elem_of. by exists r'.
  - done.
  - done.
  - intros k' r'. rewrite lookup_insert. case_decide as Hkk.
    + subst k'. intros [= <-] _. unfold linked. simpl. split.
      * exists parent. by rewrite lookup_insert_ne.
      * intros p' [= <-] Hin. apply Hp_done. simpl. by apply elem_of_cons; right.
    + intros Hk' Hnot.
      destruct (Hdone k' r' Hk') as [Hl Hparent'].
      { simpl. intros [?|?]%elem_of_cons; [congruence | done]. }
      split.
      * unfold linked in *. destruct (parent_id r') as [p'|] eqn:Hp'; [|done].
        destruct Hl as (parent' & Hparent'' & Hpath). exists parent'.
        split; [|done]. rewrite lookup_insert_ne; [done|].
        intros <-. apply (Hparent' k eq_refl). simpl. apply list_elem_of_here.
      * intros p' Hp' Hin. apply (Hparent' p' Hp'). simpl.
        by apply elem_of_cons; right.
  - intros k' r' Hin.
    destruct (Htodo k' r') as (p' & parent' & Hp' & Hparent' & Hshort');
      [by apply elem_of_cons; right|].
    exists p'. rewrite lookup_insert. case_decide.
    + eexists. split; [done|]. split; [done|].
      intros r'' Hin'. apply Hshort'. by apply elem_of_cons; right.
    + exists parent'. split; [done|]. split; [done|].
      intros r'' Hin'. apply Hshort'. by apply elem_of_cons; right.
Qed.

Lemma cascade_loop todo g g' :
  cascade g todo -> MLMModel.updateDescendants_loop g todo = Ok g' -> forest g'.
Proof.
  revert g. induction todo as [|[k r] todo IH]; intros g Hc; simpl.
  - intros [= <-]. destruct Hc as [Hshape _ _ _ Hdone _]. split; [done|].
    intros a r Ha. apply (Hdone a r Ha). simpl. apply not_elem_of_nil.
  - pose proof (cascade_step _ _ _ _ Hc) as Hstep.
    destruct (MLMModel.updateDescendant g (k, r)) as [g1|]; [|done].
    simpl. by apply IH.
Qed.

Lemma shaped_key_in_path h a r : well_shaped h -> h !! a = Some r -> a ∈ path r.
Proof. intros Hh Ha. destruct (Hh a r Ha) as [[_ Hlast] _]. by apply last_Some_elem_of. Qed.

(** In a forest, a row below [a] has a parent, itself at or below [a]. *)
Lemma forest_below h a k r :
  forest h -> h !! k = Some r -> a ∈ path r -> k <> a ->
  exists p parent, parent_id r = Some p /\ h !! p = Some parent
                   /\ path r = path parent ++ [k] /\ a ∈ path parent.
Proof.
  intros [_ Hlinked] Hk Hin Hne. pose proof (Hlinked k r Hk) as Hl.
  unfold linked in Hl. destruct (parent_id r) as [p|].
  - destruct Hl as (parent & Hparent & Hpath). exists p, parent.
    repeat split; try done. rewrite Hpath in Hin.
    apply elem_of_app in Hin as [?|Hin%list_elem_of_singleton]; [done|congruence].
  - rewrite Hl in Hin. apply list_elem_of_singleton in Hin. congruence.
Qed.

Lemma placement_forest_parent h a parentId :
  well_shaped h -> forest_parent h a parentId ->
  match parentId with
  | None => MLMModel.placement h a parentId = (1, [a])
  | Some p => exists parent, h !! p = Some parent /\ (a ∉ path parent) /\ p <> a
      /\ MLMModel.placement h a parentId = (level parent + 1, path parent ++ [a])
  end.
Proof.
  intros Hh Hfp. destruct parentId as [p|]; [|done].
  destruct Hfp as (Hp0 & parent & Hparent & Hnot). exists parent.
  repeat split; try done.
  - intros ->. by apply Hnot, (shaped_key_in_path h).
  - unfold MLMModel.placement. apply Z.eqb_neq in Hp0. rewrite Hp0.
    destruct (Hh p parent Hparent) as [_ Hact].
    assert (MLMModel.active_row h p = Some parent) as -> by by apply active_row_Some.
    done.
Qed.

(** When the parent of [a] has been rewritten, the rows the query selects
    start the cascade in a state it can work from. *)
Lemma cascade_start h a existing parentId :
  forest h -> h !! a = Some existing -> forest_parent h a parentId ->
  let row := {| parent_id := parentId;
                level := (MLMModel.placement h a parentId).1;
                path := (MLMModel.placement h a parentId).2;
                active := active existing |} in
  cascade (<[a := row]> h) (MLMModel.select_descendants (<[a := row]> h) a).
Proof.
  intros Hforest Ha Hfp row. pose proof Hforest as [Hshape Hlinked].
  pose proof (placement_shape h a parentId Hshape) as [Hlen Hlast].
  pose proof (placement_forest_parent h a parentId Hshape Hfp) as Hplace.
  set (h1 := <[a := row]> h).
  assert (forall k r, (k, r) ∈ MLMModel.select_descendants h1 a <->
                      k <> a /\ h !! k = Some r /\ a ∈ path r) as Hsel.
  { intros k r. rewrite select_descendants_elem_of, is_descendant_true. simpl.
    unfold h1. split.
    - intros (Hk & Hin & Hne & _). rewrite lookup_insert_ne in Hk by done. done.
    - intros (Hne & Hk & Hin). rewrite lookup_insert_ne by done.
      repeat split; try done. by destruct (Hshape k r Hk). }
  split.
  - apply well_shaped_insert; [done | by split | by destruct (Hshape a existing Ha)].
  - intros k r Hin. by apply select_descendants_elem_of in Hin as [? _].
  - apply select_descendants_NoDup.
  - apply StronglySorted_merge_sort; apply _.
  - intros k r Hk Hnot. unfold h1 in Hk. rewrite lookup_insert in Hk.
    case_decide as Hka.
    + subst k. injection Hk as <-. unfold linked. simpl.
      destruct parentId as [q|].
      * destruct Hplace as (parent & Hparent & Hnotin & Hqa & ->). simpl. split.
        -- exists parent. unfold h1. by rewrite lookup_insert_ne.
        -- intros p [= <-] [r' Hin]%todo_key_elem_of.
           apply Hsel in Hin as (_ & Hq & Hin). congruence.
      * rewrite Hplace. done.
    + assert (a ∉ path r) as Hnotin.
      { intros Hin. apply Hnot, todo_key_elem_of. exists r. by apply Hsel. }
      pose proof (Hlinked k r Hk) as Hl. unfold linked in *.
      destruct (parent_id r) as [p|]; [|done].
      destruct Hl as (parent & Hparent & Hpath).
      assert (a ∉ path parent) as Hnotin'
        by (intros Hin; apply Hnotin; rewrite Hpath; apply elem_of_app; by left).
      assert (p <> a) as Hpa
        by (intros ->; by apply Hnotin', (shaped_key_in_path h)).
      split.
      * exists parent. unfold h1. by rewrite lookup_insert_ne.
      * intros p' [= <-] [r' Hin]%todo_key_elem_of.
        apply Hsel in Hin as (_ & Hq & Hin). congruence.
  - intros k r (Hka & Hk & Hin)%Hsel.
    destruct (forest_below h a k r Hforest Hk Hin Hka)
      as (p & parent & Hp & Hparent & Hpath & _).
    exists p. unfold h1. rewrite lookup_insert. case_decide.
    + eexists. repeat split; try done.
      intros r' (? & _)%Hsel. congruence.
    + exists parent. repeat split; try done.
      intros r' (_ & Hp' & _)%Hsel.
      assert (r' = parent) as -> by congruence.
      rewrite Hpath, length_app. simpl. lia.
Qed.

Lemma table_after_forest h a parentId :
  forest h -> forest_parent h a parentId ->
  forest (MLMModel.table_after h a parentId).
Proof.
  intros Hforest Hfp. pose proof Hforest as [Hshape Hlinked].
  unfold MLMModel.table_after.
  destruct (MLMModel.upsertAffiliate h a parentId) as [[returned h']|] eqn:Hup; [|done].
  unfold MLMModel.upsertAffiliate in Hup.
  destruct (h !! a) as [existing|] eqn:Ha.
  - case_bool_decide; [by injection Hup as _ <-|].
    unfold MLMModel.updateAffiliateParent in Hup.
    pose proof (cascade_start h a existing parentId Hforest Ha Hfp) as Hstart.
    destruct (MLMModel.placement h a parentId) as [l p]. simpl in Hstart.
    rewrite (update_row_Some _ _ _ _ Ha) in Hup.
    destruct (MLMModel.write_row h a _) as [h1|] eqn:Hw; [|done].
    apply write_row_Ok in Hw as [-> _].
    simpl in Hup. unfold MLMModel.updateDescendants in Hup.
    destruct (MLMModel.updateDescendants_loop _ _) as [h2|] eqn:Hl; [|done].
    injection Hup as _ <-. by apply (cascade_loop _ _ _ Hstart).
  - pose proof (placement_shape h a parentId Hshape) as [Hlen Hlast].
    pose proof (placement_forest_parent h a parentId Hshape Hfp) as Hplace.
    destruct (MLMModel.placement h a parentId) as [l p] eqn:Hpl.
    simpl in Hlen, Hlast.
    destruct (MLMModel.write_row h a _) as [h1|] eqn:Hw; [|done].
    injection Hup as _ <-. apply write_row_Ok in Hw as [-> _].
    split; [apply well_shaped_insert; [done | by split | done]|].
    intros k r. rewrite lookup_insert. case_decide as Hka.
    + subst k. intros [= <-]. unfold linked. simpl.
      destruct parentId as [q|].
      * destruct Hplace as (parent & Hparent & _ & Hqa & [= -> ->]).
        exists parent. by rewrite lookup_insert_ne.
      * by injection Hplace as _ ->.
    + intros Hk. pose proof (Hlinked k r Hk) as Hl. unfold linked in *.
      destruct (parent_id r) as [q|]; [|done].
      destruct Hl as (parent & Hparent & Hpath). exists parent.
      split; [|done]. rewrite lookup_insert_ne; [done|]. congruence.
Qed.

Lemma reachable_as_forest_forest h : reachable_as_forest h -> forest h.
Proof.
  induction 1 as [|h a parentId _ IH Hfp].
  - split; intros a r; by rewrite lookup_empty.
  - by apply table_after_forest.
Qed.

(** C6, as the code has it.  Whatever upserts produced a table, each of its
    rows has a path as long as its level and ending in the participant
    itself.  That the path starts from a participant without parent holds
    when every upsert named as parent nobody or an existing participant
    that was neither the one moved nor below it; the code does not check
    this. *)
Theorem reachable_rows_have_shape :
  (forall h, MLMModel.reachable h ->
   forall a r, h !! a = Some r -> row_shape a r)
  /\ (forall h, reachable_as_forest h ->
      forall a r, h !! a = Some r -> rooted h r).
Proof.
  split.
  - intros h Hh a r Ha. by destruct (reachable_well_shaped h Hh a r Ha).
  - intros h Hh a r Ha.
    apply (forest_rooted h a r); [by apply reachable_as_forest_forest | done].
Qed.

Lemma reachable_rows_have_shape_witness :
  let h := MLMModel.table_after (MLMModel.table_after ∅ 456 None) 1000 (Some 456) in
  let r := {| parent_id := Some 456; level := 2; path := [456; 1000]; active := true |} in
  h !! 1000 = Some r /\ row_shape 1000 r /\ rooted h r.
Proof.
  intros h r.
  assert (h !! 1000 = Some r) as Hr by reflexivity.
  assert (reachable_as_forest h) as Hforest.
  { apply forest_upsert; [apply forest_upsert; [apply forest_empty | exact I]|].
    split; [lia|]. eexists. split; [reflexivity|].
    apply not_elem_of_cons. split; [lia | apply not_elem_of_nil]. }
  assert (MLMModel.reachable h) as Hreach
    by (apply MLMModel.reachable_upsert, MLMModel.reachable_upsert,
          MLMModel.reachable_empty).
  split; [exact Hr|]. split.
  - exact (proj1 reachable_rows_have_shape h Hreach 1000 r Hr).
  - exact (proj2 reachable_rows_have_shape h Hforest 1000 r Hr).
Defined.

(** C6, as stated, fails: a participant inserted under a parent that does
    not exist keeps that parent and gets the path of a root. *)
Lemma path_may_start_below_a_parent : ~ paths_start_at_roots.
Proof.
  intros H.
  destruct (H (MLMModel.table_after ∅ 5 (Some 99))
              ltac:(apply MLMModel.reachable_upsert, MLMModel.reachable_empty)
              5 {| parent_id := Some 99; level := 1; path := [5]; active := true |}
              eq_refl) as [_ (root & row & Hhead & Hroot & Hnone)].
  injection Hhead as <-. vm_compute in Hroot. injection Hroot as <-. discriminate.
Qed.

(** ** Re-parenting under a descendant *)

Lemma valid_level_true l : MLMModel.valid_level l = true <-> 1 <= l <= 10.
Proof. unfold MLMModel.valid_level. rewrite andb_true_iff, !Z.leb_le. done. Qed.

Lemma forest_level_below h k r p parent :
  forest h -> h !! k = Some r -> h !! p = Some parent ->
  path r = path parent ++ [k] -> level r = level parent + 1.
Proof.
  intros [Hshape _] Hk Hp Hpath.
  destruct (Hshape k r Hk) as [[Hlen _] _].
  destruct (Hshape p parent Hp) as [[Hlen' _] _].
  rewrite <- Hlen, <- Hlen', Hpath, length_app. simpl. lia.
Qed.

Lemma moved_down_loop h a shift g todo :
  forest h -> moved_down h a shift g todo ->
  match MLMModel.updateDescendants_loop g todo with
  | Ok g' =>
      moved_down h a shift g' []
      /\ forall k r, (k, r) ∈ todo -> MLMModel.valid_level (level r + shift) = true
  | Throw _ =>
      exists k r, (k, r) ∈ todo /\ MLMModel.valid_level (level r + shift) = false
  end.
Proof.
  intros Hforest. revert g. induction todo as [|[k r] todo IH]; intros g Hinv.
  - simpl. split; [done | by intros k r ?%elem_of_nil].
  - destruct Hinv as [Htodo Hnd Hsorted Hdone].
    destruct (Htodo k r ltac:(apply list_elem_of_here)) as (Hk & Hgk & Hin & Hka).
    destruct (forest_below h a k r Hforest Hk Hin Hka)
      as (p & parent & Hparent & Hp & Hpath & Hinp).
    pose proof (forest_level_below h k r p parent Hforest Hk Hp Hpath) as Hlevel.
    rewrite fmap_cons in Hnd. apply NoDup_cons in Hnd as [Hknot Hnd].
    apply StronglySorted_inv in Hsorted as [Hsorted Hfirst].
    assert (p ∉ ((k, r) :: todo).*1) as Hpnot.
    { rewrite fmap_cons. apply not_elem_of_cons. split.
      - simpl. intros ->. rewrite Hk in Hp. injection Hp as <-.
        apply (f_equal length) in Hpath. rewrite length_app in Hpath. simpl in Hpath. lia.
      - intros (r2 & Hr2)%todo_key_elem_of.
        destruct (Htodo p r2 ltac:(by apply list_elem_of_further)) as (Hp2 & _).
        rewrite Hp in Hp2. injection Hp2 as <-.
        rewrite Forall_forall in Hfirst. specialize (Hfirst _ Hr2).
        unfold MLMModel.shorter_path in Hfirst. simpl in Hfirst.
        rewrite Hpath, length_app in Hfirst. simpl in Hfirst. lia. }
    destruct (Hdone p parent Hp Hinp Hpnot) as (parent' & Hgp & Hlevel' & Hact').
    assert (MLMModel.active_row g p = Some parent') as Hactive
      by (unfold MLMModel.active_row; by rewrite Hgp, Hact').
    cbn [MLMModel.updateDescendants_loop].
    unfold MLMModel.updateDescendant. cbn [fst snd]. rewrite Hparent. simpl.
    rewrite Hactive, (update_row_Some _ _ _ _ Hgk).
    unfold MLMModel.write_row. cbn [level].
    replace (level parent' + 1) with (level r + shift) by lia.
    destruct (MLMModel.valid_level (level r + shift)) eqn:Hvalid; simpl.
    + match goal with |- context [MLMModel.updateDescendants_loop ?g1 todo] =>
        specialize (IH g1); set (g1' := g1) in * end.
      assert (moved_down h a shift g1' todo) as Hinv1.
      { split; try done.
        - intros k' r' Hin'.
          destruct (Htodo k' r' ltac:(by apply list_elem_of_further))
            as (Hk' & Hgk' & Hrest).
          split; [done|]. split; [|done].
          unfold g1'. rewrite lookup_insert_ne; [done|].
          intros ->. apply Hknot, todo_key_elem_of. eauto.
        - intros k' r' Hk' Hin' Hnot'. unfold g1'.
          destruct (decide (k' = k)) as [->|Hne].
          + rewrite Hk in Hk'. injection Hk' as <-.
            rewrite lookup_insert_eq. eexists. split; [done|]. simpl.
            split; [done|]. destruct Hforest as [Hshape _].
            by destruct (Hshape k r Hk) as [_ ?].
          + rewrite lookup_insert_ne by done. apply Hdone; try done.
            rewrite fmap_cons. apply not_elem_of_cons. done. }
      specialize (IH Hinv1).
      destruct (MLMModel.updateDescendants_loop g1' todo) as [g'|e].
      * destruct IH as [Hfinal Hvalids]. split; [done|].
        intros k' r' [[= -> ->] | Hin']%elem_of_cons; [done | by apply (Hvalids k')].
      * destruct IH as (k' & r' & Hin' & Hinvalid). exists k', r'.
        split; [by apply list_elem_of_further | done].
    + exists k, r. split; [apply list_elem_of_here | done].
Qed.

(** C2, as the code has it.  Re-parenting [a] under an active descendant
    [d] is treated as any other change of parent: nothing checks for a
    cycle.  In any table the call either returns the row [a] had and
    rewrites it with parent [d], the level after [d]'s and [d]'s path
    followed by [a], or fails on the CHECK of [level].  In a table whose
    paths follow the parent links it takes [a] and every participant
    below it the same number of levels down, and which of the two
    happens is decided by those levels: the call commits when all of
    them are within 1..10, and is rolled back, leaving the table as it
    was, when one is not. *)
Theorem upsertAffiliate_accepts_descendant_as_parent h a d ra rd :
  h !! a = Some ra -> h !! d = Some rd ->
  a ∈ path rd -> d <> a -> d <> 0 -> active rd = true ->
  parent_id ra <> Some d ->
  let shift := level rd + 1 - level ra in
  let moved := {| parent_id := Some d; level := level rd + 1;
                  path := path rd ++ [a]; active := active ra |} in
  match MLMModel.upsertAffiliate h a (Some d) with
  | Ok (returned, h') => returned = ra /\ h' !! a = Some moved
  | Throw e => e = DatabaseError "valid_level"
  end
  /\ (forest h ->
      (levels_in_range h a shift ->
       exists h', MLMModel.upsertAffiliate h a (Some d) = Ok (ra, h')
                  /\ h' !! a = Some moved
                  /\ forall k r, h !! k = Some r -> a ∈ path r ->
                       exists r', h' !! k = Some r' /\ level r' = level r + shift)
      /\ (~ levels_in_range h a shift ->
          MLMModel.upsertAffiliate h a (Some d) = Throw (DatabaseError "valid_level")
          /\ MLMModel.table_after h a (Some d) = h)).
Proof.
  intros Ha Hd Hin Hda Hd0 Hact Hparent shift moved.
  assert (MLMModel.upsertAffiliate h a (Some d)
          = (h1 ← MLMModel.write_row h a moved;
             h2 ← MLMModel.updateDescendants_loop h1
                    (MLMModel.select_descendants h1 a);
             Ok (ra, h2))) as Hup.
  { unfold MLMModel.upsertAffiliate. rewrite Ha.
    rewrite bool_decide_eq_false_2 by done.
    unfold MLMModel.updateAffiliateParent, MLMModel.placement, MLMModel.active_row.
    rewrite (proj2 (Z.eqb_neq d 0) Hd0), Hd, Hact.
    rewrite (update_row_Some _ _ _ _ Ha).
    unfold MLMModel.updateDescendants.
    destruct (MLMModel.write_row h a _) as [h1|e]; [|done]. simpl.
    by destruct (MLMModel.updateDescendants_loop h1 _). }
  assert (forall h1 h2,
            MLMModel.write_row h a moved = Ok h1 ->
            MLMModel.updateDescendants_loop h1 (MLMModel.select_descendants h1 a)
            = Ok h2 ->
            h2 !! a = Some moved) as Hmoved.
  { intros h1 h2 [-> _]%write_row_Ok Hloop.
    rewrite (updateDescendants_loop_other _ _ _ a Hloop); [apply lookup_insert_eq|].
    intros kr [_ Hkr]%select_descendants_elem_of.
    by apply is_descendant_true in Hkr as (_ & ? & _). }
  split.
  - destruct (MLMModel.upsertAffiliate h a (Some d)) as [[returned h']|e] eqn:Hrun;
      [|by apply upsertAffiliate_Throw in Hrun].
    clear Hrun. symmetry in Hup.
    destruct (MLMModel.write_row h a moved) as [h1|] eqn:Hw; [|done]. simpl in Hup.
    destruct (MLMModel.updateDescendants_loop h1 _) as [h2|] eqn:Hl; [|done].
    simpl in Hup. injection Hup as <- <-. split; [done | by eapply Hmoved].
  - intros Hforest. pose proof Hforest as [Hshape Hlinked].
    assert (a ∈ path ra) as Hina by (by apply (shaped_key_in_path h)).
    assert (level ra + shift = level rd + 1) as Hshift by (unfold shift; lia).
    assert (forall h1, MLMModel.write_row h a moved = Ok h1 ->
              moved_down h a shift h1 (MLMModel.select_descendants h1 a)) as Hstart.
    { intros h1 [-> _]%write_row_Ok.
      assert (forall k r, (k, r) ∈ MLMModel.select_descendants (<[a := moved]> h) a <->
                          k <> a /\ h !! k = Some r /\ a ∈ path r) as Hsel.
      { intros k r. rewrite select_descendants_elem_of, is_descendant_true. simpl.
        split.
        - intros (Hk & Hkin & Hka & _). rewrite lookup_insert_ne in Hk by done. done.
        - intros (Hka & Hk & Hkin). rewrite lookup_insert_ne by done.
          repeat split; try done. by destruct (Hshape k r Hk) as [_ ?]. }
      split.
      - intros k r (Hka & Hk & Hkin)%Hsel. repeat split; try done.
        by rewrite lookup_insert_ne.
      - apply select_descendants_NoDup.
      - apply StronglySorted_merge_sort; apply _.
      - intros k r Hk Hkin Hnot. destruct (decide (k = a)) as [->|Hka].
        + rewrite Ha in Hk. injection Hk as <-. rewrite lookup_insert_eq.
          eexists. split; [done|]. simpl. split; [lia|].
          by destruct (Hshape a ra Ha) as [_ ?].
        + destruct Hnot. apply todo_key_elem_of. exists r. by apply Hsel. }
    split.
    + intros Hrange. rewrite Hup.
      destruct (MLMModel.write_row h a moved) as [h1|e] eqn:Hw.
      * simpl. pose proof (moved_down_loop h a shift h1 _ Hforest (Hstart h1 eq_refl))
          as Hloop.
        destruct (MLMModel.updateDescendants_loop h1 _) as [h2|e] eqn:Hl.
        -- destruct Hloop as [[_ _ _ Hdone] _]. exists h2. simpl.
           split; [done|]. split; [by eapply Hmoved|].
           intros k r Hk Hkin.
           destruct (Hdone k r Hk Hkin ltac:(apply not_elem_of_nil))
             as (r' & Hr' & Hlevel & _). eauto.
        -- destruct Hloop as (k & r & Hkr & Hinvalid).
           apply (moved_todo _ _ _ _ _ (Hstart h1 eq_refl)) in Hkr
             as (Hk & _ & Hkin & _).
           apply not_true_iff_false in Hinvalid. destruct Hinvalid.
           apply valid_level_true. by apply (Hrange k).
      * unfold MLMModel.write_row in Hw. simpl in Hw.
        destruct (MLMModel.valid_level (level rd + 1)) eqn:Hvalid; [done|].
        apply not_true_iff_false in Hvalid. destruct Hvalid.
        apply valid_level_true. rewrite <- Hshift. by apply (Hrange a).
    + intros Hrange.
      assert (exists e, MLMModel.upsertAffiliate h a (Some d) = Throw e) as [e He].
      { rewrite Hup.
        destruct (MLMModel.write_row h a moved) as [h1|e] eqn:Hw; [|simpl; eauto].
        simpl.
        pose proof (moved_down_loop h a shift h1 _ Hforest (Hstart h1 eq_refl))
          as Hloop.
        destruct (MLMModel.updateDescendants_loop h1 _) as [h2|e] eqn:Hl;
          [|simpl; eauto].
        destruct Hrange. destruct Hloop as [_ Hvalid].
        pose proof (Hstart h1 eq_refl) as [_ _ _ Hdone0].
        intros k r Hk Hkin. destruct (decide (k = a)) as [->|Hka].
        - rewrite Ha in Hk. injection Hk as <-. rewrite Hshift.
          apply valid_level_true. by apply write_row_Ok in Hw as [_ ?].
        - apply valid_level_true, (Hvalid k).
          apply write_row_Ok in Hw as [-> _].
          apply select_descendants_elem_of. simpl.
          rewrite lookup_insert_ne by done. split; [done|].
          apply is_descendant_true. simpl. repeat split; try done.
          by destruct (Hshape k r Hk) as [_ ?]. }
      pose proof (upsertAffiliate_Throw _ _ _ _ He) as ->.
      split; [done|]. unfold MLMModel.table_after. by rewrite He.
Qed.

Lemma referral_forest : forest referral.
Proof.
  replace referral
    with (MLMModel.table_after (MLMModel.table_after ∅ 456 None) 1000 (Some 456))
    by (by vm_compute).
  apply reachable_as_forest_forest.
  repeat apply forest_upsert; try apply forest_empty; try exact I.
  split; [lia|]. eexists. split; [reflexivity|].
  apply not_elem_of_cons. split; [lia | apply not_elem_of_nil].
Qed.

Lemma referral_levels_in_range : levels_in_range referral 456 2.
Proof.
  intros k r Hk _. unfold referral in Hk.
  apply lookup_insert_Some in Hk as [[_ <-] | [_ Hk]]; [simpl; lia|].
  apply lookup_insert_Some in Hk as [[_ <-] | [_ Hk]]; [simpl; lia|].
  by rewrite lookup_empty in Hk.
Qed.

Lemma upsertAffiliate_accepts_descendant_as_parent_witness :
  exists h',
    MLMModel.upsertAffiliate referral 456 (Some 1000)
    = Ok ({| parent_id := None; level := 1; path := [456]; active := true |}, h')
    /\ h' !! 456 = Some {| parent_id := Some 1000; level := 3;
                           path := [456; 1000; 456]; active := true |}
    /\ exists r', h' !! 1000 = Some r' /\ level r' = 4.
Proof.
  destruct (proj1 (proj2 (upsertAffiliate_accepts_descendant_as_parent
                referral 456 1000
                {| parent_id := None; level := 1; path := [456]; active := true |}
                {| parent_id := Some 456; level := 2; path := [456; 1000];
                   active := true |}
                eq_refl eq_refl ltac:(apply list_elem_of_here) ltac:(lia) ltac:(lia)
                eq_refl ltac:(discriminate)) referral_forest)
              referral_levels_in_range) as (h' & Hrun & Hmoved & Hbelow).
  exists h'. split; [exact Hrun|]. split; [exact Hmoved|].
  exact (Hbelow 1000 {| parent_id := Some 456; level := 2; path := [456; 1000];
                        active := true |}
                eq_refl ltac:(apply list_elem_of_here)).
Defined.

End Writer.

(* ================================================================== *)
(** * Further properties of the hierarchy resolver *)

Section UplineShape.

Implicit Types (h : gmap Z HierarchyRow) (r : HierarchyRow) (a : Z).

Lemma upline_tree_short h fuel parent distance maxLevels :
  (length (MLMModel.upline_tree h fuel parent distance maxLevels)
   <= Z.to_nat (maxLevels - distance))%nat.
Proof.
  revert parent distance. induction fuel as [|fuel IH]; intros parent d; simpl; [lia|].
  destruct (Z.ltb_spec d maxLevels); [|simpl; lia].
  destruct parent as [p|]; [|simpl; lia].
  destruct (MLMModel.active_row h p) as [r|]; [|simpl; lia].
  simpl. specialize (IH (parent_id r) (d + 1)). lia.
Qed.

(** X1. An upline holds at most [maxLevels - 1] rows, at distances from 2
    up to [maxLevels]; it is empty for a participant that is unknown or
    not active, and whenever [maxLevels] is 1 or less. *)
Theorem getAffiliateUpline_bounded h a maxLevels :
  let upline := MLMModel.getAffiliateUpline h a maxLevels in
  (length upline <= Z.to_nat (maxLevels - 1))%nat
  /\ (forall row, row ∈ upline -> 2 <= upline_level row <= maxLevels)
  /\ (is_active h a = false -> upline = [])
  /\ (maxLevels <= 1 -> upline = []).
Proof.
  intros upline.
  assert (length upline <= Z.to_nat (maxLevels - 1))%nat as Hlen.
  { unfold upline, MLMModel.getAffiliateUpline.
    destruct (MLMModel.active_row h a); [apply upline_tree_short | simpl; lia]. }
  split; [done|]. split; [|split].
  - intros row [i Hi]%list_elem_of_lookup.
    pose proof (lookup_lt_Some _ _ _ Hi) as Hlt.
    destruct (getAffiliateUpline_lookup _ _ _ _ _ Hi) as (_ & _ & -> & _). lia.
  - intros Hact. unfold upline, MLMModel.getAffiliateUpline.
    destruct (MLMModel.active_row h a) eqn:Hr; [|done].
    unfold is_active in Hact. rewrite Hr in Hact.
    apply bool_decide_eq_false in Hact. destruct Hact. eauto.
  - intros Hmax. apply length_zero_iff_nil. lia.
Qed.

Lemma getAffiliateUpline_bounded_witness :
  MLMModel.getAffiliateUpline seeded_hierarchy 10 1 = []
  /\ MLMModel.getAffiliateUpline seeded_hierarchy 11 5 = [].
Proof.
  split.
  - apply (proj2 (proj2 (proj2 (getAffiliateUpline_bounded seeded_hierarchy 10 1)))).
    lia.
  - apply (proj1 (proj2 (proj2 (getAffiliateUpline_bounded seeded_hierarchy 11 5)))).
    reflexivity.
Defined.

(** In a forest, the upline is read off the stored path. *)
Lemma upline_tree_path h a r fuel distance maxLevels :
  forest h -> h !! a = Some r ->
  MLMModel.upline_tree h fuel (parent_id r) distance maxLevels
  = imap (fun i p => {| upline_affiliate_id := p;
                        upline_level := distance + 1 + Z.of_nat i |})
      (take (fuel `min` Z.to_nat (maxLevels - distance)) (tail (reverse (path r)))).
Proof.
  intros [Hshape Hlinked]. revert a r distance.
  induction fuel as [|fuel IH]; intros a r d Ha; simpl; [done|].
  destruct (Z.ltb_spec d maxLevels) as [Hlt|Hge].
  - pose proof (Hlinked a r Ha) as Hl. unfold linked in Hl.
    destruct (parent_id r) as [p|] eqn:Hp.
    + destruct Hl as (parent & Hparent & Hpath).
      destruct (Hshape p parent Hparent) as [[_ Hlast] Hact].
      assert (MLMModel.active_row h p = Some parent) as ->
        by by apply active_row_Some.
      rewrite (IH p parent (d + 1) Hparent).
      apply last_Some in Hlast as [l' Hl'].
      rewrite Hpath, reverse_app. simpl.
      rewrite Hl' at 2. rewrite reverse_app. simpl.
      replace (Z.to_nat (maxLevels - d)) with (S (Z.to_nat (maxLevels - (d + 1)))) by lia.
      simpl. f_equal; [f_equal; lia|].
      rewrite Hl', reverse_app. simpl.
      apply imap_ext. intros i x _. simpl. f_equal. lia.
    + rewrite Hl. simpl. by rewrite take_nil.
  - by replace (Z.to_nat (maxLevels - d)) with 0%nat by lia.
Qed.

(** X2. In a table whose paths and parent links agree, the upline of a
    participant is its stored path read backwards from its parent, cut
    after [maxLevels - 1] entries, at distances 2, 3, ... *)
Theorem getAffiliateUpline_reads_path h a r maxLevels :
  forest h -> h !! a = Some r ->
  MLMModel.getAffiliateUpline h a maxLevels
  = imap (fun i p => {| upline_affiliate_id := p; upline_level := Z.of_nat i + 2 |})
      (take (Z.to_nat (maxLevels - 1)) (tail (reverse (path r)))).
Proof.
  intros Hforest Ha. pose proof Hforest as [Hshape _].
  destruct (Hshape a r Ha) as [_ Hact].
  unfold MLMModel.getAffiliateUpline.
  assert (MLMModel.active_row h a = Some r) as -> by by apply active_row_Some.
  rewrite (upline_tree_path h a r _ _ _ Hforest Ha).
  replace (Z.to_nat maxLevels `min` Z.to_nat (maxLevels - 1))%nat
    with (Z.to_nat (maxLevels - 1)) by lia.
  apply imap_ext. intros i x _. simpl. f_equal. lia.
Qed.

End UplineShape.

Lemma three_levels_forest : forest three_levels.
Proof.
  apply reachable_as_forest_forest. unfold three_levels.
  repeat apply forest_upsert; try apply forest_empty; try exact I.
  - split; [lia|]. eexists. split; [reflexivity|].
    apply not_elem_of_cons. split; [lia | apply not_elem_of_nil].
  - split; [lia|]. eexists. split; [reflexivity|].
    repeat (apply not_elem_of_cons; split; [lia|]). apply not_elem_of_nil.
Qed.

Lemma getAffiliateUpline_reads_path_witness :
  MLMModel.getAffiliateUpline three_levels 3 5
  = [ {| upline_affiliate_id := 2; upline_level := 2 |};
      {| upline_affiliate_id := 1; upline_level := 3 |} ].
Proof.
  exact (getAffiliateUpline_reads_path three_levels 3
           {| parent_id := Some 2; level := 3; path := [1; 2; 3]; active := true |}
           5 three_levels_forest eq_refl).
Defined.

(* ================================================================== *)
(** * Further properties of the hierarchy writer *)

Section WriterFrame.

Implicit Types (h : gmap Z HierarchyRow) (r : HierarchyRow) (a : Z).

Lemma same_links_refl h : same_links h h.
Proof. intros k. by destruct (h !! k). Qed.

Lemma same_links_trans h1 h2 h3 :
  same_links h1 h2 -> same_links h2 h3 -> same_links h1 h3.
Proof.
  intros H12 H23 k. specialize (H12 k). specialize (H23 k).
  destruct (h1 !! k), (h2 !! k), (h3 !! k); try done.
  destruct H12 as [<- <-]. done.
Qed.

Lemma updateDescendant_same_links h kr h' :
  MLMModel.updateDescendant h kr = Ok h' -> same_links h h'.
Proof.
  unfold MLMModel.updateDescendant, MLMModel.update_row.
  destruct (parent_id kr.2 ≫= MLMModel.active_row h) as [parent|];
    [|intros [= <-]; apply same_links_refl].
  destruct (h !! kr.1) as [current|] eqn:Hcur; [|intros [= <-]; apply same_links_refl].
  intros [-> _]%write_row_Ok k. rewrite lookup_insert. case_decide as Hk.
  - subst k. by rewrite Hcur.
  - by destruct (h !! k).
Qed.

Lemma updateDescendants_loop_same_links rows h h' :
  MLMModel.updateDescendants_loop h rows = Ok h' -> same_links h h'.
Proof.
  revert h. induction rows as [|kr rows IH]; intros h; simpl.
  - intros [= <-]. apply same_links_refl.
  - destruct (MLMModel.updateDescendant h kr) as [h1|] eqn:Hstep; [|done]. simpl.
    intros Hloop. eapply same_links_trans; [|by apply IH].
    by eapply updateDescendant_same_links.
Qed.

(** The three ways a call can end. *)
Lemma upsertAffiliate_cases h a parentId :
  (exists e, MLMModel.upsertAffiliate h a parentId = Throw e)
  \/ (exists existing, h !! a = Some existing /\ parent_id existing = parentId
        /\ MLMModel.upsertAffiliate h a parentId = Ok (existing, h))
  \/ (exists existing h', h !! a = Some existing /\ parent_id existing <> parentId
        /\ MLMModel.upsertAffiliate h a parentId = Ok (existing, h')
        /\ MLMModel.updateDescendants_loop
             (<[a := {| parent_id := parentId;
                        level := (MLMModel.placement h a parentId).1;
                        path := (MLMModel.placement h a parentId).2;
                        active := active existing |}]> h)
             (MLMModel.select_descendants
                (<[a := {| parent_id := parentId;
                           level := (MLMModel.placement h a parentId).1;
                           path := (MLMModel.placement h a parentId).2;
                           active := active existing |}]> h) a) = Ok h')
  \/ (exists row, h !! a = None
        /\ row = {| parent_id := parentId;
                    level := (MLMModel.placement h a parentId).1;
                    path := (MLMModel.placement h a parentId).2;
                    active := true |}
        /\ MLMModel.valid_level (level row) = true
        /\ MLMModel.upsertAffiliate h a parentId = Ok (row, <[a := row]> h)).
Proof.
  unfold MLMModel.upsertAffiliate.
  destruct (h !! a) as [existing|] eqn:Ha.
  - case_bool_decide as Hsame; [right; left; eauto|].
    unfold MLMModel.updateAffiliateParent.
    destruct (MLMModel.placement h a parentId) as [l p]. simpl.
    rewrite (update_row_Some _ _ _ _ Ha).
    destruct (MLMModel.write_row h a _) as [h1|e] eqn:Hw; [|left; simpl; eauto].
    apply write_row_Ok in Hw as [-> _]. simpl.
    unfold MLMModel.updateDescendants.
    destruct (MLMModel.updateDescendants_loop _ _) as [h2|e] eqn:Hl;
      [|left; simpl; eauto].
    right; right; left. exists existing, h2. simpl. done.
  - destruct (MLMModel.placement h a parentId) as [l p]. simpl.
    destruct (MLMModel.write_row h a _) as [h1|e] eqn:Hw; [|left; simpl; eauto].
    apply write_row_Ok in Hw as [-> Hvalid]. simpl.
    right; right; right. eexists. done.
Qed.

(** X3. A committed upsert stores the parent it was given; running the
    same upsert again returns the stored row and changes nothing. *)
Theorem upsertAffiliate_idempotent h a parentId :
  MLMModel.table_after (MLMModel.table_after h a parentId) a parentId
  = MLMModel.table_after h a parentId
  /\ (forall returned h',
       MLMModel.upsertAffiliate h a parentId = Ok (returned, h') ->
       exists stored,
         h' !! a = Some stored /\ parent_id stored = parentId
         /\ MLMModel.upsertAffiliate h' a parentId = Ok (stored, h')).
Proof.
  assert (forall returned h',
            MLMModel.upsertAffiliate h a parentId = Ok (returned, h') ->
            exists stored,
              h' !! a = Some stored /\ parent_id stored = parentId
              /\ MLMModel.upsertAffiliate h' a parentId = Ok (stored, h')) as Hagain.
  { intros returned h' Hup.
    assert (exists stored, h' !! a = Some stored /\ parent_id stored = parentId)
      as (stored & Hstored & Hparent).
    { destruct (upsertAffiliate_cases h a parentId)
        as [[e He] | [(ex & Ha & Hp & Hok) | [(ex & h2 & Ha & Hp & Hok & Hl)
           | (row & Ha & -> & Hv & Hok)]]]; rewrite Hup in *; try done.
      - injection Hok as -> ->. eauto.
      - injection Hok as -> ->.
        rewrite (updateDescendants_loop_other _ _ _ a Hl).
        + rewrite lookup_insert_eq. eauto.
        + intros kr [_ Hkr]%select_descendants_elem_of.
          by apply is_descendant_true in Hkr as (_ & ? & _).
      - injection Hok as -> ->. rewrite lookup_insert_eq. eauto. }
    exists stored. repeat split; try done.
    unfold MLMModel.upsertAffiliate. rewrite Hstored.
    by rewrite bool_decide_eq_true_2. }
  split; [|done].
  unfold MLMModel.table_after at 2 3.
  destruct (MLMModel.upsertAffiliate h a parentId) as [[returned h']|e] eqn:Hup.
  - destruct (Hagain returned h' eq_refl) as (stored & _ & _ & Hok).
    unfold MLMModel.table_after. by rewrite Hok.
  - unfold MLMModel.table_after. by rewrite Hup.
Qed.

Lemma upsertAffiliate_idempotent_witness :
  exists stored,
    three_levels !! 3 = Some stored /\ parent_id stored = Some 2
    /\ MLMModel.upsertAffiliate three_levels 3 (Some 2) = Ok (stored, three_levels).
Proof.
  exact (proj2 (upsertAffiliate_idempotent
                  (MLMModel.table_after (MLMModel.table_after ∅ 1 None) 2 (Some 1))
                  3 (Some 2)) _ _ eq_refl).
Defined.

(** X4. An upsert of [a] neither removes nor deactivates a participant,
    changes the parent of nobody but [a], adds no row but [a]'s, and
    leaves as they were the rows of the other participants whose path
    does not contain [a]. *)
Theorem upsertAffiliate_frame h a parentId :
  let h' := MLMModel.table_after h a parentId in
  (forall k r, h !! k = Some r ->
     exists r', h' !! k = Some r' /\ active r' = active r
       /\ (k <> a -> parent_id r' = parent_id r)
       /\ (k <> a -> a ∉ path r -> r' = r))
  /\ (forall k, k <> a -> h !! k = None -> h' !! k = None).
Proof.
  intros h'. unfold h', MLMModel.table_after.
  destruct (upsertAffiliate_cases h a parentId)
    as [[e He] | [(ex & Ha & Hp & Hok) | [(ex & h2 & Ha & Hp & Hok & Hl)
       | (row & Ha & Hrow & Hv & Hok)]]].
  - rewrite He. split; [eauto 10 | done].
  - rewrite Hok. split; [eauto 10 | done].
  - rewrite Hok. pose proof (updateDescendants_loop_same_links _ _ _ Hl) as Hsame.
    split.
    + intros k r Hk. specialize (Hsame k). rewrite lookup_insert in Hsame.
      case_decide as Hka.
      * subst k. destruct (h2 !! a) as [r'|]; [|done]. destruct Hsame as [_ Hact].
        exists r'. simpl in Hact. repeat split; try done. congruence.
      * rewrite Hk in Hsame. destruct (h2 !! k) as [r'|] eqn:Hk'; [|done].
        destruct Hsame as [Hparent Hact]. exists r'. repeat split; try done.
        intros _ Hnot.
        rewrite (updateDescendants_loop_other _ _ _ k Hl) in Hk'.
        -- rewrite lookup_insert_ne in Hk' by done. congruence.
        -- intros kr [Hkr Hdesc]%select_descendants_elem_of Heq. subst k.
           apply is_descendant_true in Hdesc as (Hin & _ & _).
           rewrite lookup_insert_ne in Hkr by done. congruence.
    + intros k Hka Hk. specialize (Hsame k).
      rewrite lookup_insert_ne, Hk in Hsame by done. by destruct (h2 !! k).
  - rewrite Hok. split.
    + intros k r Hk. assert (k <> a) by congruence.
      exists r. by rewrite lookup_insert_ne.
    + intros k Hka Hk. by rewrite lookup_insert_ne.
Qed.

Lemma upsertAffiliate_frame_witness :
  MLMModel.table_after seeded_hierarchy 4 (Some 3) !! 5
  = Some {| parent_id := Some 2; level := 3; path := [1; 2; 5]; active := true |}.
Proof.
  destruct (proj1 (upsertAffiliate_frame seeded_hierarchy 4 (Some 3)) 5
              {| parent_id := Some 2; level := 3; path := [1; 2; 5]; active := true |}
              eq_refl) as (r' & -> & _ & _ & Hsame).
  f_equal. apply Hsame; [lia|].
  repeat (apply not_elem_of_cons; split; [lia|]). apply not_elem_of_nil.
Defined.

End WriterFrame.

(* ================================================================== *)
(** * The depth limit of the hierarchy *)

Section Depth.

Implicit Types (h : gmap Z HierarchyRow) (r : HierarchyRow) (a : Z).

Lemma updateDescendants_loop_checked rows h h' :
  MLMModel.updateDescendants_loop h rows = Ok h' -> checked h -> checked h'.
Proof.
  revert h. induction rows as [|kr rows IH]; intros h; simpl.
  - by intros [= <-].
  - destruct (MLMModel.updateDescendant h kr) as [h1|] eqn:Hstep; [|done]. simpl.
    intros Hloop Hh. apply (IH h1 Hloop).
    unfold MLMModel.updateDescendant, MLMModel.update_row in Hstep.
    destruct (parent_id kr.2 ≫= MLMModel.active_row h) as [parent|];
      [|by injection Hstep as <-].
    destruct (h !! kr.1) as [current|]; [|by injection Hstep as <-].
    apply write_row_Ok in Hstep as [-> Hvalid].
    intros k r. rewrite lookup_insert. case_decide; [by intros [= <-] | apply Hh].
Qed.

Lemma table_after_checked h a parentId :
  checked h -> checked (MLMModel.table_after h a parentId).
Proof.
  intros Hh. unfold MLMModel.table_after, MLMModel.upsertAffiliate.
  destruct (h !! a) as [existing|] eqn:Ha.
  - case_bool_decide; [done|].
    unfold MLMModel.updateAffiliateParent.
    destruct (MLMModel.placement h a parentId) as [l p].
    rewrite (update_row_Some _ _ _ _ Ha).
    destruct (MLMModel.write_row h a _) as [h1|e] eqn:Hw; [|done].
    apply write_row_Ok in Hw as [-> Hvalid]. simpl.
    unfold MLMModel.updateDescendants.
    destruct (MLMModel.updateDescendants_loop _ _) as [h2|e] eqn:Hl; [|done]. simpl.
    apply (updateDescendants_loop_checked _ _ _ Hl).
    intros k r. rewrite lookup_insert. case_decide; [by intros [= <-] | apply Hh].
  - destruct (MLMModel.placement h a parentId) as [l p].
    destruct (MLMModel.write_row h a _) as [h1|e] eqn:Hw; [|done].
    apply write_row_Ok in Hw as [-> Hvalid]. simpl.
    intros k r. rewrite lookup_insert. case_decide; [by intros [= <-] | apply Hh].
Qed.

Lemma reachable_checked h : MLMModel.reachable h -> checked h.
Proof.
  induction 1 as [|h a parentId _ IH]; [intros a r; by rewrite lookup_empty|].
  by apply table_after_checked.
Qed.

Lemma ten_levels_reachable : MLMModel.reachable ten_levels.
Proof.
  unfold ten_levels.
  assert (forall ks h, MLMModel.reachable h ->
            MLMModel.reachable
              (foldl (fun h k => MLMModel.table_after h k (Some (k - 1))) h ks)) as Hfold.
  { induction ks as [|k ks IH]; intros h Hh; [done|]. simpl.
    apply IH. by apply MLMModel.reachable_upsert. }
  apply Hfold, MLMModel.reachable_upsert, MLMModel.reachable_empty.
Qed.

(** X5. Whatever upserts produced a table, every row of it is active,
    has a level between 1 and 10, and a path of at most ten participants:
    the service never deactivates a participant and never stores a row
    deeper than the CHECK of the table allows. *)
Theorem reachable_rows_within_depth h a r :
  MLMModel.reachable h -> h !! a = Some r ->
  1 <= level r <= 10 /\ active r = true /\ (1 <= length (path r) <= 10)%nat.
Proof.
  intros Hreach Ha.
  pose proof (reachable_checked h Hreach a r Ha) as Hvalid.
  destruct (reachable_well_shaped h Hreach a r Ha) as [[Hlen _] Hact].
  unfold MLMModel.valid_level in Hvalid.
  apply andb_true_iff in Hvalid as [Hlo%Z.leb_le Hhi%Z.leb_le].
  repeat split; try done; lia.
Qed.

Lemma reachable_rows_within_depth_witness :
  1 <= 10 <= 10 /\ true = true /\ (1 <= 10 <= 10)%nat.
Proof.
  exact (reachable_rows_within_depth ten_levels 10
           {| parent_id := Some 9; level := 10;
              path := [1; 2; 3; 4; 5; 6; 7; 8; 9; 10]; active := true |}
           ten_levels_reachable eq_refl).
Defined.

(** X6. Registering a new participant, with identifiers that the INTEGER
    columns hold (the driver refuses any other before a row is read),
    fails exactly when the parent named is a participant at level 10 (the
    id 0 reads as no parent), and then with the violation of the CHECK on
    [level]; under a parent that is not in the table the participant
    becomes a root. *)
Theorem upsertAffiliate_new_depth_limit h a parentId :
  MLMModel.reachable h -> h !! a = None ->
  MLMModel.int4 a = true ->
  (forall p, parentId = Some p -> MLMModel.int4 p = true) ->
  ((exists e, MLMModel.upsertAffiliate h a parentId = Throw e) <->
   (exists p parent, parentId = Some p /\ p <> 0 /\ h !! p = Some parent
                     /\ level parent = 10))
  /\ (forall e, MLMModel.upsertAffiliate h a parentId = Throw e ->
        e = DatabaseError "valid_level")
  /\ (forall row h', MLMModel.upsertAffiliate h a parentId = Ok (row, h') ->
        h' = <[a := row]> h /\ parent_id row = parentId /\ active row = true
        /\ ((parentId ≫= fun p => if p =? 0 then None else h !! p) = None ->
            level row = 1 /\ path row = [a])).
Proof.
  intros Hreach Ha _ _.
  assert (forall p parent, h !! p = Some parent ->
            MLMModel.active_row h p = Some parent /\ 1 <= level parent <= 10)
    as Hrow.
  { intros p parent Hp.
    destruct (reachable_well_shaped h Hreach p parent Hp) as [[Hlen Hlast] Hact].
    pose proof (reachable_checked h Hreach p parent Hp) as Hvalid.
    unfold MLMModel.valid_level in Hvalid.
    apply andb_true_iff in Hvalid as [Hlo%Z.leb_le Hhi%Z.leb_le].
    unfold MLMModel.active_row. rewrite Hp, Hact. split; [done | lia]. }
  unfold MLMModel.upsertAffiliate. rewrite Ha.
  unfold MLMModel.placement, MLMModel.write_row.
  destruct parentId as [p|]; simpl.
  - destruct (Z.eqb_spec p 0) as [Hp0|Hp0]; simpl.
    + split; [|split; [done|]].
      * split; [by intros [e He] | by intros (q & parent & [= <-] & Hq & _)].
      * intros row h' [= <- <-]. by repeat split.
    + destruct (h !! p) as [parent|] eqn:Hp.
      * destruct (Hrow p parent Hp) as [-> Hlevel]. simpl.
        unfold MLMModel.valid_level.
        destruct (Z.leb_spec (level parent + 1) 10) as [Hle|Hgt].
        -- rewrite (proj2 (Z.leb_le 1 (level parent + 1))) by lia. simpl.
           split; [|split; [done|]].
           ++ split; [by intros [e He]|].
              intros (q & parent' & [= <-] & _ & Hq & Hten).
              rewrite Hp in Hq. injection Hq as <-. lia.
           ++ intros row h' [= <- <-]. by repeat split.
        -- rewrite andb_false_r. simpl. split; [|split].
           ++ split; [|eauto]. intros _. exists p, parent.
              repeat split; try done. lia.
           ++ by intros e [= <-].
           ++ done.
      * assert (MLMModel.active_row h p = None) as ->
          by (unfold MLMModel.active_row; by rewrite Hp).
        simpl. split; [|split; [done|]].
        -- split; [by intros [e He]|].
           intros (q & parent & [= <-] & _ & Hq & _). congruence.
        -- intros row h' [= <- <-]. by repeat split.
  - split; [|split; [done|]].
    + split; [by intros [e He] | by intros (q & parent & [=] & _)].
    + intros row h' [= <- <-]. by repeat split.
Qed.

Lemma upsertAffiliate_new_depth_limit_witness :
  MLMModel.upsertAffiliate ten_levels 11 (Some 10)
  = Throw (DatabaseError "valid_level").
Proof.
  destruct (upsertAffiliate_new_depth_limit ten_levels 11 (Some 10)
              ten_levels_reachable eq_refl eq_refl
              ltac:(by intros p [= <-])) as (_ & Herror & _).
  destruct (MLMModel.upsertAffiliate ten_levels 11 (Some 10)) as [ok|e] eqn:Hup.
  - vm_compute in Hup. discriminate.
  - f_equal. by apply Herror.
Defined.





End Depth.

(* ================================================================== *)
(** * Properties of the downline query *)

Section Downline.

Implicit Types (h : gmap Z HierarchyRow) (r : HierarchyRow) (a k : Z).
Implicit Types (row start mid : TreeRow).

Global Instance tree_order_total : Total MLMModel.tree_order.
Proof. intros x y. unfold MLMModel.tree_order. lia. Qed.

Global Instance tree_order_transitive : Transitive MLMModel.tree_order.
Proof. intros x y z. unfold MLMModel.tree_order. lia. Qed.

Lemma affiliate_tree_nil h fuel maxLevels :
  MLMModel.affiliate_tree h fuel [] maxLevels = [].
Proof. by destruct fuel. Qed.

Lemma children_elem_of h maxLevels mid row :
  row ∈ MLMModel.children h maxLevels mid <->
  depth mid < maxLevels
  /\ exists k r, h !! k = Some r /\ parent_id r = Some (tree_affiliate_id mid)
                 /\ active r = true
                 /\ row = MLMModel.tree_row (k, r) (depth mid + 1).
Proof.
  unfold MLMModel.children. destruct (Z.ltb_spec (depth mid) maxLevels) as [Hlt|Hge].
  - rewrite list_elem_of_fmap. split.
    + intros ([k r] & -> & [[Hparent Hact] Hkr%elem_of_map_to_list]%list_elem_of_filter).
      split; [done|]. exists k, r. done.
    + intros (_ & k & r & Hkr & Hparent & Hact & ->). exists (k, r). split; [done|].
      apply list_elem_of_filter. split; [done | by apply elem_of_map_to_list].
  - split; [by intros ?%elem_of_nil | intros [? _]; lia].
Qed.

Lemma joined_from_start h maxLevels n start row :
  joined h maxLevels (S n) start row <->
  exists next, next ∈ MLMModel.children h maxLevels start
               /\ joined h maxLevels n next row.
Proof.
  revert row. induction n as [|n IH]; intros row.
  - simpl. split.
    + intros (mid & -> & Hrow). eauto.
    + intros (next & Hnext & ->). eauto.
  - change (joined h maxLevels (S (S n)) start row)
      with (exists mid, joined h maxLevels (S n) start mid
                        /\ row ∈ MLMModel.children h maxLevels mid).
    split.
    + intros (mid & (next & Hnext & Hmid)%IH & Hrow).
      exists next. split; [done|]. simpl. eauto.
    + intros (next & Hnext & mid & Hmid & Hrow).
      exists mid. split; [|done]. apply IH. eauto.
Qed.

Lemma affiliate_tree_elem_of h fuel working maxLevels row :
  row ∈ MLMModel.affiliate_tree h fuel working maxLevels <->
  exists n start, (n <= fuel)%nat /\ start ∈ working
                  /\ joined h maxLevels n start row.
Proof.
  revert working. induction fuel as [|fuel IH]; intros working.
  - destruct working as [|w working].
    + split; [by intros ?%elem_of_nil | by intros (n & start & _ & ?%elem_of_nil & _)].
    + simpl. rewrite app_nil_r. split.
      * intros Hrow. exists 0%nat, row. done.
      * intros (n & start & Hn & Hstart & Hrow).
        assert (n = 0%nat) as -> by lia. simpl in Hrow. by subst row.
  - destruct working as [|w working].
    + split; [by intros ?%elem_of_nil | by intros (n & start & _ & ?%elem_of_nil & _)].
    + change (MLMModel.affiliate_tree h (S fuel) (w :: working) maxLevels)
        with ((w :: working)
              ++ MLMModel.affiliate_tree h fuel
                   ((w :: working) ≫= MLMModel.children h maxLevels) maxLevels).
      rewrite elem_of_app, IH. split.
      * intros [Hrow | (n & next & Hn & (start & Hnext & Hstart)%list_elem_of_bind & Hrow)].
        -- exists 0%nat, row. split; [lia | done].
        -- exists (S n), start. split; [lia|]. split; [done|].
           apply joined_from_start. eauto.
      * intros (n & start & Hn & Hstart & Hrow). destruct n as [|n].
        -- left. simpl in Hrow. by subst row.
        -- right. apply joined_from_start in Hrow as (next & Hnext & Hrow).
           exists n, next. split; [lia|]. split; [|done].
           apply list_elem_of_bind. eauto.
Qed.

Lemma children_depth h maxLevels mid row :
  row ∈ MLMModel.children h maxLevels mid ->
  depth row = depth mid + 1 /\ depth row <= maxLevels.
Proof. intros (Hlt & k & r & _ & _ & _ & ->)%children_elem_of. simpl. lia. Qed.

Lemma affiliate_tree_fuel h fuel n working maxLevels :
  (forall start, start ∈ working -> maxLevels - depth start <= Z.of_nat fuel) ->
  MLMModel.affiliate_tree h (fuel + n) working maxLevels
  = MLMModel.affiliate_tree h fuel working maxLevels.
Proof.
  revert working. induction fuel as [|fuel IH]; intros working Hdepth.
  - destruct working as [|w working]; [by rewrite !affiliate_tree_nil|].
    assert ((w :: working) ≫= MLMModel.children h maxLevels = []) as Hnone.
    { apply elem_of_nil_inv. intros row (start & Hrow & Hstart)%list_elem_of_bind.
      apply children_elem_of in Hrow as [Hlt _]. specialize (Hdepth start Hstart). lia. }
    destruct n as [|n]; [done|].
    change (w :: working
              ++ MLMModel.affiliate_tree h n
                   ((w :: working) ≫= MLMModel.children h maxLevels) maxLevels
            = (w :: working) ++ []).
    by rewrite Hnone, affiliate_tree_nil.
  - destruct working as [|w working]; [done|].
    change (w :: working
              ++ MLMModel.affiliate_tree h (fuel + n)
                   ((w :: working) ≫= MLMModel.children h maxLevels) maxLevels
            = w :: working
              ++ MLMModel.affiliate_tree h fuel
                   ((w :: working) ≫= MLMModel.children h maxLevels) maxLevels).
    rewrite IH; [done|].
    intros next (start & [Hnext _]%children_depth & Hstart)%list_elem_of_bind.
    specialize (Hdepth start Hstart). lia.
Qed.

Lemma climb_Some_row h n k a :
  climb h n k = Some a -> exists r, h !! k = Some r /\ active r = true.
Proof.
  destruct n as [|n]; simpl.
  - unfold is_active. case_bool_decide as Hact; [|done]. intros _.
    destruct Hact as [r Hr]. apply active_row_Some in Hr. eauto.
  - destruct (MLMModel.active_row h k) as [r|] eqn:Hr; [|done]. intros _.
    apply active_row_Some in Hr. eauto.
Qed.

Lemma joined_climb h maxLevels n a ra row :
  MLMModel.active_row h a = Some ra ->
  joined h maxLevels n (MLMModel.tree_row (a, ra) 1) row <->
  exists k r, row = MLMModel.tree_row (k, r) (1 + Z.of_nat n)
              /\ h !! k = Some r /\ climb h n k = Some a
              /\ (n = 0%nat \/ 1 + Z.of_nat n <= maxLevels).
Proof.
  intros Ha. pose proof Ha as [Hra Hact]%active_row_Some.
  assert (is_active h a = true) as Hia by (apply is_active_true; eauto).
  revert row. induction n as [|n IH]; intros row.
  - simpl. split.
    + intros ->. exists a, ra. repeat split; try done; [|by left].
      by rewrite Hia.
    + intros (k & r & -> & Hk & Hclimb & _).
      destruct (is_active h k); [|done]. injection Hclimb as ->.
      rewrite Hra in Hk. by injection Hk as <-.
  - change (joined h maxLevels (S n) (MLMModel.tree_row (a, ra) 1) row)
      with (exists mid, joined h maxLevels n (MLMModel.tree_row (a, ra) 1) mid
                        /\ row ∈ MLMModel.children h maxLevels mid).
    split.
    + intros (mid & (p & rp & -> & Hp & Hclimb & Hn)%IH
                  & (Hlt & k & r & Hk & Hparent & Hactive & ->)%children_elem_of).
      simpl in *. exists k, r. repeat split; try done.
      * f_equal. lia.
      * assert (MLMModel.active_row h k = Some r) as ->
          by (unfold MLMModel.active_row; by rewrite Hk, Hactive).
        simpl. by rewrite Hparent.
      * right. lia.
    + intros (k & r & -> & Hk & Hclimb & [Hn | Hn]); [done|].
      simpl in Hclimb.
      destruct (MLMModel.active_row h k) as [r'|] eqn:Hk'; [|done].
      apply active_row_Some in Hk' as [Hk' Hactive].
      rewrite Hk in Hk'. injection Hk' as <-. simpl in Hclimb.
      destruct (parent_id r) as [p|] eqn:Hparent; [|done]. simpl in Hclimb.
      destruct (climb_Some_row _ _ _ _ Hclimb) as (rp & Hp & _).
      exists (MLMModel.tree_row (p, rp) (1 + Z.of_nat n)). split.
      * apply IH. exists p, rp. repeat split; try done. right. lia.
      * apply children_elem_of. simpl. split; [lia|].
        exists k, r. repeat split; try done. f_equal. lia.
Qed.

Lemma getAffiliateHierarchy_elem_of h a maxLevels row :
  row ∈ MLMModel.getAffiliateHierarchy h a maxLevels <->
  exists (n : nat) k r,
    row = MLMModel.tree_row (k, r) (1 + Z.of_nat n)
    /\ h !! k = Some r /\ climb h n k = Some a
    /\ (n = 0%nat \/ 1 + Z.of_nat n <= maxLevels).
Proof.
  unfold MLMModel.getAffiliateHierarchy.
  rewrite merge_sort_Permutation, affiliate_tree_elem_of.
  destruct (MLMModel.active_row h a) as [ra|] eqn:Ha.
  - split.
    + intros (n & start & _ & ->%list_elem_of_singleton & Hjoined).
      exists n. by apply (joined_climb h maxLevels n a ra).
    + intros (n & Hrow). exists n, (MLMModel.tree_row (a, ra) 1).
      split; [|split; [apply list_elem_of_singleton; done
                      | by apply (joined_climb h maxLevels n a ra)]].
      destruct Hrow as (_ & _ & _ & _ & _ & [-> | Hn]); lia.
  - split; [by intros (n & start & _ & ?%elem_of_nil & _)|].
    intros (n & k & r & _ & _ & Hclimb & _). exfalso.
    assert (forall n k, climb h n k = Some a -> is_active h a = true) as Hend.
    { clear. induction n as [|n IH]; intros k; simpl.
      - destruct (is_active h k) eqn:Hk; [|done]. by intros [= <-].
      - destruct (MLMModel.active_row h k) as [r|]; [|done]. simpl.
        destruct (parent_id r) as [p|]; [|done]. apply IH. }
    apply Hend in Hclimb. unfold is_active in Hclimb.
    rewrite Ha in Hclimb. apply bool_decide_eq_true in Hclimb. by destruct Hclimb.
Qed.

Lemma upline_tree_elem_of h fuel parent distance maxLevels a d :
  {| upline_affiliate_id := a; upline_level := d |}
    ∈ MLMModel.upline_tree h fuel parent distance maxLevels <->
  exists (n : nat) p, (n < fuel)%nat /\ parent = Some p
                      /\ d = distance + 1 + Z.of_nat n /\ d <= maxLevels
                      /\ climb h n p = Some a.
Proof.
  revert parent distance. induction fuel as [|fuel IH]; intros parent distance; simpl.
  - split; [by intros ?%elem_of_nil | intros (n & p & ? & _); lia].
  - destruct (Z.ltb_spec distance maxLevels) as [Hlt|Hge];
      [|split; [by intros ?%elem_of_nil | intros (n & p & _ & _ & -> & ? & _); lia]].
    destruct parent as [p|];
      [|split; [by intros ?%elem_of_nil | by intros (n & p & _ & [=] & _)]].
    destruct (MLMModel.active_row h p) as [r|] eqn:Hp.
    + rewrite elem_of_cons, IH. split.
      * intros [[= -> ->] | (n & q & Hn & Hq & -> & Hd & Hclimb)].
        -- exists 0%nat, p. repeat split; try done; try lia.
           simpl. apply active_row_Some in Hp.
           assert (is_active h p = true) as -> by (apply is_active_true; eauto).
           done.
        -- exists (S n), p. repeat split; try done; try lia.
           simpl. rewrite Hp. simpl. by rewrite Hq.
      * intros (n & q & Hn & [= <-] & -> & Hd & Hclimb). destruct n as [|n].
        -- left. simpl in Hclimb. destruct (is_active h p); [|done].
           injection Hclimb as ->. f_equal. lia.
        -- right. simpl in Hclimb. rewrite Hp in Hclimb. simpl in Hclimb.
           destruct (parent_id r) as [q|]; [|done]. simpl in Hclimb.
           exists n, q. repeat split; try done; lia.
    + split; [by intros ?%elem_of_nil|].
      intros (n & q & _ & [= <-] & _ & _ & Hclimb). exfalso.
      destruct (climb_Some_row _ _ _ _ Hclimb) as (r & Hr & Hact).
      unfold MLMModel.active_row in Hp. by rewrite Hr, Hact in Hp.
Qed.

Lemma getAffiliateUpline_elem_of h k maxLevels a d :
  {| upline_affiliate_id := a; upline_level := d |}
    ∈ MLMModel.getAffiliateUpline h k maxLevels <->
  2 <= d <= maxLevels /\ climb h (Z.to_nat (d - 1)) k = Some a.
Proof.
  unfold MLMModel.getAffiliateUpline.
  destruct (MLMModel.active_row h k) as [r|] eqn:Hk.
  - rewrite upline_tree_elem_of. split.
    + intros (n & p & Hn & Hp & -> & Hd & Hclimb). split; [lia|].
      replace (Z.to_nat (1 + 1 + Z.of_nat n - 1)) with (S n) by lia.
      simpl. rewrite Hk. simpl. by rewrite Hp.
    + intros [Hd Hclimb].
      replace (Z.to_nat (d - 1)) with (S (Z.to_nat (d - 2))) in Hclimb by lia.
      simpl in Hclimb. rewrite Hk in Hclimb. simpl in Hclimb.
      destruct (parent_id r) as [p|]; [|done]. simpl in Hclimb.
      exists (Z.to_nat (d - 2)), p. repeat split; try done; lia.
  - split; [by intros ?%elem_of_nil|]. intros [Hd Hclimb].
    replace (Z.to_nat (d - 1)) with (S (Z.to_nat (d - 2))) in Hclimb by lia.
    simpl in Hclimb. by rewrite Hk in Hclimb.
Qed.

(** X8. The downline query returns stored, active rows at depths from 1
    to [maxLevels] (the participant asked for is returned even when
    [maxLevels] is below 1), in the order of the query; the participant
    asked for comes first and alone has depth 1, and nothing is returned
    when that participant is missing or inactive.  More iterations than
    [maxLevels] add no row. *)
Theorem getAffiliateHierarchy_shape h a maxLevels :
  let tree := MLMModel.getAffiliateHierarchy h a maxLevels in
  (forall row, row ∈ tree ->
     1 <= depth row <= Z.max 1 maxLevels
     /\ (depth row = 1 -> tree_affiliate_id row = a)
     /\ exists r, h !! tree_affiliate_id row = Some r /\ active r = true
                  /\ row = MLMModel.tree_row (tree_affiliate_id row, r) (depth row))
  /\ StronglySorted MLMModel.tree_order tree
  /\ (is_active h a = false -> tree = [])
  /\ (forall r, MLMModel.active_row h a = Some r ->
        head tree = Some (MLMModel.tree_row (a, r) 1))
  /\ (forall n kr,
        MLMModel.affiliate_tree h (Z.to_nat maxLevels + n)
          [MLMModel.tree_row kr 1] maxLevels
        = MLMModel.affiliate_tree h (Z.to_nat maxLevels)
            [MLMModel.tree_row kr 1] maxLevels).
Proof.
  intros tree.
  assert (forall row, row ∈ tree ->
     1 <= depth row <= Z.max 1 maxLevels
     /\ (depth row = 1 -> tree_affiliate_id row = a)
     /\ exists r, h !! tree_affiliate_id row = Some r /\ active r = true
                  /\ row = MLMModel.tree_row (tree_affiliate_id row, r) (depth row))
    as Hrows.
  { intros row (n & k & r & -> & Hk & Hclimb & Hn)%getAffiliateHierarchy_elem_of.
    simpl. split; [lia|]. split.
    - intros Hone. assert (n = 0%nat) as -> by lia. simpl in Hclimb.
      destruct (is_active h k); [|done]. by injection Hclimb as ->.
    - destruct (climb_Some_row _ _ _ _ Hclimb) as (r' & Hr' & Hact).
      exists r. rewrite Hk in Hr'. injection Hr' as <-. done. }
  split; [exact Hrows|]. split; [apply StronglySorted_merge_sort; apply _|].
  split; [|split].
  - intros Hinactive. unfold tree, MLMModel.getAffiliateHierarchy.
    destruct (MLMModel.active_row h a) as [r|] eqn:Ha.
    + apply active_row_Some in Ha.
      assert (is_active h a = true) as Hia by (apply is_active_true; eauto).
      congruence.
    + by rewrite affiliate_tree_nil.
  - intros r Ha. pose proof Ha as [Hr Hact]%active_row_Some.
    assert (MLMModel.tree_row (a, r) 1 ∈ tree) as Hstart.
    { apply getAffiliateHierarchy_elem_of. exists 0%nat, a, r.
      repeat split; try done; [|by left]. simpl.
      assert (is_active h a = true) as -> by (apply is_active_true; eauto). done. }
    assert (StronglySorted MLMModel.tree_order tree) as Hsorted
      by (apply StronglySorted_merge_sort; apply _).
    destruct tree as [|first rest]; [by apply elem_of_nil in Hstart|].
    simpl. f_equal.
    apply elem_of_cons in Hstart as [<- | Hstart]; [done|].
    apply StronglySorted_inv in Hsorted as [_ Hfirst].
    rewrite Forall_forall in Hfirst. specialize (Hfirst _ Hstart).
    destruct (Hrows first ltac:(apply list_elem_of_here))
      as (Hdepth & Hone & r' & Hr' & _ & Hrow).
    assert (depth first = 1) as Hd
      by (unfold MLMModel.tree_order in Hfirst; simpl in Hfirst; lia).
    rewrite Hrow, Hd, (Hone Hd). rewrite (Hone Hd), Hr in Hr'. by injection Hr' as <-.
  - intros n kr. apply affiliate_tree_fuel.
    intros w ->%list_elem_of_singleton. simpl. lia.
Qed.

Lemma getAffiliateHierarchy_shape_witness :
  head (MLMModel.getAffiliateHierarchy seeded_hierarchy 2 5)
  = Some {| tree_affiliate_id := 2; tree_parent_id := Some 1; tree_level := 2;
            tree_path := [1; 2]; depth := 1 |}.
Proof.
  exact (proj1 (proj2 (proj2 (proj2 (getAffiliateHierarchy_shape seeded_hierarchy 2 5))))
           {| parent_id := Some 1; level := 2; path := [1; 2]; active := true |}
           eq_refl).
Defined.

(** X9. The downline and the upline queries see the same chains: a
    participant [k] is in the downline of [a] at a depth [d] above 1
    exactly when [a] is in the upline of [k] at distance [d]. *)
Theorem getAffiliateHierarchy_getAffiliateUpline h a k d maxLevels :
  2 <= d ->
  (exists row, row ∈ MLMModel.getAffiliateHierarchy h a maxLevels
               /\ tree_affiliate_id row = k /\ depth row = d)
  <-> {| upline_affiliate_id := a; upline_level := d |}
        ∈ MLMModel.getAffiliateUpline h k maxLevels.
Proof.
  intros Hd. rewrite getAffiliateUpline_elem_of. split.
  - intros (row & (n & k' & r & -> & Hk & Hclimb & Hn)%getAffiliateHierarchy_elem_of
                & Hid & Hdepth).
    simpl in Hid, Hdepth. subst k' d.
    replace (Z.to_nat (1 + Z.of_nat n - 1)) with n by lia.
    split; [|done]. destruct Hn as [-> | Hn]; simpl in *; lia.
  - intros [Hm Hclimb].
    destruct (climb_Some_row _ _ _ _ Hclimb) as (r & Hr & _).
    exists (MLMModel.tree_row (k, r) d). split; [|done].
    apply getAffiliateHierarchy_elem_of. exists (Z.to_nat (d - 1)), k, r.
    repeat split; try done; [f_equal; lia | right; lia].
Qed.

Lemma getAffiliateHierarchy_getAffiliateUpline_witness :
  {| upline_affiliate_id := 2; upline_level := 3 |}
    ∈ MLMModel.getAffiliateUpline seeded_hierarchy 7 5.
Proof.
  apply (getAffiliateHierarchy_getAffiliateUpline seeded_hierarchy 2 7 3 5); [lia|].
  exists (MLMModel.tree_row
            (7, {| parent_id := Some 4; level := 4; path := [1; 2; 4; 7];
                   active := true |}) 3).
  split; [|done]. vm_compute. do 3 right. left.
Defined.

End Downline.

(* ================================================================== *)
(** * What an event leaves in the store *)

Global Instance grows_preorder : PreOrder grows.
Proof.
  split.
  - intros w. by repeat split.
  - intros w1 w2 w3 (Hh & Hd & Hv & Hl) (Hh' & Hd' & Hv' & Hl').
    repeat split; [congruence | congruence | by etrans | by etrans].
Qed.

Lemma keeps_bind (R : relation World) `{!Transitive R} {A B}
    (m : Service A) (k : A -> Service B) :
  keeps R m -> (forall a, keeps R (k a)) -> keeps R (m ≫= k).
Proof.
  intros Hm Hk w. rewrite service_bind_eq. specialize (Hm w).
  destruct (m w) as [[a|e] w1]; simpl in *; [|done].
  etrans; [exact Hm | apply Hk].
Qed.

Lemma keeps_ret (R : relation World) `{!Reflexive R} {A} (a : A) :
  keeps R (mret a).
Proof. intros w. simpl. reflexivity. Qed.

Lemma keeps_lift (R : relation World) `{!Reflexive R} {A} (r : Result A) :
  keeps R (lift r).
Proof. intros w. simpl. reflexivity. Qed.

Lemma keeps_throw (R : relation World) `{!Reflexive R} {A} (e : JsError) :
  keeps R (throw (A := A) e).
Proof. intros w. simpl. reflexivity. Qed.

Lemma keeps_try_catch (R : relation World) `{!Transitive R} {A}
    (body : Service A) (handler : JsError -> Service A) :
  keeps R body -> (forall e, keeps R (handler e)) -> keeps R (try_catch body handler).
Proof.
  intros Hbody Hhandler w. unfold try_catch. specialize (Hbody w).
  destruct (body w) as [[a|e] w1]; simpl in *; [done|].
  etrans; [exact Hbody | apply Hhandler].
Qed.

Lemma keeps_mapM (R : relation World) `{!PreOrder R} {A B}
    (f : A -> Service B) (xs : list A) :
  (forall x, keeps R (f x)) -> keeps R (mapM f xs).
Proof.
  intros Hf. induction xs as [|x xs IH].
  - intros w. simpl. reflexivity.
  - change (keeps R (y ← f x; ys ← mapM f xs; mret (y :: ys))).
    apply keeps_bind; [apply _ | apply Hf | intros y].
    apply keeps_bind; [apply _ | apply IH | intros ys].
    intros w. simpl. reflexivity.
Qed.

Lemma service_bind_Ok {A B} (m : Service A) (k : A -> Service B) w b w' :
  (m ≫= k) w = (Ok b, w') ->
  exists a w1, m w = (Ok a, w1) /\ k a w1 = (Ok b, w').
Proof.
  rewrite service_bind_eq. destruct (m w) as [[a|e] w1]; [eauto | done].
Qed.

Section Events.

Variable coerced_ge : Q -> JVal -> bool.
Variable env : Environment.

Lemma getConfig_grows key : keeps grows (MLMService.getConfig env key).
Proof.
  intros w. unfold grows. rewrite (getConfig_database env key w). done.
Qed.

Lemma executeCpaDistribution_outcome cpaValidadoId distribution w :
  let run := MLMService.executeCpaDistribution env cpaValidadoId distribution w in
  database run.2 = database w
  /\ (run.1 = Ok None
      \/ run.1 = Throw (DatabaseError "cpa_distributions.user_id not null")
      \/ exists message, run.1 = Throw (TypeError message)).
Proof.
  unfold MLMService.executeCpaDistribution. rewrite service_bind_eq.
  pose proof (getConfig_database env "mlm_settings" w) as Hdb.
  destruct (getConfig_ok env "mlm_settings" w) as [mlmSettings Hok].
  destruct (MLMService.getConfig env "mlm_settings" w) as [r w1].
  simpl in Hdb, Hok. subst r. rewrite service_bind_eq. unfold lift at 1.
  destruct (MLMService.settings_property "minimum_amount" minimum_amount mlmSettings)
    as [minimum|e] eqn:Hmin.
  - simpl. destruct (MLMService.below_minimum _ _); simpl; eauto.
  - simpl. split; [done|]. right; right.
    destruct mlmSettings as [| | |[]]; simpl in Hmin; try done;
      injection Hmin as <-; eauto.
Qed.

Lemma executeCpaDistribution_grows cpaValidadoId distribution :
  keeps grows (MLMService.executeCpaDistribution env cpaValidadoId distribution).
Proof.
  intros w. destruct (executeCpaDistribution_outcome cpaValidadoId distribution w)
    as [Hdb _].
  unfold grows. rewrite Hdb. done.
Qed.

Lemma mapM_executeCpaDistribution_Ok cpaValidadoId distributions w results w' :
  mapM (MLMService.executeCpaDistribution env cpaValidadoId) distributions w
  = (Ok results, w') ->
  results = replicate (length distributions) None /\ database w' = database w.
Proof.
  revert w results. induction distributions as [|d ds IH]; intros w results; simpl.
  - by intros [= <- <-].
  - intros (r & w1 & Hd & (rs & w2 & Hds & [= <- <-])%service_bind_Ok)%service_bind_Ok.
    destruct (executeCpaDistribution_outcome cpaValidadoId d w) as [Hdb Hout].
    rewrite Hd in Hdb, Hout. simpl in Hdb, Hout.
    destruct (IH _ _ Hds) as [-> Hdb']. split; [|congruence].
    destruct Hout as [[= ->] | [[=] | [? [=]]]]. done.
Qed.

Lemma on_database_grows {A} (f : Database -> A * Database) :
  (forall db, mlm_hierarchy (f db).2 = mlm_hierarchy db
              /\ cpa_distributions (f db).2 = cpa_distributions db
              /\ cpa_validados db `prefix_of` cpa_validados (f db).2
              /\ mlm_operation_logs db `prefix_of` mlm_operation_logs (f db).2) ->
  keeps grows (on_database f).
Proof.
  intros Hf w. unfold on_database. specialize (Hf (database w)).
  destruct (f (database w)) as [a db]. exact Hf.
Qed.

Lemma log_grows entity_id status error_message :
  keeps grows (MLMService.log entity_id status error_message).
Proof.
  apply on_database_grows. intros db. simpl. repeat split; try done.
  by apply prefix_app_r.
Qed.

Lemma updateStatistics_grows distributions :
  keeps grows (MLMService.updateStatistics env distributions).
Proof.
  unfold MLMService.updateStatistics.
  destruct (MLMService.period_of (today env)) as [periodStart periodEnd].
  apply on_database_grows. intros db. simpl.
  destruct (write_each_tables periodStart periodEnd db
              (MLMService.group_by_affiliate distributions)) as (-> & -> & -> & ->).
  done.
Qed.

Lemma processCpaForDistribution_grows userId affiliateId cpaData :
  keeps grows
    (MLMService.processCpaForDistribution coerced_ge env userId affiliateId cpaData).
Proof.
  unfold MLMService.processCpaForDistribution.
  apply keeps_try_catch; [apply _| |].
  - apply keeps_bind; [apply _ | apply getConfig_grows | intros cpaAmounts].
    apply keeps_bind; [apply _ | apply getConfig_grows | intros mlmSettings].
    apply keeps_bind; [apply _ | apply getConfig_grows | intros validationRules].
    apply keeps_bind; [apply _ | apply keeps_lift, _ | intros isValid].
    destruct (negb isValid); [apply keeps_throw, _|].
    apply keeps_bind; [apply _ | apply keeps_lift, _ | intros maxLevels].
    apply keeps_bind; [apply _ | by intros w | intros upline].
    apply keeps_bind; [apply _ | apply keeps_lift, _ | intros distributions].
    apply keeps_bind; [apply _ | | intros event].
    { apply on_database_grows. intros db. simpl. repeat split; try done.
      by apply prefix_app_r. }
    apply keeps_bind; [apply _ | | intros results].
    { apply keeps_mapM; [apply _|]. intros d. apply executeCpaDistribution_grows. }
    apply keeps_bind; [apply _ | apply updateStatistics_grows | intros _].
    apply keeps_bind; [apply _ | apply log_grows | intros _].
    apply keeps_bind; [apply _ | apply keeps_lift, _ | intros total].
    apply keeps_ret, _.
  - intros e. apply keeps_bind; [apply _ | apply log_grows | intros _].
    apply keeps_throw, _.
Qed.

(** X10. [executeCpaDistribution] never stores a distribution: it
    returns [null] for an amount below the minimum, and otherwise throws,
    on settings that are [null] or on the NOT NULL constraint of
    [cpa_distributions.user_id], which it fills with [null].  The store
    is as before in each case. *)
Theorem executeCpaDistribution_never_stores
    (cpaValidadoId : Z) (distribution : Distribution) (w : World) :
  let run := MLMService.executeCpaDistribution env cpaValidadoId distribution w in
  database run.2 = database w
  /\ (forall stored, run.1 <> Ok (Some stored))
  /\ (forall settings,
        configCache w !! "mlm_settings" = Some (CMlmSettings settings) ->
        run = (if MLMService.below_minimum (dist_amount distribution)
                    (minimum_amount settings)
               then Ok None
               else Throw (DatabaseError "cpa_distributions.user_id not null"), w)).
Proof.
  intros run. destruct (executeCpaDistribution_outcome cpaValidadoId distribution w)
    as [Hdb Hout].
  split; [exact Hdb|]. split.
  - intros stored Hstored. fold run in Hout. rewrite Hstored in Hout.
    destruct Hout as [[=] | [[=] | [? [=]]]].
  - intros settings Hc. unfold run, MLMService.executeCpaDistribution.
    rewrite service_bind_eq. unfold MLMService.getConfig at 1. rewrite Hc.
    rewrite service_bind_eq. simpl.
    by destruct (MLMService.below_minimum _ _).
Qed.

(** X11. An event, whether it returns or throws, never touches the
    hierarchy or the distributions, and takes nothing from the stored
    events or from the audit log: what they held before the call they
    hold after it, in the same order, before anything the call added. *)
Theorem processCpaForDistribution_append_only
    (userId affiliateId : Z) (cpaData : CpaData) (w : World) :
  let run := MLMService.processCpaForDistribution coerced_ge env
               userId affiliateId cpaData w in
  mlm_hierarchy (database run.2) = mlm_hierarchy (database w)
  /\ cpa_distributions (database run.2) = cpa_distributions (database w)
  /\ cpa_validados (database w) `prefix_of` cpa_validados (database run.2)
  /\ mlm_operation_logs (database w) `prefix_of` mlm_operation_logs (database run.2).
Proof.
  intros run. apply processCpaForDistribution_grows.
Qed.

Lemma reduce_total_replicate n sum total :
  MLMService.reduce_total sum (replicate n None) = Ok total -> n = 0%nat.
Proof. by destruct n. Qed.

(** X12. An event completes only when nothing is to be distributed.
    Whenever [processCpaForDistribution] returns, the result holds no
    distribution and a total of 0, and the store has gained the event and
    a [SUCCESS] entry of the audit log and nothing else. *)
Theorem processCpaForDistribution_returns_nothing_distributed
    (userId affiliateId : Z) (cpaData : CpaData) (w : World) (outcome : Outcome) :
  let run := MLMService.processCpaForDistribution coerced_ge env
               userId affiliateId cpaData w in
  run.1 = Ok outcome ->
  distributions outcome = []
  /\ totalDistributed outcome = 0%Q
  /\ cv_user_id (cpaValidado outcome) = userId
  /\ cv_affiliate_id (cpaValidado outcome) = affiliateId
  /\ database run.2
     = {| mlm_hierarchy := mlm_hierarchy (database w);
          cpa_validados := cpa_validados (database w) ++ [cpaValidado outcome];
          cpa_distributions := cpa_distributions (database w);
          mlm_statistics := mlm_statistics (database w);
          mlm_operation_logs :=
            mlm_operation_logs (database w) ++ [success_entry (cpaValidado outcome)] |}.
Proof.
  intros run. unfold run, MLMService.processCpaForDistribution, try_catch.
  match goal with
  | |- context [match ?body w with _ => _ end] =>
      destruct (body w) as [[out|e'] w'] eqn:Hbody
  end; [|by rewrite service_bind_eq].
  simpl. intros [= ->].
  apply service_bind_Ok in Hbody as (cpaAmounts & w1 & H1 & Hbody).
  apply service_bind_Ok in Hbody as (mlmSettings & w2 & H2 & Hbody).
  apply service_bind_Ok in Hbody as (validationRules & w3 & H3 & Hbody).
  apply service_bind_Ok in Hbody as (isValid & w3' & [= _ <-] & Hbody).
  destruct (negb isValid); [done|].
  apply service_bind_Ok in Hbody as (maxLevels & w3' & [= _ <-] & Hbody).
  apply service_bind_Ok in Hbody as (upline & w3' & [= _ <-] & Hbody).
  apply service_bind_Ok in Hbody as (ds & w3' & [= _ <-] & Hbody).
  apply service_bind_Ok in Hbody as (event & w4 & [= <- <-] & Hbody).
  apply service_bind_Ok in Hbody as (results & w5 & Hresults & Hbody).
  apply service_bind_Ok in Hbody as ([] & w6 & H6 & Hbody).
  apply service_bind_Ok in Hbody as ([] & w7 & [= <-] & Hbody).
  apply service_bind_Ok in Hbody as (total & w7' & [= Htotal <-] & [= <- <-]).
  apply mapM_executeCpaDistribution_Ok in Hresults as [-> Hdb5].
  pose proof (reduce_total_replicate _ _ _ Htotal) as Hnone.
  rewrite Hnone in Htotal. simpl in Htotal. injection Htotal as <-.
  apply length_zero_iff_nil in Hnone. subst ds.
  simpl. repeat split.
  unfold MLMService.updateStatistics in H6.
  destruct (MLMService.period_of (today env)) as [periodStart periodEnd].
  injection H6 as <-. simpl. rewrite Hdb5. simpl.
  pose proof (getConfig_database env "cpa_level_amounts" w) as Hd1.
  pose proof (getConfig_database env "mlm_settings" w1) as Hd2.
  pose proof (getConfig_database env "cpa_validation_rules" w2) as Hd3.
  rewrite H1 in Hd1. rewrite H2 in Hd2. rewrite H3 in Hd3. simpl in Hd1, Hd2, Hd3.
  rewrite Hd3, Hd2, Hd1. reflexivity.
Qed.

End Events.

Lemma executeCpaDistribution_never_stores_witness :
  MLMService.executeCpaDistribution provider_down 0
    {| affiliate_id := 456; affiliate_level := 2; dist_amount := 20 # 1;
       dist_currency := "BRL" |} payout_below_minimum
  = (Throw (DatabaseError "cpa_distributions.user_id not null"), payout_below_minimum).
Proof.
  exact (proj2 (proj2 (executeCpaDistribution_never_stores provider_down 0
                         {| affiliate_id := 456; affiliate_level := 2;
                            dist_amount := 20 # 1; dist_currency := "BRL" |}
                         payout_below_minimum))
           minimum_of_ten eq_refl).
Defined.

Lemma processCpaForDistribution_append_only_witness :
  cpa_distributions
    (database (MLMService.processCpaForDistribution (fun _ _ => true)
                 provider_down 123 1000 first_deposit payout_below_minimum).2)
  = [].
Proof.
  exact (proj1 (proj2 (processCpaForDistribution_append_only (fun _ _ => true)
                         provider_down 123 1000 first_deposit payout_below_minimum))).
Defined.

Lemma processCpaForDistribution_returns_nothing_distributed_witness :
  mlm_statistics
    (database (MLMService.processCpaForDistribution (fun _ _ => true)
                 provider_down 123 456 first_deposit payout_below_minimum).2)
  = ∅.
Proof.
  destruct (processCpaForDistribution_returns_nothing_distributed (fun _ _ => true)
              provider_down 123 456 first_deposit payout_below_minimum
              {| cpaValidado :=
                   {| cv_id := 0; cv_user_id := 123; cv_affiliate_id := 456;
                      cv_affiliate_level := 1; cpa_amount := 50 # 1;
                      validation_rule_id := "default";
                      validation_criteria := JObj [] |};
                 distributions := [];
                 totalDistributed := 0 |}
              ltac:(vm_compute; reflexivity)) as (_ & _ & _ & _ & ->).
  reflexivity.
Defined.

(* ================================================================== *)
(** * Properties of the two configuration caches *)

Section ConfigCaches.

Implicit Types (env : Environment) (st : ConfigClient.State) (w : World).
Implicit Types (key : string) (v d : ConfigValue).

(** X13. The cache of the service never expires and never refetches:
    once a key has been read, every later read returns what the first one
    returned and changes nothing, whatever the provider and the clock
    have become; this holds for the [null] of a failed first fetch as
    well.  Only a pushed change of a subscribed key replaces the value. *)
Theorem getConfig_sticky env key w :
  let run := MLMService.getConfig env key w in
  (forall env', MLMService.getConfig env' key run.2 = run)
  /\ (generic key -> unavailable env key w ->
      forall env', (MLMService.getConfig env' key run.2).1 = Ok CNull)
  /\ (forall env' v, subscribed key ->
        (MLMService.getConfig env' key (MLMService.onConfigChanged env key v run.2)).1
        = Ok v).
Proof.
  intros run.
  assert (forall env', MLMService.getConfig env' key run.2 = run) as Hsticky.
  { intros env'. unfold run, MLMService.getConfig.
    destruct (configCache w !! key) as [value|] eqn:Hc; simpl; [by rewrite Hc|].
    destruct (ConfigClient.getConfig env (configClient w) key CNull) as [value client].
    simpl. by rewrite lookup_insert_eq. }
  split; [exact Hsticky|]. split.
  - intros [Hk1 Hk2] Hun env'. rewrite Hsticky. unfold run.
    by destruct (getConfig_unavailable env key w Hk1 Hk2 Hun) as (w' & -> & _).
  - intros env' v _. unfold MLMService.getConfig, MLMService.onConfigChanged. simpl.
    by rewrite lookup_insert_eq.
Qed.

Lemma getConfig_sticky_witness :
  (MLMService.getConfig settings_served "mlm_settings"
     (MLMService.getConfig provider_down "mlm_settings" (cold_start empty_database)).2).1
  = Ok CNull.
Proof.
  apply (proj1 (proj2 (getConfig_sticky provider_down "mlm_settings"
                         (cold_start empty_database)))).
  - split; discriminate.
  - repeat split; discriminate.
Defined.

Lemma getFromCache_addToCache env env' st key v :
  now env' < expiry env -> expiry env <> 0 ->
  ConfigClient.getFromCache env' (ConfigClient.addToCache env st key v) key
  = (v, ConfigClient.addToCache env st key v).
Proof.
  intros Hlt Hne. unfold ConfigClient.getFromCache, ConfigClient.addToCache.
  simpl. rewrite !lookup_insert_eq. fold (expiry env).
  rewrite (proj2 (Z.eqb_neq (expiry env) 0) Hne), (proj2 (Z.ltb_lt _ _) Hlt). done.
Qed.

(** X14. What [addToCache] stores under a key is what [getFromCache]
    returns for it until the entry expires; the first read at or after
    the expiry returns [null] and removes the entry, so that later reads
    find nothing whatever the clock; and entries under other keys are
    read as before.  An expiry of 0 counts as expired. *)
Theorem cache_round_trip env env' st key v :
  let st1 := ConfigClient.addToCache env st key v in
  let run := ConfigClient.getFromCache env' st1 key in
  (now env' < expiry env -> expiry env <> 0 -> run = (v, st1))
  /\ (expiry env <= now env' \/ expiry env = 0 ->
      run.1 = CNull
      /\ ConfigClient.cache run.2 !! key = None
      /\ forall env'', ConfigClient.getFromCache env'' run.2 key = (CNull, run.2))
  /\ (forall key', key' <> key ->
        (ConfigClient.getFromCache env' st1 key').1
        = (ConfigClient.getFromCache env' st key').1).
Proof.
  intros st1 run. split; [apply getFromCache_addToCache|].
  unfold run, st1, ConfigClient.getFromCache, ConfigClient.addToCache.
  simpl. rewrite !lookup_insert_eq. fold (expiry env). split.
  - intros Hexpired.
    assert (negb (expiry env =? 0) && (now env' <? expiry env) = false) as ->.
    { destruct Hexpired as [Hle | ->]; [|done].
      rewrite (proj2 (Z.ltb_ge _ _) Hle). apply andb_false_r. }
    simpl. rewrite !lookup_delete_eq. split; [done|]. split; [done|].
    done.
  - intros key' Hne. rewrite !lookup_insert_ne by done.
    destruct (ConfigClient.cache st !! key') as [v'|]; [|done].
    destruct (ConfigClient.cacheTTL st !! key') as [ttl|]; [|done].
    by destruct (negb (ttl =? 0) && (now env' <? ttl)).
Qed.

Lemma cache_round_trip_witness :
  ConfigClient.getFromCache provider_down
    (ConfigClient.addToCache provider_down
       {| ConfigClient.cache := ∅; ConfigClient.cacheTTL := ∅ |}
       "mlm_settings" (CMlmSettings minimum_of_ten)) "mlm_settings"
  = (CMlmSettings minimum_of_ten,
     ConfigClient.addToCache provider_down
       {| ConfigClient.cache := ∅; ConfigClient.cacheTTL := ∅ |}
       "mlm_settings" (CMlmSettings minimum_of_ten)).
Proof.
  apply (proj1 (cache_round_trip provider_down provider_down
                  {| ConfigClient.cache := ∅; ConfigClient.cacheTTL := ∅ |}
                  "mlm_settings" (CMlmSettings minimum_of_ten))).
  - unfold expiry. simpl. lia.
  - unfold expiry. simpl. lia.
Defined.

(** X15. For a key of the generic endpoint that is not cached,
    [ConfigClient.getConfig] returns and caches what the provider serves,
    and a later read before the expiry returns it without regard to the
    provider; when the provider fails or answers without success, the
    default passed in is returned and nothing is cached. *)
Theorem getConfig_caches_what_is_served env st key d :
  generic key -> ConfigClient.cache st !! key = None ->
  let run := ConfigClient.getConfig env st key d in
  (forall v, http_get env ("/config/" +:+ key +:+ "/value") = HttpOk true v ->
     run = (v, ConfigClient.addToCache env st key v)
     /\ (ConfigClient.is_null v = false ->
         forall env' d', now env' < expiry env -> expiry env <> 0 ->
           ConfigClient.getConfig env' run.2 key d' = (v, run.2)))
  /\ ((forall v, http_get env ("/config/" +:+ key +:+ "/value") <> HttpOk true v) ->
      run = (d, st)).
Proof.
  intros [Hk1 Hk2] Hc run.
  apply String.eqb_neq in Hk1, Hk2.
  assert (run = match http_get env ("/config/" +:+ key +:+ "/value") with
                | HttpOk true value => (value, ConfigClient.addToCache env st key value)
                | _ => (d, st)
                end) as Hrun.
  { unfold run, ConfigClient.getConfig, ConfigClient.getFromCache.
    rewrite Hc. simpl. rewrite Hk1, Hk2.
    by destruct (http_get env _) as [status|[] value]. }
  split.
  - intros v Hget. rewrite Hget in Hrun. split; [done|].
    intros Hv env' d' Hlt Hne. rewrite Hrun. simpl.
    unfold ConfigClient.getConfig.
    rewrite (getFromCache_addToCache env env' st key v Hlt Hne). by rewrite Hv.
  - intros Hget. rewrite Hrun.
    destruct (http_get env _) as [status|[] value]; try done. by destruct (Hget value).
Qed.

End ConfigCaches.

Lemma getConfig_caches_what_is_served_witness :
  ConfigClient.getConfig settings_served
    {| ConfigClient.cache := ∅; ConfigClient.cacheTTL := ∅ |} "mlm_settings" CNull
  = (CMlmSettings ConfigClient.default_mlm_settings,
     ConfigClient.addToCache settings_served
       {| ConfigClient.cache := ∅; ConfigClient.cacheTTL := ∅ |} "mlm_settings"
       (CMlmSettings ConfigClient.default_mlm_settings)).
Proof.
  apply (proj1 (getConfig_caches_what_is_served settings_served
                  {| ConfigClient.cache := ∅; ConfigClient.cacheTTL := ∅ |}
                  "mlm_settings" CNull ltac:(split; discriminate) eq_refl)
           (CMlmSettings ConfigClient.default_mlm_settings) eq_refl).
Defined.

(** X16. The counter of reconnection attempts stays between 0 and the
    configured maximum; over closes of the socket with no successful
    open in between, a reconnection is scheduled for each close until the
    maximum is reached and for none after that; an open restores the
    whole allowance. *)
Theorem reconnections_capped (wsMaxReconnectAttempts wsReconnectAttempts : Z)
    (events : list ConfigClient.SocketEvent) :
  0 <= wsReconnectAttempts <= wsMaxReconnectAttempts ->
  let run := ConfigClient.reconnections wsMaxReconnectAttempts wsReconnectAttempts
               events in
  0 <= run.2 <= wsMaxReconnectAttempts
  /\ (ConfigClient.SocketOpen ∉ events ->
      run.1 = (length events `min` Z.to_nat (wsMaxReconnectAttempts - wsReconnectAttempts))%nat
      /\ run.2 = wsReconnectAttempts + Z.of_nat run.1)
  /\ (forall more,
        ConfigClient.reconnections wsMaxReconnectAttempts run.2
          (ConfigClient.SocketOpen :: more)
        = ConfigClient.reconnections wsMaxReconnectAttempts 0 more).
Proof.
  intros Hbound run. split; [|split].
  - unfold run. clear run. revert wsReconnectAttempts Hbound.
    induction events as [|event events IH]; intros attempts Hbound; simpl; [done|].
    destruct event; simpl.
    + specialize (IH 0 ltac:(lia)).
      by destruct (ConfigClient.reconnections wsMaxReconnectAttempts 0 events).
    + unfold ConfigClient.scheduleReconnect.
      destruct (Z.ltb_spec attempts wsMaxReconnectAttempts).
      * specialize (IH (attempts + 1) ltac:(lia)).
        by destruct (ConfigClient.reconnections wsMaxReconnectAttempts (attempts + 1) events).
      * specialize (IH attempts ltac:(lia)).
        by destruct (ConfigClient.reconnections wsMaxReconnectAttempts attempts events).
  - unfold run. clear run. revert wsReconnectAttempts Hbound.
    induction events as [|event events IH]; intros attempts Hbound Hopen.
    + simpl. split; [done | lia].
    + apply not_elem_of_cons in Hopen as [Hevent Hopen].
      destruct event; [done|]. rewrite length_cons.
      cbn [ConfigClient.reconnections ConfigClient.on_socket_event].
      unfold ConfigClient.scheduleReconnect.
      destruct (Z.ltb_spec attempts wsMaxReconnectAttempts).
      * destruct (IH (attempts + 1) ltac:(lia) Hopen) as [Hn Hfinal].
        destruct (ConfigClient.reconnections wsMaxReconnectAttempts (attempts + 1) events)
          as [n final].
        cbn [fst snd] in *. split; lia.
      * destruct (IH attempts ltac:(lia) Hopen) as [Hn Hfinal].
        destruct (ConfigClient.reconnections wsMaxReconnectAttempts attempts events)
          as [n final].
        cbn [fst snd] in *. split; lia.
  - intros more. simpl.
    by destruct (ConfigClient.reconnections wsMaxReconnectAttempts 0 more).
Qed.

Lemma reconnections_capped_witness :
  (ConfigClient.reconnections 10 0 (replicate 12 ConfigClient.SocketClose)).1 = 10%nat.
Proof.
  destruct (proj1 (proj2 (reconnections_capped 10 0
                            (replicate 12 ConfigClient.SocketClose) ltac:(lia))))
    as [-> _]; [|reflexivity].
  intros Hopen. apply elem_of_replicate in Hopen as [? _]. discriminate.
Defined.

(** X17. [clearCache] with a key removes the entry of that key and no
    other; without a key, or with the empty string for one, it removes
    every entry. *)
Theorem clearCache_forgets env st key :
  (forall k, key = Some k -> k <> "" ->
     ConfigClient.getFromCache env (ConfigClient.clearCache st key) k
     = (CNull, ConfigClient.clearCache st key)
     /\ forall k', k' <> k ->
          (ConfigClient.getFromCache env (ConfigClient.clearCache st key) k').1
          = (ConfigClient.getFromCache env st k').1)
  /\ (key = None \/ key = Some "" ->
      forall k, ConfigClient.getFromCache env (ConfigClient.clearCache st key) k
                = (CNull, {| ConfigClient.cache := ∅; ConfigClient.cacheTTL := ∅ |})).
Proof.
  split.
  - intros k -> Hk. unfold ConfigClient.clearCache.
    rewrite (proj2 (String.eqb_neq k "") Hk). unfold ConfigClient.getFromCache. simpl.
    rewrite lookup_delete_eq. split; [done|].
    intros k' Hne. rewrite !lookup_delete_ne by done.
    destruct (ConfigClient.cache st !! k') as [v|]; [|done].
    destruct (ConfigClient.cacheTTL st !! k') as [ttl|]; [|done].
    by destruct (negb (ttl =? 0) && (now env <? ttl)).
  - intros [-> | ->] k; unfold ConfigClient.getFromCache; simpl;
      by rewrite lookup_empty.
Qed.

Lemma clearCache_forgets_witness :
  ConfigClient.getFromCache provider_down
    (ConfigClient.clearCache
       (ConfigClient.addToCache provider_down
          {| ConfigClient.cache := ∅; ConfigClient.cacheTTL := ∅ |}
          "mlm_settings" (CMlmSettings minimum_of_ten))
       (Some "")) "mlm_settings"
  = (CNull, {| ConfigClient.cache := ∅; ConfigClient.cacheTTL := ∅ |}).
Proof.
  apply (proj2 (clearCache_forgets provider_down
                  (ConfigClient.addToCache provider_down
                     {| ConfigClient.cache := ∅; ConfigClient.cacheTTL := ∅ |}
                     "mlm_settings" (CMlmSettings minimum_of_ten))
                  (Some ""))).
  by right.
Defined.

(* ================================================================== *)
(** * Reading through the service *)

Section Reads.

Variable env : Environment.

Implicit Types (w : World) (a : Z).





End Reads.



(* ================================================================== *)
(** * The calculator on a resolved upline *)

Section Payout.

Implicit Types (h : gmap Z HierarchyRow) (a : Z) (upline : list UplineRow).
Implicit Types (cpaAmounts : gmap string Q) (mlmSettings : MlmSettings).









End Payout.

(* ================================================================== *)
(** * Properties of the scheduled job *)

Section Job.

Variable coerced_ge : Q -> JVal -> bool.
Variable env : Environment.
Variable processed_at : string.

Lemma process_each_tallies pendingCpas processed errors w :
  let run := CpaProcessingJob.process_each coerced_ge env processed_at
               pendingCpas processed errors w in
  run.1.1 + run.1.2 = processed + errors + Z.of_nat (length pendingCpas)
  /\ processed <= run.1.1 /\ errors <= run.1.2
  /\ grows w run.2.
Proof.
  revert processed errors w.
  induction pendingCpas as [|cpa rest IH]; intros processed errors w; simpl.
  - split; [lia|]. split; [lia|]. split; [lia|]. reflexivity.
  - pose proof (processCpaForDistribution_grows coerced_ge env
                  (pc_user_id cpa) (pc_affiliate_id cpa)
                  {| amount := 50 # 1;
                     depositAmount := deposit_amount cpa;
                     betsCount := bets_count cpa;
                     totalBetAmount := total_bet_amount cpa;
                     daysActive := days_active cpa;
                     ruleId := Some "auto_processing";
                     criteria := Some (JObj [("source", JStr "automatic_job");
                                             ("processed_at", JStr processed_at)]) |}
                  w) as Hgrows.
    unfold CpaProcessingJob.processSingleCpa.
    destruct (MLMService.processCpaForDistribution _ _ _ _ _ w) as [[out|e] w1];
      simpl in Hgrows.
    + destruct (IH (processed + 1) errors w1) as (Hsum & Hp & He & Hg).
      split; [lia|]. split; [lia|]. split; [lia|]. by etrans.
    + destruct (IH processed (errors + 1) w1) as (Hsum & Hp & He & Hg).
      split; [lia|]. split; [lia|]. split; [lia|]. by etrans.
Qed.

(** X21. The scheduled job.  Its loop counts every row fetched once, as
    processed or as an error, goes on after a row that fails, and leaves
    the hierarchy and the distributions as they were.  As the fetch of
    pending rows returns none, a run of [processPendingCpas] never
    reaches the loop: it catches what the read of the system settings
    throws, leaves the store as it was, reads no configuration key but
    [system_settings], and ends with [isRunning] reset.  [runManual]
    throws when a run is in progress and changes nothing then. *)
Theorem processPendingCpas_leaves_store isRunning w :
  let run := CpaProcessingJob.processPendingCpas coerced_ge env processed_at
               isRunning w in
  (forall pendingCpas processed errors w0,
     let each := CpaProcessingJob.process_each coerced_ge env processed_at
                   pendingCpas processed errors w0 in
     each.1.1 + each.1.2 = processed + errors + Z.of_nat (length pendingCpas)
     /\ processed <= each.1.1 /\ errors <= each.1.2 /\ grows w0 each.2)
  /\ run.1.1 = false
  /\ run.1.2 = None
  /\ database run.2 = database w
  /\ (forall key, key <> "system_settings" ->
        configCache run.2 !! key = configCache w !! key)
  /\ CpaProcessingJob.runManual coerced_ge env processed_at true w
     = (Throw (Error "Job já está executando"), true, w)
  /\ CpaProcessingJob.runManual coerced_ge env processed_at false w
     = (Ok tt, false, run.2).
Proof.
  intros run. split; [intros; apply process_each_tallies|].
  assert (run.1.1 = false /\ run.1.2 = None /\ database run.2 = database w
          /\ (forall key, key <> "system_settings" ->
                configCache run.2 !! key = configCache w !! key)) as Hrun.
  { unfold run, CpaProcessingJob.processPendingCpas.
    rewrite service_bind_eq. unfold MLMService.getConfig.
    destruct (configCache w !! "system_settings") as [value|] eqn:Hc.
    - unfold lift.
      destruct (CpaProcessingJob.batch_size value); simpl; by repeat split.
    - destruct (ConfigClient.getConfig env (configClient w) "system_settings" CNull)
        as [value client].
      unfold lift.
      destruct (CpaProcessingJob.batch_size value); simpl; repeat split; try done;
        intros key Hkey; by rewrite lookup_insert_ne. }
  destruct Hrun as (Hflag & Htallies & Hdb & Hcache).
  repeat split; try done.
  unfold CpaProcessingJob.runManual.
  change (CpaProcessingJob.processPendingCpas coerced_ge env processed_at false w)
    with run.
  destruct run as [[flag tallies] w']. simpl in Hflag. by subst flag.
Qed.

End Job.

Lemma processPendingCpas_leaves_store_witness :
  (CpaProcessingJob.processPendingCpas (fun _ _ => true) provider_down
     "2025-01-15T00:13:20.000Z" true payout_below_minimum).1.1 = false.
Proof.
  exact (proj1 (proj2 (processPendingCpas_leaves_store (fun _ _ => true) provider_down
                         "2025-01-15T00:13:20.000Z" true payout_below_minimum))).
Defined.

(* ================================================================== *)
(** * Properties of the authentication middleware *)

Section Authentication.

Implicit Types (validApiKey : option string) (req : Auth.Request).

(** X22. The two middlewares agree on who is let in: [requireAuth] calls
    [next] exactly when [optionalAuth] marks the request authenticated,
    and then both set the same user.  A non-empty [x-api-key] header
    hides the [Authorization] header; and when [MLM_API_KEY] is not set,
    the key that is accepted is the text [Bearer undefined]. *)
Theorem requireAuth_optionalAuth validApiKey req :
  (forall user,
     Auth.requireAuth validApiKey req = Auth.Next None user <->
     Auth.optionalAuth validApiKey req = Auth.Next (Some true) user)
  /\ (forall message, Auth.requireAuth validApiKey req = Auth.Unauthorized message ->
        Auth.optionalAuth validApiKey req = Auth.Next (Some false) None)
  /\ (forall k, Auth.x_api_key req = Some k -> k <> "" ->
        forall other,
          Auth.requireAuth validApiKey req
          = Auth.requireAuth validApiKey
              {| Auth.x_api_key := Some k; Auth.authorization := other |})
  /\ (validApiKey = None ->
      forall user,
        Auth.requireAuth validApiKey req = Auth.Next None user <->
        Auth.apiKey req = Some "Bearer undefined" /\ user = Some Auth.api_user).
Proof.
  split; [|split; [|split]].
  - intros user. unfold Auth.requireAuth, Auth.optionalAuth.
    destruct (Auth.apiKey req) as [k|]; [|split; intros [=]].
    destruct (String.eqb k ""); [split; intros [=]|].
    destruct (Auth.matches validApiKey k); split; intros [=]; by subst.
  - intros message. unfold Auth.requireAuth, Auth.optionalAuth.
    destruct (Auth.apiKey req) as [k|]; [|done].
    destruct (String.eqb k ""); [done|].
    by destruct (Auth.matches validApiKey k).
  - intros k Hk Hne other. unfold Auth.requireAuth, Auth.apiKey. simpl.
    by rewrite Hk, (proj2 (String.eqb_neq k "") Hne).
  - intros -> user. unfold Auth.requireAuth.
    destruct (Auth.apiKey req) as [k|]; [|split; [intros [=] | intros [[=] _]]].
    destruct (String.eqb_spec k "") as [->|Hne];
      [split; [intros [=] | intros [[=] _]]|].
    unfold Auth.matches, Auth.bearer. simpl.
    change ("Bearer " +:+ "undefined") with "Bearer undefined".
    destruct (String.eqb_spec k "Bearer undefined") as [->|Hother].
    + split; [by intros [= <-] | by intros [_ ->]].
    + split; [intros [=] | intros [[= ->] _]; done].
Qed.

Lemma requireAuth_optionalAuth_witness :
  Auth.requireAuth (Some "secret")
    {| Auth.x_api_key := Some "guess"; Auth.authorization := Some "Bearer secret" |}
  = Auth.Unauthorized "API Key inválida".
Proof.
  rewrite (proj1 (proj2 (proj2 (requireAuth_optionalAuth (Some "secret")
             {| Auth.x_api_key := Some "guess";
                Auth.authorization := Some "Bearer secret" |})))
             "guess" eq_refl ltac:(discriminate) None).
  reflexivity.
Defined.

End Authentication.

(* ================================================================== *)
(** * The validator on rule sets in the documented format *)

Section TypedRules.

Variable coerced_ge : Q -> JVal -> bool.

Implicit Types (d : CpaData) (c : Criterion) (g : Group) (r : RuleSet).

Lemma evalCriterion_json d c :
  Validator.evalCriterion coerced_ge (Some d) (criterion_json c)
  = Ok (if criterion_enabled c then Some (meets d c) else None).
Proof.
  unfold Validator.evalCriterion, criterion_json, meets. simpl.
  destruct (criterion_enabled c); [|done]. simpl.
  destruct (criterion_type c); simpl; unfold Validator.compare; simpl;
    unfold js_ge; simpl;
    match goal with |- context [match ?a with Some _ => _ | None => _ end] =>
      by destruct a end.
Qed.

Lemma evalCriteria_json d (cs : list Criterion) :
  Validator.evalCriteria coerced_ge (Some d) (criterion_json <$> cs)
  = Ok (meets d <$> filter (fun c => criterion_enabled c = true) cs).
Proof.
  induction cs as [|c cs IH]; [done|].
  rewrite fmap_cons. simpl. rewrite evalCriterion_json, IH. simpl.
  rewrite filter_cons. destruct (criterion_enabled c) eqn:Henabled.
  - by rewrite decide_True by done.
  - by rewrite decide_False by done.
Qed.

Lemma combine_operator and results :
  (if String.eqb (operator_name and) "AND"
   then Validator.every results else Validator.some results)
  = combine and results.
Proof. by destruct and. Qed.

Lemma evalGroup_json d g :
  Validator.evalGroup coerced_ge (Some d) (group_json g) = Ok (group_passes d g).
Proof.
  unfold Validator.evalGroup, group_json, group_passes. simpl.
  rewrite evalCriteria_json. simpl. by rewrite combine_operator.
Qed.

Lemma rmapM_evalGroup_json d (gs : list Group) :
  rmapM (Validator.evalGroup coerced_ge (Some d)) (group_json <$> gs)
  = Ok (group_passes d <$> gs).
Proof.
  induction gs as [|g gs IH]; [done|].
  rewrite fmap_cons. simpl. by rewrite evalGroup_json, IH.
Qed.

Lemma validateCpa_rules_json userId d r :
  Validator.validateCpa coerced_ge userId (Some d) (rules_json r)
  = Ok (approves d r).
Proof.
  unfold Validator.validateCpa, Validator.validateCpa_try, rules_json, approves.
  simpl. destruct (rules_groups r) as [|g gs]; [done|].
  assert (Qeq_bool (inject_Z (Z.of_nat (length (group_json <$> g :: gs)))) 0 = false)
    as ->.
  { apply not_true_is_false. intros Heq%Qeq_bool_eq.
    rewrite length_fmap in Heq. simpl in Heq. unfold Qeq in Heq. simpl in Heq. lia. }
  simpl. rewrite evalGroup_json. simpl. rewrite rmapM_evalGroup_json. simpl.
  by destruct (rules_and r).
Qed.

Lemma meets_at_least d d' c :
  at_least d d' -> meets d c = true -> meets d' c = true.
Proof.
  intros Hle. unfold meets.
  destruct (measured (criterion_type c) d) as [x|] eqn:Hx; [|done].
  destruct (Hle _ _ Hx) as (x' & -> & Hxx'). intros Hv%Qle_bool_iff.
  apply Qle_bool_iff. exact (Qle_trans _ _ _ Hv Hxx').
Qed.

Lemma combine_mono {A} (f f' : A -> bool) (and : bool) (xs : list A) :
  (forall x, x ∈ xs -> f x = true -> f' x = true) ->
  combine and (f <$> xs) = true -> combine and (f' <$> xs) = true.
Proof.
  unfold combine. destruct and; induction xs as [|x xs IH]; intros Hf; try done.
  - rewrite !fmap_cons. simpl. rewrite !andb_true_iff. intros [Hx Hxs]. split.
    + apply Hf; [apply list_elem_of_here | done].
    + apply IH; [|done]. intros y Hy. apply Hf. by apply list_elem_of_further.
  - rewrite !fmap_cons. simpl. rewrite !orb_true_iff. intros [Hx | Hxs].
    + left. apply Hf; [apply list_elem_of_here | done].
    + right. apply IH; [|done]. intros y Hy. apply Hf. by apply list_elem_of_further.
Qed.

(** X23. On a rule set in the documented format the validator computes
    the formula the format describes: threshold tests on the attributes
    of the event, over the enabled criteria of each group, combined by
    the group's operator, and the groups combined by the operator of the
    set; a set without groups approves.  The verdict is monotone: an
    event that is approved stays approved when its attributes grow. *)
Theorem validateCpa_documented_format userId d r :
  Validator.validateCpa coerced_ge userId (Some d) (rules_json r)
  = Ok (approves d r)
  /\ (forall d',
        at_least d d' ->
        Validator.validateCpa coerced_ge userId (Some d) (rules_json r) = Ok true ->
        Validator.validateCpa coerced_ge userId (Some d') (rules_json r) = Ok true).
Proof.
  split; [apply validateCpa_rules_json|].
  intros d' Hle. rewrite !validateCpa_rules_json. intros [= Happroved]. f_equal.
  unfold approves in *. destruct (rules_groups r) as [|g gs]; [done|].
  revert Happroved. apply combine_mono. intros g' _.
  unfold group_passes. apply combine_mono. intros c _. by apply meets_at_least.
Qed.

End TypedRules.

Lemma validateCpa_documented_format_witness :
  Validator.validateCpa (fun _ _ => true) 123 (Some first_deposit) readme_rules
  = Ok true.
Proof.
  exact (proj1 (validateCpa_documented_format (fun _ _ => true) 123 first_deposit
                  {| rules_and := false;
                     rules_groups :=
                       [ {| group_and := true;
                            group_criteria :=
                              [ {| criterion_type := Deposit;
                                   criterion_value := 30 # 1;
                                   criterion_enabled := true |};
                                {| criterion_type := Bets;
                                   criterion_value := 10 # 1;
                                   criterion_enabled := true |} ] |} ] |})).
Defined.

(* ================================================================== *)
(** * Levels without a column *)

Lemma at_level_partition (ds : list Distribution) :
  length ds
  = (length (at_level 1 ds) + length (at_level 2 ds) + length (at_level 3 ds)
     + length (at_level 4 ds) + length (at_level 5 ds)
     + length (beyond_columns ds))%nat.
Proof.
  unfold at_level, beyond_columns. induction ds as [|d ds IH]; [done|].
  rewrite !filter_cons. simpl.
  repeat case_decide; simpl; lia.
Qed.

(** X24. In what the aggregator writes for a participant, the total
    counts every distribution of the batch to that participant, while
    the five per-level tallies count only those at levels 1 to 5: the
    total exceeds their sum by the number of distributions at any other
    level, which the row records nowhere else. *)
Theorem group_by_affiliate_levels (distributions : list Distribution) (a : Z)
    (stats : Statistics) :
  map_get (MLMService.group_by_affiliate distributions) a = Some stats ->
  cpas (total stats)
  = cpas (level_1 stats) + cpas (level_2 stats) + cpas (level_3 stats)
    + cpas (level_4 stats) + cpas (level_5 stats)
    + Z.of_nat (length (beyond_columns (batch_of a distributions)))
  /\ 0 < cpas (total stats).
Proof.
  destruct (group_by_affiliate_spec distributions) as [_ Hget]. rewrite Hget.
  case_decide as Hbatch; [done|]. intros [= <-]. simpl.
  rewrite (at_level_partition (batch_of a distributions)) at 1. split; [lia|].
  destruct (batch_of a distributions); [done | simpl; lia].
Qed.

Lemma group_by_affiliate_levels_witness :
  1 = 0 + 0 + 0 + 0 + 0 + Z.of_nat 1.
Proof.
  exact (proj1 (group_by_affiliate_levels
                  [ {| affiliate_id := 456; affiliate_level := 6;
                       dist_amount := 5 # 1; dist_currency := "BRL" |} ]
                  456
                  {| total := {| cpas := 1; amount_sum := 0 + (5 # 1) |};
                     level_1 := MLMService.no_tally;
                     level_2 := MLMService.no_tally;
                     level_3 := MLMService.no_tally;
                     level_4 := MLMService.no_tally;
                     level_5 := MLMService.no_tally |}
                  eq_refl)).
Defined.

(* ================================================================== *)
(** * What the cascade leaves *)

(** X25. Re-parenting in a table whose paths follow the parent links,
    to no parent or to an existing participant that is neither the one
    moved nor below it, leaves a table whose paths follow the parent
    links again: after the cascade of [updateDescendants], every row is
    active, as deep as its path is long, and has the path of its parent
    followed by itself, one level below that parent. *)
Theorem upsertAffiliate_cascade (h : gmap Z HierarchyRow) (a : Z) (parentId : option Z) :
  forest h -> forest_parent h a parentId ->
  let h' := MLMModel.table_after h a parentId in
  forall k r', h' !! k = Some r' ->
    Z.of_nat (length (path r')) = level r' /\ last (path r') = Some k
    /\ active r' = true
    /\ match parent_id r' with
       | None => path r' = [k]
       | Some p => exists parent', h' !! p = Some parent'
                                   /\ path r' = path parent' ++ [k]
                                   /\ level r' = level parent' + 1
       end.
Proof.
  intros Hforest Hparent h' k r' Hk.
  destruct (table_after_forest h a parentId Hforest Hparent) as [Hshape Hlinked].
  fold h' in Hshape, Hlinked.
  destruct (Hshape k r' Hk) as [[Hlen Hlast] Hact].
  repeat split; try done.
  pose proof (Hlinked k r' Hk) as Hl. unfold linked in Hl.
  destruct (parent_id r') as [p|]; [|done].
  destruct Hl as (parent' & Hp & Hpath). exists parent'. repeat split; try done.
  destruct (Hshape p parent' Hp) as [[Hlen' _] _].
  rewrite <- Hlen, <- Hlen', Hpath, length_app. simpl. lia.
Qed.

Lemma upsertAffiliate_cascade_witness :
  exists parent',
    MLMModel.table_after three_levels 2 None !! 2 = Some parent'
    /\ [2; 3] = path parent' ++ [3] /\ 2 = level parent' + 1.
Proof.
  exact (proj2 (proj2 (proj2 (upsertAffiliate_cascade three_levels 2 None
                                three_levels_forest I 3
                                {| parent_id := Some 2; level := 2; path := [2; 3];
                                   active := true |}
                                eq_refl)))).
Defined.
